(** * Smart FTP: the synchronisation core of the extension

    A shallow embedding of the path policy ([PathUtils]), the connection
    session and upload queue ([FTPManager]), the tree-sync comparison
    ([_recursiveSync]), the change coalescer ([FileWatcher]), the status bar
    ([StatusManager]), the configuration file ([ConfigManager]) and the
    listeners that join them ([extension.ts]), followed by the properties of
    the specification that concern them.

    Conventions.
    - JavaScript strings are [string]; numbers that are counters or
      millisecond timestamps are [Z]; an optional field or an [undefined]
      argument is an [option]; a timer handle is a [nat].
    - An [async] method is cut at its [await]s on the transport into blocks
      that run without interruption, as the event loop runs them.  The
      answer of the transport ([basic-ftp]) at an [await] is an input of the
      block that resumes.  An [await] on a promise of the manager itself
      that is already settled is not a cut.
    - A manager in the event loop ([step], [run]) takes one block per event.
      The queue processor records where it is suspended ([drain]); the
      blocks of [connect] and the error handler are accepted in any state,
      which allows every interleaving of the event loop and more.
    - The operations that await a connection ([connect], [checkConnection],
      [deleteFile], [deleteDirectory]) are also given run to completion,
      with the answers of the transport as arguments.
    - Calls received by the status manager are appended to [reports]; plain
      log lines have no effect on any state and are left out, except where
      formatting the line can throw. *)

From Stdlib Require Import ZArith QArith Qround String Ascii List Bool Lia.
From stdpp Require Import base option list gmap strings pretty.

Open Scope string_scope.
Open Scope Z_scope.

(** ** JavaScript string primitives *)

Module Js.

(** [s.startsWith(p)] *)
Definition startsWith (s p : string) : bool := String.prefix p s.

(** [s.includes(needle)] *)
Fixpoint includes (needle s : string) : bool :=
  String.prefix needle s ||
  match s with
  | EmptyString => false
  | String _ s' => includes needle s'
  end.

Definition reverse (s : string) : string :=
  string_of_list_ascii (rev (list_ascii_of_string s)).

(** [s.endsWith(p)] *)
Definition endsWith (s p : string) : bool :=
  String.prefix (reverse p) (reverse s).

(** [s.replace(/c/g, by)] for a single character [c]. *)
Fixpoint replaceChar (c : ascii) (by_ : string) (s : string) : string :=
  match s with
  | EmptyString => EmptyString
  | String d s' =>
      if Ascii.eqb c d then by_ ++ replaceChar c by_ s'
      else String d (replaceChar c by_ s')
  end.

(** [s.replace(/\*\*/g, by)]: leftmost, non-overlapping pairs of stars. *)
Fixpoint replaceStarStar (by_ : string) (s : string) : string :=
  match s with
  | EmptyString => EmptyString
  | String c s' =>
      match s' with
      | String d s'' =>
          if Ascii.eqb c "*" && Ascii.eqb d "*"
          then by_ ++ replaceStarStar by_ s''
          else String c (replaceStarStar by_ s')
      | EmptyString => String c EmptyString
      end
  end.

(** [s.replace(/\/+/g, '/')]: every run of slashes becomes one slash;
    [afterSlash] tells that the character before was a slash. *)
Fixpoint replaceSlashRuns (afterSlash : bool) (s : string) : string :=
  match s with
  | EmptyString => EmptyString
  | String c s' =>
      if Ascii.eqb c "/" then
        if afterSlash then replaceSlashRuns true s'
        else String "/" (replaceSlashRuns true s')
      else String c (replaceSlashRuns false s')
  end.

(** The members of [Object.prototype] that are functions.  Its one other
    member, [__proto__], is an accessor of the prototype. *)
Definition objectPrototypeMethods : list string :=
  [ "constructor"; "__defineGetter__"; "__defineSetter__"; "hasOwnProperty";
    "__lookupGetter__"; "__lookupSetter__"; "isPrototypeOf"; "propertyIsEnumerable";
    "toString"; "valueOf"; "toLocaleString" ].

(** Truthiness of an optional string: [undefined] and [''] are falsy. *)
Definition truthy (o : option string) : bool :=
  match o with
  | Some s => negb (s =? "")%string
  | None => false
  end.

End Js.

(** ** Node's [path] module, POSIX flavour

    [relative] is given for absolute paths, the form in which the editor and
    the file watcher report paths; the other functions follow Node's
    algorithms on every input. *)

Module Path.

Definition isSlash (c : ascii) : bool := Ascii.eqb c "/".

(** Split at every slash. *)
Fixpoint split (s : string) : list string :=
  match s with
  | EmptyString => [EmptyString]
  | String c s' =>
      if isSlash c then EmptyString :: split s'
      else match split s' with
           | seg :: segs => String c seg :: segs
           | [] => [String c EmptyString]
           end
  end.

Fixpoint unsplit (segs : list string) : string :=
  match segs with
  | [] => EmptyString
  | [seg] => seg
  | seg :: segs' => seg ++ "/" ++ unsplit segs'
  end.

(** [normalizeString]: empty and [.] segments vanish, [..] removes the
    segment before it; above the start of a relative path
    ([allowAboveRoot]) the [..] is kept. *)
Fixpoint normalizeSegs (allowAboveRoot : bool) (acc segs : list string) : list string :=
  match segs with
  | [] => rev acc
  | seg :: segs' =>
      if (seg =? "")%string || (seg =? ".")%string then normalizeSegs allowAboveRoot acc segs'
      else if (seg =? "..")%string then
        match acc with
        | prev :: acc' =>
            if (prev =? "..")%string
            then normalizeSegs allowAboveRoot (seg :: acc) segs'
            else normalizeSegs allowAboveRoot acc' segs'
        | [] =>
            if allowAboveRoot
            then normalizeSegs allowAboveRoot [seg] segs'
            else normalizeSegs allowAboveRoot [] segs'
        end
      else normalizeSegs allowAboveRoot (seg :: acc) segs'
  end.

(** [path.posix.normalize(p)] *)
Definition normalize (p : string) : string :=
  if (p =? "")%string then "."
  else
    let isAbsolute := Js.startsWith p "/" in
    let trailingSeparator := Js.endsWith p "/" in
    let body := unsplit (normalizeSegs (negb isAbsolute) [] (split p)) in
    if (body =? "")%string then
      if isAbsolute then "/" else if trailingSeparator then "./" else "."
    else
      (if isAbsolute then "/" else "") ++ body ++
      (if trailingSeparator then "/" else "").

(** [path.posix.join(a, b)] *)
Definition join (a b : string) : string :=
  if (a =? "")%string then normalize b
  else if (b =? "")%string then normalize a
  else normalize (a ++ "/" ++ b).

Fixpoint dropWhile (f : ascii -> bool) (l : list ascii) : list ascii :=
  match l with
  | c :: l' => if f c then dropWhile f l' else l
  | [] => []
  end.

Fixpoint takeWhile (f : ascii -> bool) (l : list ascii) : list ascii :=
  match l with
  | c :: l' => if f c then c :: takeWhile f l' else []
  | [] => []
  end.

(** [path.basename(p)]: trailing slashes are skipped, then the characters
    after the last remaining slash are returned. *)
Definition basename (p : string) : string :=
  let r := dropWhile isSlash (rev (list_ascii_of_string p)) in
  string_of_list_ascii (rev (takeWhile (fun c => negb (isSlash c)) r)).

(** [path.posix.dirname(p)]: the scan runs from the last character down to
    the second one. *)
Definition dirname (p : string) : string :=
  match list_ascii_of_string p with
  | [] => "."
  | c0 :: rest =>
      let hasRoot := isSlash c0 in
      let r := dropWhile isSlash (rev rest) in
      match dropWhile (fun c => negb (isSlash c)) r with
      | [] => if hasRoot then "/" else "."
      | _ :: before =>
          match before with
          | [] => if hasRoot then "//" else String c0 EmptyString
          | _ => string_of_list_ascii (c0 :: rev before)
          end
      end
  end.

Fixpoint dropCommon (a b : list string) : list string * list string :=
  match a, b with
  | x :: a', y :: b' => if (x =? y)%string then dropCommon a' b' else (a, b)
  | _, _ => (a, b)
  end.

(** [path.relative(from, to)] for absolute [from] and [to]: both are
    resolved, the common leading segments are dropped, and one [..] is
    emitted per segment left in [from]. *)
Definition relative (from to : string) : string :=
  let '(up, down) := dropCommon (normalizeSegs false [] (split from))
                                (normalizeSegs false [] (split to)) in
  unsplit (List.map (fun _ => "..") up ++ down)%list.

End Path.

(** ** The host: what the editor and the JavaScript engine supply *)

Class Host := {
  (** [vscode.workspace.workspaceFolders?.[0]?.uri.fsPath] *)
  getWorkspaceRoot : option string;
  (** [new RegExp(source)]: [None] when the constructor throws, otherwise the
      [test] method of the regular expression. *)
  regExp : string -> option (string -> bool);
}.

(** ** PathUtils *)

Module PathUtils.
Section WithHost.
Context `{Host}.

Definition toRemotePath (localPath workspaceRoot remotePath : string) : string :=
  let relativePath := Path.relative workspaceRoot localPath in
  let normalizedPath := Js.replaceChar "\" "/" relativePath in
  Path.join remotePath normalizedPath.

Definition isInWorkspace (filePath : string) : bool :=
  match getWorkspaceRoot with
  | Some workspaceRoot =>
      if (workspaceRoot =? "")%string then false
      else Js.startsWith filePath workspaceRoot
  | None => false
  end.

Definition getDirectoryPath (filePath : string) : string :=
  Path.dirname (Js.replaceChar "\" "/" filePath).

(** [ftpPath.replace(/\\/g, '/').replace(/\/+/g, '/')] *)
Definition normalizeFtpPath (ftpPath : string) : string :=
  Js.replaceSlashRuns false (Js.replaceChar "\" "/" ftpPath).

Definition defaultIgnores : list string :=
  [ ".git"; ".vscode"; "node_modules"; ".DS_Store"; "Thumbs.db"; ".env";
    "*.log"; "smartftp.json" ].

(** The glob-to-regex conversion: dots escaped, [**] to [.+], [*] to
    [[^/]*], in this order. *)
Definition globToRegex (pattern : string) : string :=
  Js.replaceChar "*" "[^/]*"
    (Js.replaceStarStar ".+"
       (Js.replaceChar "." "\." pattern)).

(** The body of the [some] callback: does one pattern match? *)
Definition patternMatches (fileName relativePath pattern : string) : bool :=
  if (pattern =? "")%string then false
  else if (fileName =? pattern)%string || (relativePath =? pattern)%string then true
  else if Js.includes "*" pattern then
    match regExp ("^" ++ globToRegex pattern ++ "$") with
    | Some test => test fileName || test relativePath
    | None => false
    end
  else Js.endsWith pattern "/" && Js.startsWith (relativePath ++ "/") pattern.

(** [shouldIgnoreFile(filePath, ignorePatterns = [])]; an absent second
    argument is [None]. *)
Definition shouldIgnoreFile (filePath : string) (ignorePatterns : option (list string)) : bool :=
  let fileName := Path.basename filePath in
  let allPatterns := (defaultIgnores ++ default [] ignorePatterns)%list in
  let relativePath :=
    if Js.truthy getWorkspaceRoot
    then Js.replaceChar "\" "/" (Path.relative (default "" getWorkspaceRoot) filePath)
    else fileName in
  existsb (patternMatches fileName relativePath) allPatterns.

End WithHost.
End PathUtils.

(** ** A regular-expression engine for the host

    The sources that [globToRegex] builds from a pattern made of ordinary
    characters, dots and stars lie in a small fragment: an anchored sequence
    of atoms (a character, an escaped character, [.], or the class [[^/]]),
    each optionally followed by [*] or [+].  [compile] accepts exactly this
    fragment and [test] decides a match of the whole subject. *)

Module RegExpFragment.

Inductive Atom := Lit (c : ascii) | AnyChar | NotSlash.
Inductive Quant := One | Star | Plus.

Definition isSyntaxChar (c : ascii) : bool :=
  existsb (Ascii.eqb c)
    ["^"; "$"; "\"; "."; "*"; "+"; "?"; "("; ")"; "["; "]"; "{"; "}"; "|"]%char.

Definition isLineTerminator (c : ascii) : bool :=
  Ascii.eqb c "010" || Ascii.eqb c "013".

Definition atomMatches (a : Atom) (c : ascii) : bool :=
  match a with
  | Lit d => Ascii.eqb c d
  | AnyChar => negb (isLineTerminator c)
  | NotSlash => negb (Ascii.eqb c "/")
  end.

Definition parseAtom (l : list ascii) : option (Atom * list ascii) :=
  match l with
  | "\"%char :: d :: l' =>
      if isSyntaxChar d || Ascii.eqb d "/" then Some (Lit d, l') else None
  | "["%char :: "^"%char :: "/"%char :: "]"%char :: l' => Some (NotSlash, l')
  | "."%char :: l' => Some (AnyChar, l')
  | c :: l' => if isSyntaxChar c then None else Some (Lit c, l')
  | [] => None
  end.

Definition parseQuant (l : list ascii) : Quant * list ascii :=
  match l with
  | "*"%char :: l' => (Star, l')
  | "+"%char :: l' => (Plus, l')
  | _ => (One, l)
  end.

Fixpoint parseItems (fuel : nat) (l : list ascii) : option (list (Atom * Quant)) :=
  match l with
  | [] => Some []
  | _ =>
      match fuel with
      | O => None
      | S fuel' =>
          match parseAtom l with
          | Some (a, l1) =>
              let '(q, l2) := parseQuant l1 in
              match parseItems fuel' l2 with
              | Some items => Some ((a, q) :: items)
              | None => None
              end
          | None => None
          end
      end
  end.

(** Backtracking match of a whole subject against the items. *)
Fixpoint matchItems (items : list (Atom * Quant)) : list ascii -> bool :=
  match items with
  | [] => fun s => match s with [] => true | _ => false end
  | (a, q) :: items' =>
      let rest := matchItems items' in
      let star := fix star (s : list ascii) : bool :=
        rest s || match s with
                  | c :: s' => atomMatches a c && star s'
                  | [] => false
                  end in
      match q with
      | One => fun s => match s with
                        | c :: s' => atomMatches a c && rest s'
                        | [] => false
                        end
      | Star => star
      | Plus => fun s => match s with
                         | c :: s' => atomMatches a c && star s'
                         | [] => false
                         end
      end
  end.

(** The anchors that [shouldIgnoreFile] always adds are required. *)
Definition compile (source : string) : option (string -> bool) :=
  match list_ascii_of_string source with
  | "^"%char :: l =>
      match rev l with
      | "$"%char :: rbody =>
          match parseItems (length rbody) (rev rbody) with
          | Some items => Some (fun subject => matchItems items (list_ascii_of_string subject))
          | None => None
          end
      | _ => None
      end
  | _ => None
  end.

End RegExpFragment.

(** A host on a POSIX machine with the workspace opened at [root]. *)
Definition posixHost (root : string) : Host :=
  {| getWorkspaceRoot := Some root; regExp := RegExpFragment.compile |}.

(** ** Data model ([types/config.ts]) *)

Record WatcherConfig := {
  files : string;
  autoUpload : bool;
  autoDelete : bool;
  ignoreCreate : bool;
  ignoreUpdate : bool;
  ignoreDelete : bool;
}.

Inductive Protocol := ftp | sftp.

Record FTPConfig := {
  name : string;
  host : string;
  protocol : Protocol;
  port : Z;
  username : string;
  password : string;
  remotePath : string;
  uploadOnSave : bool;
  useTempFile : bool;
  openSsh : bool;
  watcher : WatcherConfig;
  ignore : option (list string);
}.

Record ConnectionStatus := {
  connected : bool;
  connecting : bool;
  error : option string;
  lastConnected : option Z;
  statusHost : option string;
}.

Record UploadTask := {
  localPath : string;
  taskRemotePath : string;
  retries : Z;
  timestamp : Z;
}.

(** ** The places where an ignore decision is taken *)

Section IgnoreSites.
Context `{Host}.

(** [FTPManager.uploadFile]: [shouldIgnoreFile(localPath, this.config.ignore)] *)
Definition ignoredOnUpload (cfg : FTPConfig) (localPath_ : string) : bool :=
  PathUtils.shouldIgnoreFile localPath_ (ignore cfg).

(** [FTPManager._recursiveSync]: [shouldIgnoreFile(path, this.config?.ignore)] *)
Definition ignoredOnSync (config_ : option FTPConfig) (path : string) : bool :=
  PathUtils.shouldIgnoreFile path (config_ ≫= ignore).

(** [FileWatcher.debounceUpload]: [shouldIgnoreFile(filePath)] *)
Definition ignoredOnDebounce (filePath : string) : bool :=
  PathUtils.shouldIgnoreFile filePath None.

(** The save listener of [FileWatcher]: [shouldIgnoreFile(filePath)] *)
Definition ignoredOnSave (filePath : string) : bool :=
  PathUtils.shouldIgnoreFile filePath None.

End IgnoreSites.

(** ** The transport and what it answers *)

(** A thrown value: an [FTPError] of [basic-ftp] with its reply code, or any
    other [Error]. *)
Inductive JsError :=
| FTPError (code : Z) (message : string)
| OtherError (message : string).

Definition message (e : JsError) : string :=
  match e with
  | FTPError _ m => m
  | OtherError m => m
  end.

(** How an awaited call of the transport settles. *)
Inductive Outcome := Resolved | Rejected (e : JsError).

(** The [basic-ftp] client as the manager sees it: its [closed] flag. *)
Record Client := { closed : bool }.

(** A client that was just constructed has no socket address yet and reports
    [closed]; a successful [access] opens it. *)
Definition newClient : Client := {| closed := true |}.

(** The local file system as [fs.existsSync] sees it at one moment. *)
Definition LocalFs := string -> bool.

(** Reading a vanished file makes [uploadFrom] reject before anything is
    sent. *)
Definition enoent (path : string) : JsError :=
  OtherError ("ENOENT: no such file or directory, open '" ++ path ++ "'").

(** Reading a property of [null]. *)
Definition nullProperty (prop : string) : JsError :=
  OtherError ("Cannot read properties of null (reading '" ++ prop ++ "')").

(** ** The status manager's inbox *)

Inductive Report :=
| UpdateConnectionStatus (status : ConnectionStatus)
| ShowUploadProgress (fileName : string)
| ShowUploadSuccess (fileName : string)
| ShowUploadError (fileName : string) (error : string)
| ShowSyncProgress (message : string)
| ShowSyncSuccess (message : string)
| ShowSyncError (message : string) (error : string)
| ShowDownloadProgress (message : string)
| ShowDownloadSuccess (message : string)
| ShowDownloadError (message : string) (error : string)
| UpdateStatusBar.

(** ** FTPManager: state *)

(** Where [processUploadQueue] is suspended.  [task] is its local variable
    (the task shifted from the queue) and [overallSuccess] its flag. *)
Inductive DrainPC :=
| DrainIdle
| DrainEnsureDir (task : UploadTask) (overallSuccess : bool)
| DrainUpload (task : UploadTask) (overallSuccess : bool)
| DrainDelay (overallSuccess : bool).

Record FTPManager := {
  (** [this.client]; [None] is [null] *)
  client : option Client;
  config : option FTPConfig;
  connectionStatus : ConnectionStatus;
  uploadQueue : list UploadTask;
  isProcessingQueue : bool;
  reconnectTimer : option nat;
  isSyncingOrDownloading : bool;
  (** where the queue processor is suspended *)
  drain : DrainPC;
  (** reconnect timeouts armed in the event loop and neither fired nor cleared *)
  timeouts : list nat;
  (** the handle that the next [setTimeout] returns *)
  nextTimeout : nat;
  (** calls received by the status manager, oldest first *)
  reports : list Report;
}.

Definition set_client (v : option Client) (s : FTPManager) : FTPManager :=
  {| client := v; config := config s; connectionStatus := connectionStatus s;
     uploadQueue := uploadQueue s; isProcessingQueue := isProcessingQueue s;
     reconnectTimer := reconnectTimer s; isSyncingOrDownloading := isSyncingOrDownloading s;
     drain := drain s; timeouts := timeouts s; nextTimeout := nextTimeout s;
     reports := reports s |}.
Definition set_config (v : option FTPConfig) (s : FTPManager) : FTPManager :=
  {| client := client s; config := v; connectionStatus := connectionStatus s;
     uploadQueue := uploadQueue s; isProcessingQueue := isProcessingQueue s;
     reconnectTimer := reconnectTimer s; isSyncingOrDownloading := isSyncingOrDownloading s;
     drain := drain s; timeouts := timeouts s; nextTimeout := nextTimeout s;
     reports := reports s |}.
Definition set_connectionStatus (v : ConnectionStatus) (s : FTPManager) : FTPManager :=
  {| client := client s; config := config s; connectionStatus := v;
     uploadQueue := uploadQueue s; isProcessingQueue := isProcessingQueue s;
     reconnectTimer := reconnectTimer s; isSyncingOrDownloading := isSyncingOrDownloading s;
     drain := drain s; timeouts := timeouts s; nextTimeout := nextTimeout s;
     reports := reports s |}.
Definition set_uploadQueue (v : list UploadTask) (s : FTPManager) : FTPManager :=
  {| client := client s; config := config s; connectionStatus := connectionStatus s;
     uploadQueue := v; isProcessingQueue := isProcessingQueue s;
     reconnectTimer := reconnectTimer s; isSyncingOrDownloading := isSyncingOrDownloading s;
     drain := drain s; timeouts := timeouts s; nextTimeout := nextTimeout s;
     reports := reports s |}.
Definition set_isProcessingQueue (v : bool) (s : FTPManager) : FTPManager :=
  {| client := client s; config := config s; connectionStatus := connectionStatus s;
     uploadQueue := uploadQueue s; isProcessingQueue := v; reconnectTimer := reconnectTimer s;
     isSyncingOrDownloading := isSyncingOrDownloading s; drain := drain s;
     timeouts := timeouts s; nextTimeout := nextTimeout s; reports := reports s |}.
Definition set_reconnectTimer (v : option nat) (s : FTPManager) : FTPManager :=
  {| client := client s; config := config s; connectionStatus := connectionStatus s;
     uploadQueue := uploadQueue s; isProcessingQueue := isProcessingQueue s;
     reconnectTimer := v; isSyncingOrDownloading := isSyncingOrDownloading s; drain := drain s;
     timeouts := timeouts s; nextTimeout := nextTimeout s; reports := reports s |}.
Definition set_isSyncingOrDownloading (v : bool) (s : FTPManager) : FTPManager :=
  {| client := client s; config := config s; connectionStatus := connectionStatus s;
     uploadQueue := uploadQueue s; isProcessingQueue := isProcessingQueue s;
     reconnectTimer := reconnectTimer s; isSyncingOrDownloading := v; drain := drain s;
     timeouts := timeouts s; nextTimeout := nextTimeout s; reports := reports s |}.
Definition set_drain (v : DrainPC) (s : FTPManager) : FTPManager :=
  {| client := client s; config := config s; connectionStatus := connectionStatus s;
     uploadQueue := uploadQueue s; isProcessingQueue := isProcessingQueue s;
     reconnectTimer := reconnectTimer s; isSyncingOrDownloading := isSyncingOrDownloading s;
     drain := v; timeouts := timeouts s; nextTimeout := nextTimeout s; reports := reports s |}.
Definition set_timeouts (v : list nat) (s : FTPManager) : FTPManager :=
  {| client := client s; config := config s; connectionStatus := connectionStatus s;
     uploadQueue := uploadQueue s; isProcessingQueue := isProcessingQueue s;
     reconnectTimer := reconnectTimer s; isSyncingOrDownloading := isSyncingOrDownloading s;
     drain := drain s; timeouts := v; nextTimeout := nextTimeout s; reports := reports s |}.
Definition set_nextTimeout (v : nat) (s : FTPManager) : FTPManager :=
  {| client := client s; config := config s; connectionStatus := connectionStatus s;
     uploadQueue := uploadQueue s; isProcessingQueue := isProcessingQueue s;
     reconnectTimer := reconnectTimer s; isSyncingOrDownloading := isSyncingOrDownloading s;
     drain := drain s; timeouts := timeouts s; nextTimeout := v; reports := reports s |}.
Definition set_reports (v : list Report) (s : FTPManager) : FTPManager :=
  {| client := client s; config := config s; connectionStatus := connectionStatus s;
     uploadQueue := uploadQueue s; isProcessingQueue := isProcessingQueue s;
     reconnectTimer := reconnectTimer s; isSyncingOrDownloading := isSyncingOrDownloading s;
     drain := drain s; timeouts := timeouts s; nextTimeout := nextTimeout s; reports := v |}.

Definition maxRetries : Z := 3.
Definition retryDelay : Z := 5000.

Definition initial : FTPManager :=
  {| client := None; config := None;
     connectionStatus := {| connected := false; connecting := false; error := None;
                            lastConnected := None; statusHost := None |};
     uploadQueue := []; isProcessingQueue := false; reconnectTimer := None;
     isSyncingOrDownloading := false; drain := DrainIdle; timeouts := [];
     nextTimeout := O; reports := [] |}.

(** What a call of an [async] method has done when control comes back to its
    caller: it returned, or it is suspended at an [await] on the transport. *)
Inductive Started (A : Type) :=
| Returned (a : A)
| Suspended.
Arguments Returned {A} a.
Arguments Suspended {A}.

(** ** FTPManager: operations *)

Section Manager.
Context `{Host}.

Definition report (r : Report) (s : FTPManager) : FTPManager :=
  set_reports (reports s ++ [r]) s.

(** [this.client?.closed], as a condition *)
Definition clientClosed (s : FTPManager) : bool :=
  match client s with
  | Some c => closed c
  | None => false
  end.

(** [this.client && !this.client.closed] *)
Definition clientOpen (s : FTPManager) : bool :=
  match client s with
  | Some c => negb (closed c)
  | None => false
  end.

Definition isConnected (s : FTPManager) : bool :=
  connected (connectionStatus s) && clientOpen s.

(** [{ ...status, error }] *)
Definition withError (msg : string) (st : ConnectionStatus) : ConnectionStatus :=
  {| connected := connected st; connecting := connecting st; error := Some msg;
     lastConnected := lastConnected st; statusHost := statusHost st |}.

(** [this.connectionStatus.connected = false] *)
Definition markDisconnected (s : FTPManager) : FTPManager :=
  let st := connectionStatus s in
  set_connectionStatus
    {| connected := false; connecting := connecting st; error := error st;
       lastConnected := lastConnected st; statusHost := statusHost st |} s.

(** [clearTimeout(handle)] *)
Definition clearTimeout (handle : nat) (s : FTPManager) : FTPManager :=
  set_timeouts (filter (fun h => h ≠ handle) (timeouts s)) s.

(** [if (this.reconnectTimer) { clearTimeout(...); this.reconnectTimer = null }] *)
Definition cancelReconnectTimer (s : FTPManager) : FTPManager :=
  match reconnectTimer s with
  | Some handle => set_reconnectTimer None (clearTimeout handle s)
  | None => s
  end.

Definition scheduleReconnect (s : FTPManager) : FTPManager :=
  if connecting (connectionStatus s) || bool_decide (is_Some (reconnectTimer s)) then s
  else if bool_decide (client s = None) && negb (Js.truthy (error (connectionStatus s))) then s
  else
    let handle := nextTimeout s in
    set_reconnectTimer (Some handle)
      (set_nextTimeout (S handle)
         (set_timeouts (timeouts s ++ [handle]) s)).

(** The codes and messages that [handleFTPError] reads as a lost
    connection. *)
Definition isConnectionLossCode (e : JsError) : bool :=
  match e with
  | FTPError code _ => (code =? 421) || (code =? 426) || (code =? 530)
  | OtherError _ => false
  end.

Definition isNetworkLossMessage (msg : string) : bool :=
  Js.includes "ECONNRESET" msg || Js.includes "timeout" msg ||
  Js.includes "Not connected" msg || Js.includes "Connection closed" msg.

Definition errorCode (e : JsError) : Z :=
  match e with
  | FTPError code _ => code
  | OtherError _ => 0
  end.

Definition handleFTPError (e : JsError) (operationContext : string) (s : FTPManager) : FTPManager :=
  if isConnectionLossCode e then
    let s1 := markDisconnected s in
    let s2 := report (UpdateConnectionStatus
                        (withError ("Connection lost during " ++ operationContext ++
                                    " (Code " ++ pretty (errorCode e) ++ ")")
                                   (connectionStatus s1))) s1 in
    scheduleReconnect s2
  else if isNetworkLossMessage (message e) then
    let s1 := markDisconnected s in
    let s2 := report (UpdateConnectionStatus
                        (withError ("Connection lost during " ++ operationContext)
                                   (connectionStatus s1))) s1 in
    scheduleReconnect s2
  else s.

(** *** connect *)

(** The [catch] block of [connect]. *)
Definition connectFailed (e : JsError) (s : FTPManager) : bool * FTPManager :=
  let st := {| connected := false; connecting := false; error := Some (message e);
               lastConnected := None; statusHost := None |} in
  let s1 := report (UpdateConnectionStatus st) (set_connectionStatus st s) in
  let s2 := set_client None s1 in
  (false, scheduleReconnect s2).

(** [connect()] up to [await this.client.access(...)]. *)
Definition connectStart (s : FTPManager) : Started bool * FTPManager :=
  match config s with
  | None => (Returned false, s)
  | Some _ =>
      if connecting (connectionStatus s) then (Returned false, s)
      else if isConnected s then (Returned true, s)
      else
        let s1 := cancelReconnectTimer s in
        let st := {| connected := false; connecting := true; error := None;
                     lastConnected := None; statusHost := None |} in
        let s2 := report (UpdateConnectionStatus st) (set_connectionStatus st s1) in
        (Suspended, set_client (Some newClient) s2)
  end.

(** [connect()] from the moment [access] settles up to
    [await this.client.list(...)]. *)
Definition connectAccessSettled (o : Outcome) (s : FTPManager) : Started bool * FTPManager :=
  match o with
  | Rejected e => let '(b, s1) := connectFailed e s in (Returned b, s1)
  | Resolved =>
      match client s with
      | None => let '(b, s1) := connectFailed (nullProperty "closed") s in (Returned b, s1)
      | Some c =>
          if closed c then
            let '(b, s1) := connectFailed (OtherError "Connection closed immediately after access.") s in
            (Returned b, s1)
          else
            match config s with
            | None => let '(b, s1) := connectFailed (nullProperty "remotePath") s in (Returned b, s1)
            | Some _ => (Suspended, s)
            end
      end
  end.

(** *** The upload queue *)

(** The end of [processUploadQueue], after the loop. *)
Definition drainFinish (overallSuccess : bool) (s : FTPManager) : Started bool * FTPManager :=
  let s1 := set_drain DrainIdle (set_isProcessingQueue false s) in
  (Returned overallSuccess,
   match uploadQueue s1 with
   | [] => report UpdateStatusBar s1
   | _ => s1
   end).

(** [ensureRemoteDirectory] returns without calling the transport. *)
Definition skipsEnsureDir (remoteDir : string) (s : FTPManager) : bool :=
  bool_decide (client s = None) || (remoteDir =? "")%string ||
  (remoteDir =? "/")%string || (remoteDir =? ".")%string.

(** The loop test and the start of one iteration, up to the first [await]
    on the transport: [ensureDir], or [uploadFrom] when the directory
    needs no creation. *)
Definition drainLoop (overallSuccess : bool) (s : FTPManager) : Started bool * FTPManager :=
  match uploadQueue s with
  | [] => drainFinish overallSuccess s
  | task :: rest =>
      if negb (isConnected s) then
        let s1 := set_drain DrainIdle (set_isProcessingQueue false s) in
        (Returned false, snd (connectStart s1))
      else
        let s1 := set_uploadQueue rest s in
        let s2 := report (ShowUploadProgress (Path.basename (localPath task))) s1 in
        let remoteDir := PathUtils.getDirectoryPath (taskRemotePath task) in
        if skipsEnsureDir remoteDir s2
        then (Suspended, set_drain (DrainUpload task overallSuccess) s2)
        else (Suspended, set_drain (DrainEnsureDir task overallSuccess) s2)
  end.

(** [processUploadQueue()] as its callers start it. *)
Definition processUploadQueue (s : FTPManager) : Started bool * FTPManager :=
  if isProcessingQueue s || bool_decide (uploadQueue s = []) then (Returned true, s)
  else if negb (isConnected s) then (Returned false, snd (connectStart s))
  else drainLoop true (set_isProcessingQueue true s).

(** [task.retries++] *)
Definition bumpRetries (task : UploadTask) : UploadTask :=
  {| localPath := localPath task; taskRemotePath := taskRemotePath task;
     retries := retries task + 1; timestamp := timestamp task |}.

(** The [catch] block of the loop body, and what follows it up to the
    next [await]. *)
Definition uploadFailed (task : UploadTask) (overallSuccess : bool) (e : JsError)
    (s : FTPManager) : Started bool * FTPManager :=
  let task' := bumpRetries task in
  let fileName := Path.basename (localPath task') in
  let s1 := handleFTPError e ("Upload attempt " ++ pretty (retries task') ++
                              " for " ++ fileName) s in
  if (retries task' <? maxRetries) && negb (clientClosed s1) then
    let s2 := set_uploadQueue (task' :: uploadQueue s1) s1 in
    (Suspended, set_drain (DrainDelay overallSuccess) s2)
  else
    let s2 := report (ShowUploadError fileName (message e)) s1 in
    if clientClosed s2 then drainFinish false s2 else drainLoop false s2.

(** The retry delay has elapsed. *)
Definition retryDelayElapsed (overallSuccess : bool) (s : FTPManager) : Started bool * FTPManager :=
  if clientClosed s then drainFinish overallSuccess s else drainLoop overallSuccess s.

(** [ensureDir] has settled. *)
Definition ensureDirSettled (task : UploadTask) (overallSuccess : bool) (o : Outcome)
    (s : FTPManager) : Started bool * FTPManager :=
  match o with
  | Rejected e =>
      let remoteDir := PathUtils.getDirectoryPath (taskRemotePath task) in
      let s1 := handleFTPError e ("ensure remote directory " ++ remoteDir) s in
      uploadFailed task overallSuccess e s1
  | Resolved =>
      if negb (isConnected s)
      then uploadFailed task overallSuccess (OtherError "Connection lost before upload") s
      else (Suspended, set_drain (DrainUpload task overallSuccess) s)
  end.

(** What [client.uploadFrom(localPath, remotePath)] does with a local path:
    it opens the file first, and only then talks to the server. *)
Definition uploadFrom (fs : LocalFs) (task : UploadTask) (server : Outcome) : Outcome :=
  if fs (localPath task) then server else Rejected (enoent (localPath task)).

(** [uploadFrom] has settled. *)
Definition uploadSettled (task : UploadTask) (overallSuccess : bool) (o : Outcome)
    (s : FTPManager) : Started bool * FTPManager :=
  match o with
  | Resolved =>
      drainLoop overallSuccess (report (ShowUploadSuccess (Path.basename (localPath task))) s)
  | Rejected e => uploadFailed task overallSuccess e s
  end.

(** [connect()] from the moment the test listing settles. *)
Definition connectListSettled (o : Outcome) (now : Z) (s : FTPManager) : bool * FTPManager :=
  match o with
  | Rejected e => connectFailed e s
  | Resolved =>
      match config s with
      | None => connectFailed (nullProperty "host") s
      | Some cfg =>
          let st := {| connected := true; connecting := false; error := None;
                       lastConnected := Some now; statusHost := Some (host cfg) |} in
          let s1 := report (UpdateConnectionStatus st) (set_connectionStatus st s) in
          (true, snd (processUploadQueue s1))
      end
  end.

Definition disconnect (s : FTPManager) : FTPManager :=
  let s1 := cancelReconnectTimer s in
  let s2 := set_client None s1 in
  let st := connectionStatus s2 in
  if connected st || connecting st then
    let st' := {| connected := false; connecting := false; error := None;
                  lastConnected := None; statusHost := None |} in
    report (UpdateConnectionStatus st') (set_connectionStatus st' s2)
  else s2.

Definition setConfig (c : option FTPConfig) (s : FTPManager) : FTPManager :=
  let s1 := set_config c s in
  match c with
  | None => disconnect s1
  | Some _ => s1
  end.

Definition uploadFile (fs : LocalFs) (now : Z) (localPath_ : string)
    (remotePath_ : option string) (s : FTPManager) : bool * FTPManager :=
  if isSyncingOrDownloading s then (true, s)
  else
    match config s with
    | None => (false, s)
    | Some cfg =>
        if negb (fs localPath_) then (false, s)
        else
          let resolved :=
            if Js.truthy remotePath_ then remotePath_
            else if Js.truthy getWorkspaceRoot
                 then Some (PathUtils.toRemotePath localPath_ (default "" getWorkspaceRoot)
                                                   (remotePath cfg))
                 else None in
          match resolved with
          | None => (false, s)
          | Some remote =>
              if ignoredOnUpload cfg localPath_ then (true, s)
              else
                let uploadTask := {| localPath := localPath_; taskRemotePath := remote;
                                     retries := 0; timestamp := now |} in
                let s1 := set_uploadQueue (uploadQueue s ++ [uploadTask]) s in
                if negb (isConnected s1) then (true, snd (connectStart s1))
                else (true, snd (processUploadQueue s1))
          end
    end.

(** *** Operations that await a connection

    These run to completion: the transport's answers are arguments. *)

(** What the server answers during one run of [connect]. *)
Record Handshake := {
  accessOutcome : Outcome;
  (** is the socket still open when [access] has resolved? *)
  socketOpen : bool;
  listOutcome : Outcome;
  listedAt : Z;
}.

(** The transport opens or loses the socket of the current client. *)
Definition socketChanged (isClosed : bool) (s : FTPManager) : FTPManager :=
  match client s with
  | Some _ => set_client (Some {| closed := isClosed |}) s
  | None => s
  end.

Definition connect (h : Handshake) (s : FTPManager) : bool * FTPManager :=
  match connectStart s with
  | (Returned b, s1) => (b, s1)
  | (Suspended, s1) =>
      let s2 := match accessOutcome h with
                | Resolved => socketChanged (negb (socketOpen h)) s1
                | Rejected _ => s1
                end in
      match connectAccessSettled (accessOutcome h) s2 with
      | (Returned b, s3) => (b, s3)
      | (Suspended, s3) => connectListSettled (listOutcome h) (listedAt h) s3
      end
  end.

(** The first statements of [checkConnection] when the connection is not
    live. *)
Definition connectionLost (operationName : string) (s : FTPManager) : FTPManager :=
  let s1 := markDisconnected s in
  report (UpdateConnectionStatus
            (withError ("Connection lost before " ++ operationName) (connectionStatus s1))) s1.

Definition checkConnection (operationName : string) (h : Handshake) (s : FTPManager)
    : bool * FTPManager :=
  if isConnected s then (true, s)
  else connect h (connectionLost operationName s).

(** [error instanceof FTPError && error.code === 550] *)
Definition isNotFound (e : JsError) : bool :=
  match e with
  | FTPError code _ => code =? 550
  | OtherError _ => false
  end.

Definition deleteFile (remotePath_ : string) (h : Handshake) (removed : Outcome)
    (s : FTPManager) : bool * FTPManager :=
  let '(live, s1) := checkConnection "deleteFile" h s in
  if negb live then (false, s1)
  else
    match config s1 with
    | None => (false, s1)
    | Some _ =>
        match removed with
        | Resolved => (true, s1)
        | Rejected e =>
            if isNotFound e then (true, s1)
            else (false, handleFTPError e ("delete remote file " ++ Path.basename remotePath_) s1)
        end
    end.

Definition deleteDirectory (remotePath_ : string) (h : Handshake) (removed : Outcome)
    (s : FTPManager) : bool * FTPManager :=
  let '(live, s1) := checkConnection "deleteDirectory" h s in
  if negb live then (false, s1)
  else
    match config s1 with
    | None => (false, s1)
    | Some _ =>
        match removed with
        | Resolved => (true, s1)
        | Rejected e =>
            if isNotFound e then (true, s1)
            else (false, handleFTPError e ("delete remote directory " ++ Path.basename remotePath_) s1)
        end
    end.

(** *** Sync and download: the exclusivity flag *)

Inductive Exclusive := SyncServerToLocal | DownloadRemotePath.

Definition showExclusiveError (op : Exclusive) (localFolderPath error_ : string) : Report :=
  match op with
  | SyncServerToLocal => ShowSyncError ("Sync failed: " ++ Path.basename localFolderPath) error_
  | DownloadRemotePath => ShowDownloadError ("Download failed: " ++ Path.basename localFolderPath) error_
  end.

(** From the answer of [checkConnection] to the start of the [try]. *)
Definition exclusiveEnter (op : Exclusive) (localFolderPath : string) (live : bool)
    (s : FTPManager) : FTPManager :=
  if negb live then report (showExclusiveError op localFolderPath "Connection failed") s
  else
    match config s with
    | None => report (showExclusiveError op localFolderPath "No configuration") s
    | Some _ =>
        report (match op with
                | SyncServerToLocal =>
                    ShowSyncProgress ("Syncing " ++ Path.basename localFolderPath ++ "...")
                | DownloadRemotePath =>
                    ShowDownloadProgress ("Downloading " ++ Path.basename localFolderPath ++ "...")
                end)
               (set_isSyncingOrDownloading true s)
    end.

(** The end of the [try], its [catch] and its [finally]. *)
Definition exclusiveLeave (op : Exclusive) (localFolderPath remoteFolderPath : string)
    (result : Outcome) (s : FTPManager) : FTPManager :=
  let s1 :=
    match result, op with
    | Resolved, SyncServerToLocal =>
        report (ShowSyncSuccess ("Synced " ++ Path.basename localFolderPath)) s
    | Resolved, DownloadRemotePath =>
        report (ShowDownloadSuccess ("Downloaded " ++ Path.basename localFolderPath)) s
    | Rejected e, SyncServerToLocal =>
        report (showExclusiveError op localFolderPath (message e)) s
    | Rejected e, DownloadRemotePath =>
        report (showExclusiveError op localFolderPath (message e))
               (handleFTPError e ("download remote path " ++ remoteFolderPath) s)
    end in
  report UpdateStatusBar (set_isSyncingOrDownloading false s1).

(** *** The reconnect timer fires *)

Definition reconnectTimerFired (handle : nat) (s : FTPManager) : option FTPManager :=
  if bool_decide (handle ∈ timeouts s) then
    let s1 := set_reconnectTimer None (clearTimeout handle s) in
    Some (if negb (isConnected s1) && negb (connecting (connectionStatus s1))
          then snd (connectStart s1)
          else s1)
  else None.

(** ** The manager in the event loop

    Every block above is one event.  A settled [access], [list] or a
    handled error is accepted in any state (this allows more schedules than
    the event loop produces); the blocks of the queue processor are
    accepted where it is suspended. *)

Inductive Event :=
| EvSetConfig (c : option FTPConfig)
| EvConnect
| EvAccessSettled (o : Outcome)
| EvListSettled (o : Outcome) (now : Z)
| EvDisconnect
| EvSocket (isClosed : bool)
| EvUploadFile (fs : LocalFs) (now : Z) (localPath_ : string) (remotePath_ : option string)
| EvEnsureDirSettled (o : Outcome)
| EvUploadSettled (fs : LocalFs) (server : Outcome)
| EvRetryDelayElapsed
| EvReconnectTimer (handle : nat)
| EvCheckConnection (operationName : string)
| EvHandleError (e : JsError) (operationContext : string)
| EvExclusiveEnter (op : Exclusive) (localFolderPath : string) (live : bool)
| EvExclusiveLeave (op : Exclusive) (localFolderPath remoteFolderPath : string) (result : Outcome).

Definition step (ev : Event) (s : FTPManager) : option FTPManager :=
  match ev with
  | EvSetConfig c => Some (setConfig c s)
  | EvConnect => Some (snd (connectStart s))
  | EvAccessSettled o => Some (snd (connectAccessSettled o s))
  | EvListSettled o now => Some (snd (connectListSettled o now s))
  | EvDisconnect => Some (disconnect s)
  | EvSocket isClosed => Some (socketChanged isClosed s)
  | EvUploadFile fs now localPath_ remotePath_ =>
      Some (snd (uploadFile fs now localPath_ remotePath_ s))
  | EvEnsureDirSettled o =>
      match drain s with
      | DrainEnsureDir task ok => Some (snd (ensureDirSettled task ok o s))
      | _ => None
      end
  | EvUploadSettled fs server =>
      match drain s with
      | DrainUpload task ok => Some (snd (uploadSettled task ok (uploadFrom fs task server) s))
      | _ => None
      end
  | EvRetryDelayElapsed =>
      match drain s with
      | DrainDelay ok => Some (snd (retryDelayElapsed ok s))
      | _ => None
      end
  | EvReconnectTimer handle => reconnectTimerFired handle s
  | EvCheckConnection operationName =>
      Some (if isConnected s then s else snd (connectStart (connectionLost operationName s)))
  | EvHandleError e operationContext => Some (handleFTPError e operationContext s)
  | EvExclusiveEnter op localFolderPath live => Some (exclusiveEnter op localFolderPath live s)
  | EvExclusiveLeave op localFolderPath remoteFolderPath result =>
      Some (exclusiveLeave op localFolderPath remoteFolderPath result s)
  end.

Fixpoint run (evs : list Event) (s : FTPManager) : option FTPManager :=
  match evs with
  | [] => Some s
  | ev :: evs' =>
      match step ev s with
      | Some s' => run evs' s'
      | None => None
      end
  end.

End Manager.

(** ** The tree-sync comparison ([_recursiveSync]) *)

(** [FileInfo] of [basic-ftp]. *)
Inductive FileType := Unknown | File | Directory | SymbolicLink.

Record FileInfo := {
  itemName : string;
  type : FileType;
  (** [undefined] is [None] *)
  size : option Z;
  (** [modifiedAt]: the time value of the [Date], in milliseconds since the
      epoch; [undefined] is [None], and a value outside the range of [Date]
      stands for the invalid date *)
  modifiedAt : option Z;
}.

(** One stats object that the loop stores in [localItemStats]. *)
Record LocalStats := {
  statPath : string;
  isDirectory : bool;
  mtimeMs : Z;
  localSize : Z;
}.

(** One [Dirent] of the local listing and what [fs.promises.stat] says of
    it: modification time and size, or [None] when [stat] throws. *)
Record Dirent := {
  direntName : string;
  direntIsDirectory : bool;
  direntStat : option (Z * Z);
}.

(** [localItemStats] is a plain object: beside its own properties it has
    those of its prototype.  The prototype is [Object.prototype] until the
    loop assigns an entry named [__proto__], which makes the assigned stats
    object the prototype, in front of [Object.prototype]. *)
Record LocalItemStats := {
  ownStats : gmap string LocalStats;
  protoStats : option LocalStats;
}.

(** What [localItemStats[name]] can evaluate to. *)
Inductive JsValue :=
| VUndefined
| VStats (l : LocalStats)
(** a method of [Object.prototype] *)
| VFunction
(** [Object.prototype] itself *)
| VObjectPrototype
| VString (s : string)
| VBoolean (b : bool)
| VNumber (z : Z).

(** What the loop body does with one remote item; [Abort] is a
    [RangeError] that leaves [_recursiveSync]. *)
Inductive SyncDecision :=
| Skip
| EnterDirectory (createLocalDir : bool)
| DownloadFile (reason : string)
| Abort.

Definition timeTolerance : Z := 2000.

(** The time values of the valid dates: [toISOString] throws a
    [RangeError] for any other. *)
Definition validTime (t : Z) : bool :=
  (-8640000000000000 <=? t) && (t <=? 8640000000000000).

Definition emptyStats : LocalItemStats := {| ownStats := ∅; protoStats := None |}.

(** [localItemStats[name] = stats] *)
Definition assignStats (name : string) (l : LocalStats) (o : LocalItemStats) : LocalItemStats :=
  if (name =? "__proto__")%string
  then {| ownStats := ownStats o; protoStats := Some l |}
  else {| ownStats := <[name := l]> (ownStats o); protoStats := protoStats o |}.

(** [Object.prototype[name]], for a name other than [__proto__] *)
Definition objectPrototypeMember (name : string) : JsValue :=
  if bool_decide (name ∈ Js.objectPrototypeMethods) then VFunction else VUndefined.

(** [localItemStats[name]] *)
Definition lookupStats (name : string) (o : LocalItemStats) : JsValue :=
  if (name =? "__proto__")%string then
    match protoStats o with
    | Some l => VStats l
    | None => VObjectPrototype
    end
  else
    match ownStats o !! name with
    | Some l => VStats l
    | None =>
        match protoStats o with
        | Some l =>
            if (name =? "path")%string then VString (statPath l)
            else if (name =? "isDirectory")%string then VBoolean (isDirectory l)
            else if (name =? "mtimeMs")%string then VNumber (mtimeMs l)
            else if (name =? "size")%string then VNumber (localSize l)
            else objectPrototypeMember name
        | None => objectPrototypeMember name
        end
    end.

(** [!!value] *)
Definition truthyValue (v : JsValue) : bool :=
  match v with
  | VUndefined => false
  | VStats _ | VFunction | VObjectPrototype => true
  | VString s => negb (s =? "")%string
  | VBoolean b => b
  | VNumber z => negb (z =? 0)
  end.

(** The stats that the loop reads off a value: [isDirectory], [mtimeMs]
    and [size] are [undefined] on every value that is no stats object. *)
Definition statsFields (v : JsValue) : option LocalStats :=
  match v with
  | VStats l => Some l
  | _ => None
  end.

(** Truthiness of [localStats.isDirectory] *)
Definition isLocalDirectory (v : JsValue) : bool :=
  match statsFields v with
  | Some l => isDirectory l
  | None => false
  end.

Section Sync.
Context `{Host}.

(** The loop that fills [localItemStats]. *)
Definition readLocalItems (config_ : option FTPConfig) (localFolderPath : string)
    (files : list Dirent) : LocalItemStats :=
  fold_left
    (fun stats file =>
       let fullPath := Path.join localFolderPath (direntName file) in
       if ignoredOnSync config_ fullPath then stats
       else match direntStat file with
            | Some (mtime, sz) =>
                assignStats (direntName file)
                  {| statPath := fullPath; isDirectory := direntIsDirectory file;
                     mtimeMs := mtime; localSize := sz |} stats
            | None => stats
            end)
    files emptyStats.

(** The branch for a remote file: the decision on [shouldDownload].  The
    log line [Sync Compare] formats both times with [toISOString]. *)
Definition compareFile (localStats : JsValue) (remoteItem : FileInfo) : SyncDecision :=
  if negb (truthyValue localStats) then DownloadFile "Local file missing"
  else if isLocalDirectory localStats then Skip
  else
    match modifiedAt remoteItem with
    | None => DownloadFile "Remote mtime missing"
    | Some remoteMtimeMs =>
        if negb (validTime remoteMtimeMs) then Abort
        else
          match statsFields localStats with
          | None => Abort
          | Some l =>
              let localMtimeMs := mtimeMs l in
              if negb (validTime localMtimeMs) then Abort
              else if remoteMtimeMs >? localMtimeMs + timeTolerance then
                DownloadFile ("Remote file newer (mtime: " ++ pretty remoteMtimeMs ++ " > " ++
                              pretty (localMtimeMs + timeTolerance) ++ ")")
              else
                match size remoteItem with
                | Some remoteSize =>
                    if negb (remoteSize =? localSize l) then
                      DownloadFile ("File sizes differ (remote: " ++ pretty remoteSize ++
                                    ", local: " ++ pretty (localSize l) ++ ")")
                    else Skip
                | None => Skip
                end
          end
    end.

(** One iteration of the loop over the remote items, for a manager that is
    connected.  [mkdir] tells whether
    [fs.promises.mkdir(path, { recursive: true })] resolves; when it
    rejects the loop continues with the next item. *)
Definition syncDecision (config_ : option FTPConfig) (localFolderPath : string)
    (localItemStats : LocalItemStats) (mkdir : string -> bool)
    (remoteItem : FileInfo) : SyncDecision :=
  if (itemName remoteItem =? ".")%string || (itemName remoteItem =? "..")%string then Skip
  else
    let currentLocalPath := Path.join localFolderPath (itemName remoteItem) in
    if ignoredOnSync config_ currentLocalPath then Skip
    else
      let localStats := lookupStats (itemName remoteItem) localItemStats in
      match type remoteItem with
      | Directory =>
          if negb (truthyValue localStats) || negb (isLocalDirectory localStats) then
            if mkdir currentLocalPath then EnterDirectory true else Skip
          else EnterDirectory false
      | File => compareFile localStats remoteItem
      | _ => Skip
      end.

End Sync.

(** ** FileWatcher: the change coalescer *)

Module FileWatcher.

(** Which listeners [startFileSystemWatcher] has registered. *)
Record Listeners := {
  onAdd : bool;
  onChange : bool;
  onUnlink : bool;
  onUnlinkDir : bool;
}.

(** A call made on the FTP manager. *)
Inductive ManagerCall :=
| UploadFile (filePath : string)
| DeleteFile (remotePath_ : string)
| DeleteDirectory (remotePath_ : string).

Record State := {
  config : option FTPConfig;
  (** the [chokidar] watcher and the listeners registered on it *)
  fileWatcher : option Listeners;
  (** is the [onDidSaveTextDocument] listener registered? *)
  saveWatcher : bool;
  isWatching : bool;
  (** path to the handle of its debounce timeout *)
  uploadDebounce : gmap string nat;
  (** debounce timeouts armed in the event loop, with the path each
    callback has captured *)
  timeouts : list (nat * string);
  (** the handle that the next [setTimeout] returns *)
  nextTimeout : nat;
  (** calls made on the FTP manager, oldest first *)
  calls : list ManagerCall;
}.

Definition set_config (v : option FTPConfig) (s : State) : State :=
  {| config := v; fileWatcher := fileWatcher s; saveWatcher := saveWatcher s;
     isWatching := isWatching s; uploadDebounce := uploadDebounce s; timeouts := timeouts s;
     nextTimeout := nextTimeout s; calls := calls s |}.
Definition set_fileWatcher (v : option Listeners) (s : State) : State :=
  {| config := config s; fileWatcher := v; saveWatcher := saveWatcher s;
     isWatching := isWatching s; uploadDebounce := uploadDebounce s; timeouts := timeouts s;
     nextTimeout := nextTimeout s; calls := calls s |}.
Definition set_saveWatcher (v : bool) (s : State) : State :=
  {| config := config s; fileWatcher := fileWatcher s; saveWatcher := v;
     isWatching := isWatching s; uploadDebounce := uploadDebounce s; timeouts := timeouts s;
     nextTimeout := nextTimeout s; calls := calls s |}.
Definition set_isWatching (v : bool) (s : State) : State :=
  {| config := config s; fileWatcher := fileWatcher s; saveWatcher := saveWatcher s;
     isWatching := v; uploadDebounce := uploadDebounce s; timeouts := timeouts s;
     nextTimeout := nextTimeout s; calls := calls s |}.
Definition set_uploadDebounce (v : gmap string nat) (s : State) : State :=
  {| config := config s; fileWatcher := fileWatcher s; saveWatcher := saveWatcher s;
     isWatching := isWatching s; uploadDebounce := v; timeouts := timeouts s;
     nextTimeout := nextTimeout s; calls := calls s |}.
Definition set_timeouts (v : list (nat * string)) (s : State) : State :=
  {| config := config s; fileWatcher := fileWatcher s; saveWatcher := saveWatcher s;
     isWatching := isWatching s; uploadDebounce := uploadDebounce s; timeouts := v;
     nextTimeout := nextTimeout s; calls := calls s |}.
Definition set_nextTimeout (v : nat) (s : State) : State :=
  {| config := config s; fileWatcher := fileWatcher s; saveWatcher := saveWatcher s;
     isWatching := isWatching s; uploadDebounce := uploadDebounce s; timeouts := timeouts s;
     nextTimeout := v; calls := calls s |}.
Definition set_calls (v : list ManagerCall) (s : State) : State :=
  {| config := config s; fileWatcher := fileWatcher s; saveWatcher := saveWatcher s;
     isWatching := isWatching s; uploadDebounce := uploadDebounce s; timeouts := timeouts s;
     nextTimeout := nextTimeout s; calls := v |}.

Definition initial : State :=
  {| config := None; fileWatcher := None; saveWatcher := false; isWatching := false;
     uploadDebounce := ∅; timeouts := []; nextTimeout := O; calls := [] |}.

Section WithHost.
Context `{Host}.

Definition clearTimeout (handle : nat) (s : State) : State :=
  set_timeouts (filter (fun entry => entry.1 ≠ handle) (timeouts s)) s.

Definition call (c : ManagerCall) (s : State) : State :=
  set_calls (calls s ++ [c]) s.

Definition stop (s : State) : State :=
  let s1 := set_saveWatcher false (set_fileWatcher None s) in
  let handles := (map_to_list (uploadDebounce s1)).*2 in
  let s2 := set_timeouts (filter (fun entry => entry.1 ∉ handles) (timeouts s1)) s1 in
  set_isWatching false (set_uploadDebounce ∅ s2).

Definition startFileSystemWatcher (cfg : FTPConfig) (s : State) : State :=
  if negb (autoUpload (watcher cfg)) && negb (uploadOnSave cfg) then s
  else
    set_fileWatcher
      (Some {| onAdd := negb (ignoreCreate (watcher cfg)) && autoUpload (watcher cfg);
               onChange := negb (ignoreUpdate (watcher cfg)) && autoUpload (watcher cfg);
               onUnlink := negb (ignoreDelete (watcher cfg)) && autoDelete (watcher cfg);
               onUnlinkDir := negb (ignoreDelete (watcher cfg)) && autoDelete (watcher cfg) |})
      s.

Definition startSaveWatcher (cfg : FTPConfig) (s : State) : State :=
  if negb (uploadOnSave cfg) then s else set_saveWatcher true s.

Definition start (s : State) : State :=
  match config s with
  | None => s
  | Some cfg =>
      if isWatching s then s
      else if negb (Js.truthy getWorkspaceRoot) then s
      else set_isWatching true (startSaveWatcher cfg (startFileSystemWatcher cfg s))
  end.

Definition restart (s : State) : State :=
  let s1 := stop s in
  match config s1 with
  | Some _ => start s1
  | None => s1
  end.

Definition setConfig (c : option FTPConfig) (s : State) : State :=
  restart (set_config c s).

(** [debounceUpload(filePath, event)]: the event kind only reaches the
    log. *)
Definition debounceUpload (filePath : string) (s : State) : State :=
  if negb (PathUtils.isInWorkspace filePath) then s
  else if ignoredOnDebounce filePath then s
  else
    let s1 := match uploadDebounce s !! filePath with
              | Some existingTimeout => clearTimeout existingTimeout s
              | None => s
              end in
    let timeout := nextTimeout s1 in
    set_uploadDebounce (<[filePath := timeout]> (uploadDebounce s1))
      (set_nextTimeout (S timeout)
         (set_timeouts (timeouts s1 ++ [(timeout, filePath)]) s1)).

(** The callback of a debounce timeout. *)
Definition debounceElapsed (filePath : string) (s : State) : State :=
  call (UploadFile filePath)
       (set_uploadDebounce (delete filePath (uploadDebounce s)) s).

(** The listener of [onDidSaveTextDocument]. *)
Definition documentSaved (filePath : string) (s : State) : State :=
  if negb (PathUtils.isInWorkspace filePath) then s
  else if ignoredOnSave filePath then s
  else
    let s1 := match uploadDebounce s !! filePath with
              | Some timeout =>
                  set_uploadDebounce (delete filePath (uploadDebounce s))
                                     (clearTimeout timeout s)
              | None => s
              end in
    call (UploadFile filePath) s1.

Definition handleFileDelete (filePath : string) (s : State) : State :=
  match config s with
  | None => s
  | Some cfg =>
      if negb (autoDelete (watcher cfg)) then s
      else if negb (Js.truthy getWorkspaceRoot) then s
      else call (DeleteFile (PathUtils.toRemotePath filePath (default "" getWorkspaceRoot)
                                                    (remotePath cfg))) s
  end.

Definition handleDirectoryDelete (dirPath : string) (s : State) : State :=
  match config s with
  | None => s
  | Some cfg =>
      if negb (autoDelete (watcher cfg)) then s
      else if negb (Js.truthy getWorkspaceRoot) then s
      else call (DeleteDirectory (PathUtils.toRemotePath dirPath (default "" getWorkspaceRoot)
                                                         (remotePath cfg))) s
  end.

(** What reaches the watcher.  A file-system or save notification is an
    event only while its listener is registered, a timeout only while it
    is armed. *)
Inductive Event :=
| SetConfig (c : option FTPConfig)
| Start
| Stop
| Added (filePath : string)
| Changed (filePath : string)
| Unlinked (filePath : string)
| UnlinkedDir (dirPath : string)
| Saved (filePath : string)
| TimeoutFired (handle : nat).

Definition listens (f : Listeners -> bool) (s : State) : bool :=
  match fileWatcher s with
  | Some l => f l
  | None => false
  end.

Definition step (ev : Event) (s : State) : option State :=
  match ev with
  | SetConfig c => Some (setConfig c s)
  | Start => Some (start s)
  | Stop => Some (stop s)
  | Added filePath => if listens onAdd s then Some (debounceUpload filePath s) else None
  | Changed filePath => if listens onChange s then Some (debounceUpload filePath s) else None
  | Unlinked filePath => if listens onUnlink s then Some (handleFileDelete filePath s) else None
  | UnlinkedDir dirPath =>
      if listens onUnlinkDir s then Some (handleDirectoryDelete dirPath s) else None
  | Saved filePath => if saveWatcher s then Some (documentSaved filePath s) else None
  | TimeoutFired handle =>
      match list_find (fun entry => entry.1 = handle) (timeouts s) with
      | Some (_, (_, filePath)) => Some (debounceElapsed filePath (clearTimeout handle s))
      | None => None
      end
  end.

Fixpoint run (evs : list Event) (s : State) : option State :=
  match evs with
  | [] => Some s
  | ev :: evs' =>
      match step ev s with
      | Some s' => run evs' s'
      | None => None
      end
  end.

End WithHost.
End FileWatcher.

(** ** StatusManager: the status bar *)

Module StatusManager.

Inductive Operation := Upload | Sync | Download | NoOperation.

(** The properties of the status bar item that the manager assigns;
    [undefined] is [None], a [ThemeColor] is its identifier. *)
Record StatusBarItem := {
  text : string;
  color : option string;
  backgroundColor : option string;
  tooltip : string;
  command : option string;
}.

Record State := {
  statusBarItem : StatusBarItem;
  status : ConnectionStatus;
  currentOperation : Operation;
  operationText : string;
}.

Definition set_statusBarItem (v : StatusBarItem) (s : State) : State :=
  {| statusBarItem := v; status := status s; currentOperation := currentOperation s;
     operationText := operationText s |}.
Definition set_status (v : ConnectionStatus) (s : State) : State :=
  {| statusBarItem := statusBarItem s; status := v; currentOperation := currentOperation s;
     operationText := operationText s |}.
Definition set_operation (op : Operation) (v : string) (s : State) : State :=
  {| statusBarItem := statusBarItem s; status := status s; currentOperation := op;
     operationText := v |}.

Definition newline : string := String "010" "".

Section WithLocale.
(** [Date.prototype.toLocaleString], which depends on the locale of the
    editor. *)
Variable toLocaleString : Z -> string.

Definition isNoOperation (op : Operation) : bool :=
  match op with
  | NoOperation => true
  | _ => false
  end.

Definition updateStatusBar (s : State) : State :=
  if negb (isNoOperation (currentOperation s)) then
    set_statusBarItem
      {| text := operationText s; color := None; backgroundColor := None;
         tooltip := operationText s; command := None |} s
  else if connected (status s) then
    set_statusBarItem
      {| text := "$(check) Smart FTP: Connected"; color := Some "#90EE90";
         backgroundColor := None;
         tooltip := "Smart FTP: Connected to " ++
                    (if Js.truthy (statusHost (status s))
                     then default "" (statusHost (status s)) else "server") ++
                    newline ++ "Last connected: " ++
                    match lastConnected (status s) with
                    | Some date => toLocaleString date
                    | None => "undefined"
                    end ++
                    newline ++ "Click to disconnect";
         command := Some "smartftp.disconnect" |} s
  else if connecting (status s) then
    set_statusBarItem
      {| text := "$(sync~spin) Smart FTP: Connecting..."; color := None;
         backgroundColor := Some "statusBarItem.warningBackground";
         tooltip := "Smart FTP: Connecting to server..."; command := None |} s
  else
    set_statusBarItem
      {| text := "$(x) Smart FTP: Disconnected"; color := None;
         backgroundColor := Some "statusBarItem.errorBackground";
         tooltip := if Js.truthy (error (status s))
                    then "Smart FTP: Connection Error: " ++ default "" (error (status s)) ++
                         newline ++ "Click to connect"
                    else "Smart FTP: Click to connect to server";
         command := Some "smartftp.connect" |} s.

(** The constructor: the item is created with the command
    [smartftp.connect] and rendered once. *)
Definition initial : State :=
  updateStatusBar
    {| statusBarItem := {| text := ""; color := None; backgroundColor := None;
                           tooltip := ""; command := Some "smartftp.connect" |};
       status := {| connected := false; connecting := false; error := None;
                    lastConnected := None; statusHost := None |};
       currentOperation := NoOperation; operationText := "" |}.

Definition updateConnectionStatus (st : ConnectionStatus) (s : State) : State :=
  let s1 := set_status st s in
  if isNoOperation (currentOperation s1) then updateStatusBar s1 else s1.

(** [progress] is a whole percentage. *)
Definition showUploadProgress (fileName : string) (progress : option Z) (s : State) : State :=
  updateStatusBar
    (set_operation Upload
       (match progress with
        | Some percent => "$(cloud-upload) Uploading " ++ fileName ++ " (" ++ pretty percent ++ "%)"
        | None => "$(cloud-upload) Uploading " ++ fileName ++ "..."
        end) s).

(** The end of an operation, reported as success or as error. *)
Definition operationEnded (s : State) : State :=
  updateStatusBar (set_operation NoOperation "" s).

Definition showUploadSuccess (fileName : string) : State -> State := operationEnded.
Definition showUploadError (fileName error_ : string) : State -> State := operationEnded.

Definition showSyncProgress (message_ : string) (s : State) : State :=
  updateStatusBar (set_operation Sync ("$(sync~spin) " ++ message_) s).
Definition showSyncSuccess (message_ : string) : State -> State := operationEnded.
Definition showSyncError (message_ error_ : string) : State -> State := operationEnded.

Definition showDownloadProgress (message_ : string) (s : State) : State :=
  updateStatusBar (set_operation Download ("$(cloud-download) " ++ message_) s).
Definition showDownloadSuccess (message_ : string) : State -> State := operationEnded.
Definition showDownloadError (message_ error_ : string) : State -> State := operationEnded.

(** One call of the FTP manager. *)
Definition receive (s : State) (r : Report) : State :=
  match r with
  | UpdateConnectionStatus st => updateConnectionStatus st s
  | ShowUploadProgress fileName => showUploadProgress fileName None s
  | ShowUploadSuccess fileName => showUploadSuccess fileName s
  | ShowUploadError fileName error_ => showUploadError fileName error_ s
  | ShowSyncProgress message_ => showSyncProgress message_ s
  | ShowSyncSuccess message_ => showSyncSuccess message_ s
  | ShowSyncError message_ error_ => showSyncError message_ error_ s
  | ShowDownloadProgress message_ => showDownloadProgress message_ s
  | ShowDownloadSuccess message_ => showDownloadSuccess message_ s
  | ShowDownloadError message_ error_ => showDownloadError message_ error_ s
  | UpdateStatusBar => updateStatusBar s
  end.

(** The status manager after the calls [rs], oldest first. *)
Definition replay (rs : list Report) : State := fold_left receive rs initial.

End WithLocale.
End StatusManager.

(** ** ConfigManager: [smartftp.json] *)

Module ConfigManager.

#[local] Set Warnings "-register-all".

(** A value that [JSON.parse] returns.  The fields of an object are its own
    properties in their order; a parsed object has no key twice. *)
Inductive Json :=
| JNull
| JBool (b : bool)
| JNumber (q : Q)
| JString (s : string)
| JArray (items : list Json)
| JObject (fields : list (string * Json)).

(** [config[field]]; [None] is [undefined] *)
Fixpoint getField (field : string) (fields : list (string * Json)) : option Json :=
  match fields with
  | [] => None
  | (key, value) :: rest => if (key =? field)%string then Some value else getField field rest
  end.

Definition required : list string :=
  ["host"; "protocol"; "port"; "username"; "password"; "remotePath"].

(** One round of the loop over [required]: is the field accepted? *)
Definition fieldPresent (fields : list (string * Json)) (field : string) : bool :=
  match getField field fields with
  | None => false
  | Some (JString "") => (field =? "password")%string
  | Some _ => true
  end.

Definition protocolOk (fields : list (string * Json)) : bool :=
  match getField "protocol" fields with
  | Some (JString p) => (p =? "ftp")%string || (p =? "sftp")%string
  | _ => false
  end.

(** [Number.isInteger] *)
Definition isInteger (q : Q) : bool := Qeq_bool q (inject_Z (Qfloor q)).

Definition portOk (fields : list (string * Json)) : bool :=
  match getField "port" fields with
  | Some (JNumber q) => isInteger q && negb (Qle_bool q 0) && Qle_bool q 65535
  | _ => false
  end.

(** What a call of [validateConfig] gives: [true], [false], or a
    [TypeError] from the [in] operator on a value that is no object. *)
Inductive Verdict := Accepted | Refused | Throws.

Definition validateConfig (config : Json) : Verdict :=
  match config with
  | JObject fields =>
      if forallb (fieldPresent fields) required && protocolOk fields && portOk fields
      then Accepted else Refused
  | JArray _ => Refused
  | _ => Throws
  end.

(** What [loadConfig] finds at [configPath]. *)
Inductive ConfigFile :=
| Missing
| Unreadable
| Content (parsed : Json).

Record State := {
  config : option Json;
  configPath : option string;
  (** is the file-system watcher of [setupConfigWatcher] registered? *)
  configWatcher : bool;
  configReloadDebounceTimer : option nat;
  (** reload timeouts armed in the event loop *)
  timeouts : list nat;
  nextTimeout : nat;
  (** what [onConfigChanged] has fired, oldest first *)
  fired : list (option Json);
}.

Definition set_config (v : option Json) (s : State) : State :=
  {| config := v; configPath := configPath s; configWatcher := configWatcher s;
     configReloadDebounceTimer := configReloadDebounceTimer s; timeouts := timeouts s;
     nextTimeout := nextTimeout s; fired := fired s |}.
Definition set_configPath (v : option string) (s : State) : State :=
  {| config := config s; configPath := v; configWatcher := configWatcher s;
     configReloadDebounceTimer := configReloadDebounceTimer s; timeouts := timeouts s;
     nextTimeout := nextTimeout s; fired := fired s |}.
Definition set_configWatcher (v : bool) (s : State) : State :=
  {| config := config s; configPath := configPath s; configWatcher := v;
     configReloadDebounceTimer := configReloadDebounceTimer s; timeouts := timeouts s;
     nextTimeout := nextTimeout s; fired := fired s |}.
Definition set_timer (v : option nat) (s : State) : State :=
  {| config := config s; configPath := configPath s; configWatcher := configWatcher s;
     configReloadDebounceTimer := v; timeouts := timeouts s;
     nextTimeout := nextTimeout s; fired := fired s |}.
Definition set_timeouts (v : list nat) (s : State) : State :=
  {| config := config s; configPath := configPath s; configWatcher := configWatcher s;
     configReloadDebounceTimer := configReloadDebounceTimer s; timeouts := v;
     nextTimeout := nextTimeout s; fired := fired s |}.
Definition set_nextTimeout (v : nat) (s : State) : State :=
  {| config := config s; configPath := configPath s; configWatcher := configWatcher s;
     configReloadDebounceTimer := configReloadDebounceTimer s; timeouts := timeouts s;
     nextTimeout := v; fired := fired s |}.
Definition set_fired (v : list (option Json)) (s : State) : State :=
  {| config := config s; configPath := configPath s; configWatcher := configWatcher s;
     configReloadDebounceTimer := configReloadDebounceTimer s; timeouts := timeouts s;
     nextTimeout := nextTimeout s; fired := v |}.

Definition initial : State :=
  {| config := None; configPath := None; configWatcher := false;
     configReloadDebounceTimer := None; timeouts := []; nextTimeout := O; fired := [] |}.

Section WithEngine.
Context `{Host}.
(** [JSON.stringify] *)
Variable stringify : Json -> string.

Definition fire (v : option Json) (s : State) : State :=
  set_fired (fired s ++ [v]) s.

(** [if (this.config !== null) { this.config = null; fire(null) }] *)
Definition dropConfig (s : State) : State :=
  match config s with
  | Some _ => fire None (set_config None s)
  | None => s
  end.

(** [loadConfig()]; the second component is what it returns. *)
Definition loadConfig (file : ConfigFile) (s : State) : option Json * State :=
  if negb (Js.truthy getWorkspaceRoot) then (None, s)
  else
    let s1 := set_configPath (Some (Path.join (default "" getWorkspaceRoot) "smartftp.json")) s in
    match file with
    | Missing => (None, dropConfig s1)
    | Unreadable => (None, dropConfig s1)
    | Content parsed =>
        match validateConfig parsed with
        | Accepted =>
            if negb (stringify (default JNull (config s1)) =? stringify parsed)%string then
              let s2 := fire (Some parsed) (set_config (Some parsed) s1) in
              (config s2, s2)
            else (config s1, s1)
        | _ => (None, dropConfig s1)
        end
    end.

Definition setupConfigWatcher (s : State) : State :=
  if negb (Js.truthy getWorkspaceRoot) then set_configWatcher false s
  else set_configWatcher true s.

Definition initialize (file : ConfigFile) (s : State) : State :=
  setupConfigWatcher (loadConfig file s).2.

Definition clearTimeout (handle : nat) (s : State) : State :=
  set_timeouts (filter (λ h, h ≠ handle) (timeouts s)) s.

(** [if (timer) clearTimeout(timer)]; the field keeps its value. *)
Definition clearReloadTimer (s : State) : State :=
  match configReloadDebounceTimer s with
  | Some handle => clearTimeout handle s
  | None => s
  end.

(** The listener of [onDidChange]. *)
Definition fileChanged (s : State) : State :=
  let s1 := clearReloadTimer s in
  let handle := nextTimeout s1 in
  set_timer (Some handle)
    (set_nextTimeout (S handle) (set_timeouts (timeouts s1 ++ [handle]) s1)).

(** The callback of the reload timeout. *)
Definition reloadElapsed (file : ConfigFile) (s : State) : State :=
  set_timer None (loadConfig file s).2.

(** The listener of [onDidCreate]. *)
Definition fileCreated (file : ConfigFile) (s : State) : State :=
  (loadConfig file (set_timer None (clearReloadTimer s))).2.

(** The listener of [onDidDelete]. *)
Definition fileDeleted (s : State) : State :=
  dropConfig (set_timer None (clearReloadTimer s)).

Definition getConfig (s : State) : option Json := config s.

Definition hasConfig (s : State) : bool := bool_decide (is_Some (config s)).

Inductive Event :=
| Initialize (file : ConfigFile)
| LoadConfig (file : ConfigFile)
| FileChanged
| FileCreated (file : ConfigFile)
| FileDeleted
| ReloadElapsed (handle : nat) (file : ConfigFile).

Definition step (ev : Event) (s : State) : option State :=
  match ev with
  | Initialize file => Some (initialize file s)
  | LoadConfig file => Some (loadConfig file s).2
  | FileChanged => if configWatcher s then Some (fileChanged s) else None
  | FileCreated file => if configWatcher s then Some (fileCreated file s) else None
  | FileDeleted => if configWatcher s then Some (fileDeleted s) else None
  | ReloadElapsed handle file =>
      if bool_decide (handle ∈ timeouts s)
      then Some (reloadElapsed file (clearTimeout handle s)) else None
  end.

Fixpoint run (evs : list Event) (s : State) : option State :=
  match evs with
  | [] => Some s
  | ev :: evs' =>
      match step ev s with
      | Some s' => run evs' s'
      | None => None
      end
  end.

End WithEngine.
End ConfigManager.

(** ** The extension: what joins the managers ([extension.ts]) *)

Module Extension.

Record State := {
  ftpManager : FTPManager;
  fileWatcher : FileWatcher.State;
}.

(** The configuration that [onConfigChanged] fires, as the managers read
    it.  [validateConfig] does not ask for [watcher]: where the parsed
    object has none, or [null] for it, [hasWatcher] is [false] and the
    [watcher] of [settings] stands for no value. *)
Record LoadedConfig := {
  settings : FTPConfig;
  hasWatcher : bool;
}.

Section WithHost.
Context `{Host}.

(** Does [fileWatcher.setConfig(config)] throw?  After [stop], [start]
    returns early without a workspace root; with one,
    [startFileSystemWatcher] reads [this.config?.watcher.autoUpload], a
    [TypeError] when there is no [watcher]. *)
Definition fileWatcherThrows (c : option LoadedConfig) : bool :=
  match c with
  | Some loaded => negb (hasWatcher loaded) && Js.truthy getWorkspaceRoot
  | None => false
  end.

(** The listener of [configManager.onConfigChanged]; [connect] is started
    and not awaited.  A [TypeError] of [fileWatcher.setConfig] ends the
    listener: the manager has its configuration, the watcher is stopped,
    and neither [connect] nor [disconnect] is called. *)
Definition configChanged (c : option LoadedConfig) (x : State) : State :=
  let config_ := settings <$> c in
  let manager := setConfig config_ (ftpManager x) in
  if fileWatcherThrows c then
    {| ftpManager := manager;
       fileWatcher := FileWatcher.stop (FileWatcher.set_config config_ (fileWatcher x)) |}
  else
    let watcher := FileWatcher.setConfig config_ (fileWatcher x) in
    match c with
    | Some _ =>
        {| ftpManager := if negb (isConnected manager) then (connectStart manager).2 else manager;
           fileWatcher := watcher |}
    | None => {| ftpManager := disconnect manager; fileWatcher := watcher |}
    end.

(** The listener of [onDidSaveTextDocument] with the manager behind it:
    [uploadFile(filePath)] is called and not awaited.  [fs] tells which
    local files exist, [now] is the time of the call. *)
Definition documentSaved (fs : LocalFs) (now : Z) (filePath : string) (x : State) : State :=
  if negb (PathUtils.isInWorkspace filePath) then x
  else if ignoredOnSave filePath then x
  else
    {| ftpManager := (uploadFile fs now filePath None (ftpManager x)).2;
       fileWatcher := FileWatcher.documentSaved filePath (fileWatcher x) |}.

End WithHost.
End Extension.

(** ** Predicates of the specification *)

(** [connected] and [connecting] are not both set. *)
Definition statusExclusive (s : FTPManager) : Prop :=
  connected (connectionStatus s) && connecting (connectionStatus s) = false.

(** The timeouts armed in the event loop are exactly the one that
    [reconnectTimer] holds, if any. *)
Definition heldTimeouts (s : FTPManager) : list nat :=
  match reconnectTimer s with
  | Some handle => [handle]
  | None => []
  end.

Definition oneReconnectTimer (s : FTPManager) : Prop :=
  timeouts s = heldTimeouts s.

(** The task that the queue processor has shifted and not yet settled. *)
Definition inFlight (s : FTPManager) : option UploadTask :=
  match drain s with
  | DrainEnsureDir task _ => Some task
  | DrainUpload task _ => Some task
  | DrainIdle | DrainDelay _ => None
  end.

(** Every task of the manager, queued or in flight, may still be retried. *)
Definition retriesBelowMax (s : FTPManager) : Prop :=
  (∀ task, task ∈ uploadQueue s → retries task < maxRetries) ∧
  (∀ task, inFlight s = Some task → retries task < maxRetries).

(** [isProcessingQueue] is set exactly while the queue processor is
    suspended. *)
Definition drainFlagConsistent (s : FTPManager) : Prop :=
  isProcessingQueue s = match drain s with DrainIdle => false | _ => true end.

Definition invariant (s : FTPManager) : Prop :=
  statusExclusive s ∧ oneReconnectTimer s ∧ retriesBelowMax s ∧ drainFlagConsistent s.

Definition isUploadError (r : Report) : bool :=
  match r with
  | ShowUploadError _ _ => true
  | _ => false
  end.

(** The errors that [handleFTPError] reads as a lost connection; every other
    error is fatal. *)
Definition isTransient (e : JsError) : bool :=
  isConnectionLossCode e || isNetworkLossMessage (message e).

(** The terminal upload failures that the status manager has received. *)
Definition uploadErrors (s : FTPManager) : list Report :=
  List.filter isUploadError (reports s).

(** The part of the invariant that does not mention the queue processor. *)
Definition core (s : FTPManager) : Prop :=
  statusExclusive s ∧ oneReconnectTimer s ∧
  (∀ task, task ∈ uploadQueue s → retries task < maxRetries).

(** The handle of a debounce timeout is armed in the watcher's event loop. *)
Definition armed (handle : nat) (s : FileWatcher.State) : Prop :=
  ∃ filePath, (handle, filePath) ∈ FileWatcher.timeouts s.

(** The watcher's bookkeeping: the armed timeouts are those of the map; each
    was created for a path of the workspace that the watcher does not
    ignore, under a handle below the next one; no handle serves two paths. *)
Definition watcherInvariant `{Host} (s : FileWatcher.State) : Prop :=
  (∀ handle filePath,
     (handle, filePath) ∈ FileWatcher.timeouts s ↔
     FileWatcher.uploadDebounce s !! filePath = Some handle) ∧
  (∀ handle filePath,
     (handle, filePath) ∈ FileWatcher.timeouts s →
     (handle < FileWatcher.nextTimeout s)%nat ∧
     PathUtils.isInWorkspace filePath = true ∧
     ignoredOnDebounce filePath = false) ∧
  (∀ handle p q,
     (handle, p) ∈ FileWatcher.timeouts s → (handle, q) ∈ FileWatcher.timeouts s → p = q).

(** A handle that was issued and is not armed. *)
Definition retired (handle : nat) (s : FileWatcher.State) : Prop :=
  (handle < FileWatcher.nextTimeout s)%nat ∧ ¬ armed handle s.

(** [s'] arms no timeout that [s] did not arm, except under handles that [s]
    had not issued yet. *)
Definition grows (s s' : FileWatcher.State) : Prop :=
  (FileWatcher.nextTimeout s ≤ FileWatcher.nextTimeout s')%nat ∧
  ∀ handle filePath,
    (handle, filePath) ∈ FileWatcher.timeouts s' →
    (handle, filePath) ∈ FileWatcher.timeouts s ∨ handle = FileWatcher.nextTimeout s.

(** Every task that the manager still owes an upload: the one in flight, then the queue. *)
Definition pending (s : FTPManager) : list UploadTask :=
  match inFlight s with
  | Some task => task :: uploadQueue s
  | None => uploadQueue s
  end.

(** The status manager has received [r] between [s] and [s']. *)
Definition reportedBetween (s s' : FTPManager) (r : Report) : Prop :=
  ∃ before later, reports s' = (reports s ++ before ++ r :: later)%list.

(** The end of an upload task as the status manager hears of it. *)
Definition settles (task : UploadTask) (r : Report) : Prop :=
  r = ShowUploadSuccess (Path.basename (localPath task)) ∨
  ∃ msg, r = ShowUploadError (Path.basename (localPath task)) msg.

Inductive QueueChange (s s' : FTPManager) : Prop :=
| QueueKept : pending s' = pending s → QueueChange s s'
| QueueAppended task :
    pending s' = (pending s ++ [task])%list → retries task = 0 → QueueChange s s'
| QueueRetried task rest :
    pending s = task :: rest → pending s' = bumpRetries task :: rest → QueueChange s s'
| QueueSettled task rest r :
    pending s = task :: rest → pending s' = rest →
    settles task r → reportedBetween s s' r → QueueChange s s'.

(** The remote path that [uploadFile] gives the task: its argument, or the
    image of the local path under the workspace root. *)
Definition remoteTarget `{Host} (cfg : FTPConfig) (localPath_ : string)
    (remotePath_ : option string) : option string :=
  if Js.truthy remotePath_ then remotePath_
  else if Js.truthy getWorkspaceRoot
       then Some (PathUtils.toRemotePath localPath_ (default "" getWorkspaceRoot)
                                         (remotePath cfg))
       else None.

Definition grown (s s' : FTPManager) : Prop := reports s `prefix_of` reports s'.

Definition sessionless (s : FTPManager) : Prop :=
  client s = None ∧
  connected (connectionStatus s) = false ∧ connecting (connectionStatus s) = false.

Definition unconfiguredIdle (s : FTPManager) : Prop := config s = None → sessionless s.

(** The listeners that [startFileSystemWatcher] registers under [cfg]. *)
Definition listenersOf (cfg : FTPConfig) : FileWatcher.Listeners :=
  {| FileWatcher.onAdd := negb (ignoreCreate (watcher cfg)) && autoUpload (watcher cfg);
     FileWatcher.onChange := negb (ignoreUpdate (watcher cfg)) && autoUpload (watcher cfg);
     FileWatcher.onUnlink := negb (ignoreDelete (watcher cfg)) && autoDelete (watcher cfg);
     FileWatcher.onUnlinkDir := negb (ignoreDelete (watcher cfg)) && autoDelete (watcher cfg) |}.

(** What is registered was registered under the configuration in force. *)
Definition listenersCurrent (s : FileWatcher.State) : Prop :=
  (∀ l, FileWatcher.fileWatcher s = Some l →
        FileWatcher.isWatching s = true ∧
        ∃ cfg, FileWatcher.config s = Some cfg ∧ l = listenersOf cfg) ∧
  (FileWatcher.saveWatcher s = true →
        FileWatcher.isWatching s = true ∧
        ∃ cfg, FileWatcher.config s = Some cfg ∧ uploadOnSave cfg = true) ∧
  (FileWatcher.timeouts s ≠ [] →
        ∃ cfg, FileWatcher.config s = Some cfg ∧ autoUpload (watcher cfg) = true).

(** Every upload that the watcher has asked for concerns a path of the
    workspace that the built-in patterns do not ignore. *)
Definition uploadsVetted `{Host} (s : FileWatcher.State) : Prop :=
  ∀ filePath, FileWatcher.UploadFile filePath ∈ FileWatcher.calls s →
    PathUtils.isInWorkspace filePath = true ∧ ignoredOnDebounce filePath = false.

(** What entitles the watcher to a call, under the configuration [cfg]. *)
Definition authorised `{Host} (cfg : FTPConfig) (ev : FileWatcher.Event)
    (c : FileWatcher.ManagerCall) : Prop :=
  match ev, c with
  | FileWatcher.TimeoutFired _, FileWatcher.UploadFile _ => autoUpload (watcher cfg) = true
  | FileWatcher.Saved p, FileWatcher.UploadFile q => p = q ∧ uploadOnSave cfg = true
  | FileWatcher.Unlinked p, FileWatcher.DeleteFile r =>
      autoDelete (watcher cfg) = true ∧ ignoreDelete (watcher cfg) = false ∧
      ∃ root, getWorkspaceRoot = Some root ∧
              r = PathUtils.toRemotePath p root (remotePath cfg)
  | FileWatcher.UnlinkedDir p, FileWatcher.DeleteDirectory r =>
      autoDelete (watcher cfg) = true ∧ ignoreDelete (watcher cfg) = false ∧
      ∃ root, getWorkspaceRoot = Some root ∧
              r = PathUtils.toRemotePath p root (remotePath cfg)
  | _, _ => False
  end.

(** A path segment as the file system and the server have them: not empty,
    not [.] or [..], without separator of either kind. *)
Definition isSegmentChar (c : ascii) : bool :=
  negb (Path.isSlash c) && negb (Ascii.eqb c "\").

Definition isSegment (seg : string) : bool :=
  negb (seg =? "")%string && negb (seg =? ".")%string && negb (seg =? "..")%string &&
  forallb isSegmentChar (list_ascii_of_string seg).

(** The absolute path made of the segments. *)
Definition absolute (segs : list string) : string := "/" ++ Path.unsplit segs.

Definition segments (segs : list string) : Prop := Forall (λ seg, isSegment seg = true) segs.

(** The last character of a path that ends with a segment. *)
Definition endsInSegment (s : string) : bool :=
  match rev (list_ascii_of_string s) with
  | c :: _ => isSegmentChar c
  | [] => false
  end.

Definition sparse (segs : list string) : Prop :=
  Forall (λ seg, seg = "" ∨ isSegment seg = true) segs.

(** The names among the built-in patterns: those without a star. *)
Definition builtinNames : list string :=
  List.filter (λ pattern, negb (Js.includes "*" pattern)) PathUtils.defaultIgnores.

(** The stats object that the loop has stored under a name: an own
    property, or for the name [__proto__] the prototype. *)
Definition storedStats (name : string) (o : LocalItemStats) : option LocalStats :=
  if (name =? "__proto__")%string then protoStats o else ownStats o !! name.

(** A name under which the index of a folder without an entry [__proto__]
    answers with what it has stored and nothing else. *)
Definition plainName (name : string) : Prop :=
  name ≠ "__proto__" ∧ name ∉ Js.objectPrototypeMethods.

(** The entry of [localItemStats] that one [Dirent] gives. *)
Definition statsOf (localFolderPath : string) (file : Dirent) (mtime sz : Z) : LocalStats :=
  {| statPath := Path.join localFolderPath (direntName file);
     isDirectory := direntIsDirectory file; mtimeMs := mtime; localSize := sz |}.

(** The status bar shows what the state says. *)
Definition rendered (toLocaleString : Z -> string) (s : StatusManager.State) : Prop :=
  StatusManager.updateStatusBar toLocaleString s = s.

(** Two connection statuses that differ at most in the error text. *)
Definition sameConnection (a b : ConnectionStatus) : Prop :=
  connected a = connected b ∧ connecting a = connecting b ∧
  lastConnected a = lastConnected b ∧ statusHost a = statusHost b.

(** The connection status that the status manager holds after the calls
    [rs]: the one of the last [updateConnectionStatus]. *)
Definition lastReportedStatus (rs : list Report) : ConnectionStatus :=
  fold_left (λ st r, match r with
                     | UpdateConnectionStatus st' => st'
                     | _ => st
                     end)
            rs (connectionStatus initial).

(** The status manager's copy of the connection status agrees with the
    manager's own. *)
Definition statusReported (s : FTPManager) : Prop :=
  sameConnection (lastReportedStatus (reports s)) (connectionStatus s).

(** The reload timeouts armed are exactly the one that the manager holds. *)
Definition oneReloadTimer (s : ConfigManager.State) : Prop :=
  ConfigManager.timeouts s =
    match ConfigManager.configReloadDebounceTimer s with
    | Some handle => [handle]
    | None => []
    end.

(** Listeners are told of every change of the configuration and of nothing
    else: the last notification is the configuration held, and no
    notification repeats the one before it. *)
Fixpoint notificationsDiffer (stringify : ConfigManager.Json -> string)
    (before : option ConfigManager.Json) (fired : list (option ConfigManager.Json)) : Prop :=
  match fired with
  | [] => True
  | v :: rest =>
      match v with
      | Some parsed =>
          stringify (default ConfigManager.JNull before) ≠ stringify parsed
      | None => before ≠ None
      end ∧ notificationsDiffer stringify v rest
  end.

Definition notified (stringify : ConfigManager.Json -> string) (s : ConfigManager.State) : Prop :=
  last (None :: ConfigManager.fired s) = Some (ConfigManager.config s) ∧
  notificationsDiffer stringify None (ConfigManager.fired s).

(** The configuration held has passed [validateConfig]. *)
Definition heldIsValid (s : ConfigManager.State) : Prop :=
  ∀ parsed, ConfigManager.config s = Some parsed →
    ConfigManager.validateConfig parsed = ConfigManager.Accepted.

(** What the configuration manager keeps from event to event. *)
Definition configInvariant (stringify : ConfigManager.Json -> string)
    (s : ConfigManager.State) : Prop :=
  heldIsValid s ∧ notified stringify s ∧ oneReloadTimer s.

(** ** Concrete values for the examples *)

Definition demoHost : Host := posixHost "/ws".

Definition demoConfig : FTPConfig :=
  {| name := "My Server"; host := "example.org"; protocol := ftp; port := 21;
     username := "username"; password := "password"; remotePath := "/public_html/";
     uploadOnSave := true; useTempFile := false; openSsh := false;
     watcher := {| files := "**/*"; autoUpload := true; autoDelete := false;
                   ignoreCreate := false; ignoreUpdate := false; ignoreDelete := true |};
     ignore := Some ["notes.txt"] |}.

Definition permissionDenied : JsError := FTPError 550 "Permission denied".

Definition allFiles : LocalFs := fun _ => true.
Definition noFiles : LocalFs := fun _ => false.

(** The manager once [connect] has succeeded with [demoConfig]. *)
Definition demoConnected : FTPManager :=
  {| client := Some {| closed := false |}; config := Some demoConfig;
     connectionStatus := {| connected := true; connecting := false; error := None;
                            lastConnected := Some 100; statusHost := Some "example.org" |};
     uploadQueue := []; isProcessingQueue := false; reconnectTimer := None;
     isSyncingOrDownloading := false; drain := DrainIdle; timeouts := [];
     nextTimeout := O;
     reports := [ UpdateConnectionStatus
                    {| connected := false; connecting := true; error := None;
                       lastConnected := None; statusHost := None |};
                  UpdateConnectionStatus
                    {| connected := true; connecting := false; error := None;
                       lastConnected := Some 100; statusHost := Some "example.org" |} ] |}.

Definition demoConnectEvents : list Event :=
  [ EvSetConfig (Some demoConfig); EvConnect; EvSocket false;
    EvAccessSettled Resolved; EvListSettled Resolved 100 ].

(** The same manager while a sync of the workspace runs. *)
Definition demoSyncing : FTPManager :=
  exclusiveEnter SyncServerToLocal "/ws" true demoConnected.

Definition demoTask : UploadTask :=
  {| localPath := "/ws/src/a.ts"; taskRemotePath := "/public_html/src/a.ts";
     retries := 0; timestamp := 5 |}.



Definition demoHandshake : Handshake :=
  {| accessOutcome := Resolved; socketOpen := true; listOutcome := Resolved; listedAt := 100 |}.

(** The connected manager once [uploadFile] has queued [demoTask] and the
    queue processor has shifted it. *)
Definition demoProcessing : FTPManager :=
  set_reports (reports demoConnected ++ [ShowUploadProgress "a.ts"])
    (set_drain (DrainEnsureDir demoTask true) (set_isProcessingQueue true demoConnected)).

Definition demoUploadEvents : list Event :=
  demoConnectEvents ++ [EvUploadFile allFiles 5 "/ws/src/a.ts" None].

(** The same manager once the remote directory exists, while [uploadFrom]
    runs for [demoTask]. *)
Definition demoUploading : FTPManager :=
  set_drain (DrainUpload demoTask true) demoProcessing.

Definition demoUploadingEvents : list Event :=
  demoUploadEvents ++ [EvEnsureDirSettled Resolved].

(** Three attempts for [demoTask], each refused by the server. *)
Definition demoThreeFailures : list Event :=
  demoUploadingEvents ++
  [ EvUploadSettled allFiles (Rejected permissionDenied); EvRetryDelayElapsed;
    EvEnsureDirSettled Resolved;
    EvUploadSettled allFiles (Rejected permissionDenied); EvRetryDelayElapsed;
    EvEnsureDirSettled Resolved;
    EvUploadSettled allFiles (Rejected permissionDenied) ].

(** Two attempts for [demoTask] refused, and the manager during the third
    attempt: the task in flight has 2 retries counted. *)
Definition demoTwoFailures : list Event :=
  demoUploadingEvents ++
  [ EvUploadSettled allFiles (Rejected permissionDenied); EvRetryDelayElapsed;
    EvEnsureDirSettled Resolved;
    EvUploadSettled allFiles (Rejected permissionDenied); EvRetryDelayElapsed;
    EvEnsureDirSettled Resolved ].

Definition demoTaskRetried : UploadTask := bumpRetries (bumpRetries demoTask).

Definition demoLastAttempt : FTPManager :=
  Eval vm_compute in default initial (@run demoHost demoTwoFailures initial).

(** A [connect] that the server refuses, and the manager after it: a
    reconnect is scheduled. *)
Definition demoReconnectEvents : list Event :=
  [ EvSetConfig (Some demoConfig); EvConnect;
    EvAccessSettled (Rejected (OtherError "connect ECONNREFUSED")) ].

Definition demoReconnecting : FTPManager :=
  {| client := None; config := Some demoConfig;
     connectionStatus := {| connected := false; connecting := false;
                            error := Some "connect ECONNREFUSED";
                            lastConnected := None; statusHost := None |};
     uploadQueue := []; isProcessingQueue := false; reconnectTimer := Some O;
     isSyncingOrDownloading := false; drain := DrainIdle; timeouts := [O];
     nextTimeout := 1%nat;
     reports := [ UpdateConnectionStatus
                    {| connected := false; connecting := true; error := None;
                       lastConnected := None; statusHost := None |};
                  UpdateConnectionStatus
                    {| connected := false; connecting := false;
                       error := Some "connect ECONNREFUSED";
                       lastConnected := None; statusHost := None |} ] |}.






(** A remote file that has the name of a method of [Object.prototype]. *)
Definition demoRemoteConstructor : FileInfo :=
  {| itemName := "constructor"; type := File; size := Some 100; modifiedAt := Some 1000 |}.



Definition mkdirResolves : string -> bool := fun _ => true.

(** The watcher after a change of [/ws/src/a.ts]: its debounce timeout is
    armed. *)
Definition demoWatchEvents : list FileWatcher.Event :=
  [ FileWatcher.SetConfig (Some demoConfig); FileWatcher.Changed "/ws/src/a.ts" ].

Definition demoDebouncing : FileWatcher.State :=
  {| FileWatcher.config := Some demoConfig;
     FileWatcher.fileWatcher :=
       Some {| FileWatcher.onAdd := true; FileWatcher.onChange := true;
               FileWatcher.onUnlink := false; FileWatcher.onUnlinkDir := false |};
     FileWatcher.saveWatcher := true; FileWatcher.isWatching := true;
     FileWatcher.uploadDebounce := {[ "/ws/src/a.ts" := O ]};
     FileWatcher.timeouts := [(O, "/ws/src/a.ts")];
     FileWatcher.nextTimeout := 1%nat; FileWatcher.calls := [] |}.

Definition demoUnconfigured : FTPManager := setConfig None demoConnected.

Definition demoConnecting : FTPManager :=
  (connectStart (setConfig (Some demoConfig) initial)).2.

Definition connectionRefused : JsError := OtherError "connect ECONNREFUSED".

Definition demoWatching : FileWatcher.State :=
  @FileWatcher.setConfig demoHost (Some demoConfig) FileWatcher.initial.

Definition demoSession : Extension.State :=
  {| Extension.ftpManager := demoUploading; Extension.fileWatcher := demoDebouncing |}.

(** The configuration with [uploadOnSave] off, and the watcher under it
    after a change of [/ws/src/a.ts]. *)
Definition demoConfigNoSave : FTPConfig :=
  {| name := "My Server"; host := "example.org"; protocol := ftp; port := 21;
     username := "username"; password := "password"; remotePath := "/public_html/";
     uploadOnSave := false; useTempFile := false; openSsh := false;
     watcher := {| files := "**/*"; autoUpload := true; autoDelete := false;
                   ignoreCreate := false; ignoreUpdate := false; ignoreDelete := true |};
     ignore := Some ["notes.txt"] |}.

Definition demoWatchEventsNoSave : list FileWatcher.Event :=
  [ FileWatcher.SetConfig (Some demoConfigNoSave); FileWatcher.Changed "/ws/src/a.ts" ].

(** A configuration file without [watcher]. *)
Definition demoWithoutWatcher : Extension.LoadedConfig :=
  {| Extension.settings := demoConfig; Extension.hasWatcher := false |}.



Definition demoSyncEvents : list Event :=
  demoConnectEvents ++ [EvExclusiveEnter SyncServerToLocal "/ws" true].

Definition quoted (s : string) : string := String "034" (s ++ String "034" "").

(** A serialiser for the examples. *)
Fixpoint demoStringify (j : ConfigManager.Json) : string :=
  match j with
  | ConfigManager.JNull => "null"
  | ConfigManager.JBool b => if b then "true" else "false"
  | ConfigManager.JNumber q =>
      pretty (Qnum q) ++ (if (Qden q =? 1)%positive then "" else "/" ++ pretty (Zpos (Qden q)))
  | ConfigManager.JString s => quoted s
  | ConfigManager.JArray items => "[" ++ String.concat "," (map demoStringify items) ++ "]"
  | ConfigManager.JObject fields =>
      "{" ++ String.concat ","
               (map (λ kv, quoted kv.1 ++ ":" ++ demoStringify kv.2) fields) ++ "}"
  end.

Definition demoJson : ConfigManager.Json :=
  ConfigManager.JObject
    [ ("name", ConfigManager.JString "My Server");
      ("host", ConfigManager.JString "example.org");
      ("protocol", ConfigManager.JString "ftp");
      ("port", ConfigManager.JNumber 21);
      ("username", ConfigManager.JString "username");
      ("password", ConfigManager.JString "");
      ("remotePath", ConfigManager.JString "/public_html/") ].

Definition demoJsonEdited : ConfigManager.Json :=
  ConfigManager.JObject
    [ ("host", ConfigManager.JString "example.org");
      ("protocol", ConfigManager.JString "sftp");
      ("port", ConfigManager.JNumber 22);
      ("username", ConfigManager.JString "username");
      ("password", ConfigManager.JString "secret");
      ("remotePath", ConfigManager.JString "/public_html/") ].

Definition demoConfigLoaded : ConfigManager.State :=
  @ConfigManager.initialize demoHost demoStringify (ConfigManager.Content demoJson)
    ConfigManager.initial.

(** ** Proof automation *)

Ltac unfold_core :=
  unfold core, statusExclusive, oneReconnectTimer, heldTimeouts in *.

Ltac case_split :=
  repeat match goal with
         | |- context [if ?b then _ else _] => destruct b
         | |- context [match ?x with _ => _ end] => destruct x
         end.

(** * Properties *)

(** ** The embedding on small inputs *)

Example basename_of_file : Path.basename "/ws/src/a.ts" = "a.ts".
Proof. reflexivity. Qed.

Example basename_skips_trailing_slash : Path.basename "/ws/src/" = "src".
Proof. reflexivity. Qed.

Example dirname_of_remote : Path.dirname "/public_html/src/a.ts" = "/public_html/src".
Proof. reflexivity. Qed.

Example dirname_of_top_level : Path.dirname "/a.ts" = "/".
Proof. reflexivity. Qed.

Example relative_inside : Path.relative "/ws" "/ws/src/a.ts" = "src/a.ts".
Proof. reflexivity. Qed.

Example relative_outside : Path.relative "/ws/app" "/ws/lib/a.ts" = "../lib/a.ts".
Proof. reflexivity. Qed.

Example toRemotePath_demo :
  PathUtils.toRemotePath "/ws/src/a.ts" "/ws" "/public_html/" = "/public_html/src/a.ts".
Proof. reflexivity. Qed.

Example globToRegex_log : PathUtils.globToRegex "*.log" = "[^/]*\.log".
Proof. reflexivity. Qed.

Example globToRegex_deep : PathUtils.globToRegex "**/*.map" = ".+/[^/]*\.map".
Proof. reflexivity. Qed.

Example ignores_log_files : @PathUtils.shouldIgnoreFile demoHost "/ws/logs/debug.log" None = true.
Proof. vm_compute. reflexivity. Qed.

Example ignores_git_directory : @PathUtils.shouldIgnoreFile demoHost "/ws/.git" None = true.
Proof. vm_compute. reflexivity. Qed.

Example keeps_source_files : @PathUtils.shouldIgnoreFile demoHost "/ws/src/a.ts" None = false.
Proof. vm_compute. reflexivity. Qed.

Example ignores_configured_directory :
  @PathUtils.shouldIgnoreFile demoHost "/ws/dist/app.js" (Some ["dist/"]) = true.
Proof. vm_compute. reflexivity. Qed.

Example ignores_configured_glob :
  @PathUtils.shouldIgnoreFile demoHost "/ws/src/gen/app.map" (Some ["**/*.map"]) = true.
Proof. vm_compute. reflexivity. Qed.

Example timeout_is_a_connection_loss :
  isTransient (OtherError "Timeout (control socket)") = false ∧
  isTransient (OtherError "read ECONNRESET") = true ∧
  isTransient (FTPError 421 "Service not available") = true ∧
  isTransient (FTPError 550 "No such file") = false.
Proof. repeat split. Qed.

Example connect_reaches_connected :
  @run demoHost demoConnectEvents initial = Some demoConnected.
Proof. vm_compute. reflexivity. Qed.

Example connect_run_to_completion :
  connect demoHandshake (setConfig (Some demoConfig) initial) = (true, demoConnected).
Proof. vm_compute. reflexivity. Qed.

Example upload_enters_the_queue_processor :
  @run demoHost demoUploadEvents initial = Some demoProcessing.
Proof. vm_compute. reflexivity. Qed.

(** A task whose three attempts are refused is reported once and gone. *)
Example three_failures_one_report :
  ∃ s, @run demoHost demoThreeFailures initial = Some s ∧
       uploadQueue s = [] ∧ drain s = DrainIdle ∧ isProcessingQueue s = false ∧
       uploadErrors s = [ShowUploadError "a.ts" "Permission denied"].
Proof. eexists. split; [vm_compute; reflexivity|]. repeat split. Qed.


(** ** Frame lemmas: what the blocks leave alone *)

Lemma scheduleReconnect_frame s :
  client (scheduleReconnect s) = client s ∧
  config (scheduleReconnect s) = config s ∧
  connectionStatus (scheduleReconnect s) = connectionStatus s ∧
  uploadQueue (scheduleReconnect s) = uploadQueue s ∧
  isProcessingQueue (scheduleReconnect s) = isProcessingQueue s ∧
  isSyncingOrDownloading (scheduleReconnect s) = isSyncingOrDownloading s ∧
  drain (scheduleReconnect s) = drain s ∧
  reports (scheduleReconnect s) = reports s.
Proof.
  unfold scheduleReconnect.
  destruct (_ || _); [done|]. destruct (_ && _); done.
Qed.

Lemma handleFTPError_frame e ctx s :
  client (handleFTPError e ctx s) = client s ∧
  config (handleFTPError e ctx s) = config s ∧
  uploadQueue (handleFTPError e ctx s) = uploadQueue s ∧
  isProcessingQueue (handleFTPError e ctx s) = isProcessingQueue s ∧
  isSyncingOrDownloading (handleFTPError e ctx s) = isSyncingOrDownloading s ∧
  drain (handleFTPError e ctx s) = drain s.
Proof.
  unfold handleFTPError.
  destruct (isConnectionLossCode e); [|destruct (isNetworkLossMessage _); [|done]];
    match goal with |- context [scheduleReconnect ?x] =>
      destruct (scheduleReconnect_frame x) as (-> & -> & _ & -> & -> & -> & -> & _) end; done.
Qed.

Lemma handleFTPError_fatal e ctx s :
  isTransient e = false → handleFTPError e ctx s = s.
Proof.
  unfold isTransient, handleFTPError. intros [-> ->]%orb_false_iff. done.
Qed.

Lemma handleFTPError_clientClosed e ctx s :
  clientClosed (handleFTPError e ctx s) = clientClosed s.
Proof.
  unfold clientClosed. by destruct (handleFTPError_frame e ctx s) as (-> & _).
Qed.

(** The retry branch of the [catch] block. *)
Lemma uploadFailed_retry task ok e s :
  retries task + 1 < maxRetries → clientClosed s = false →
  uploadFailed task ok e s =
    (Suspended,
     let s1 := handleFTPError e ("Upload attempt " ++ pretty (retries task + 1) ++ " for " ++
                                 Path.basename (localPath task)) s in
     set_drain (DrainDelay ok) (set_uploadQueue (bumpRetries task :: uploadQueue s) s1)).
Proof.
  intros Hlt Hopen. unfold uploadFailed. cbn [bumpRetries retries localPath].
  rewrite handleFTPError_clientClosed, Hopen.
  destruct (Z.ltb_spec (retries task + 1) maxRetries); [|lia]. cbn.
  by destruct (handleFTPError_frame e
    ("Upload attempt " ++ pretty (retries task + 1) ++ " for " ++ Path.basename (localPath task)) s)
    as (_ & _ & -> & _).
Qed.

(** The other branch: the task is dropped and the failure reported. *)
Lemma uploadFailed_drop task ok e s :
  ¬ (retries task + 1 < maxRetries) ∨ clientClosed s = true →
  uploadFailed task ok e s =
    let s1 := handleFTPError e ("Upload attempt " ++ pretty (retries task + 1) ++ " for " ++
                                Path.basename (localPath task)) s in
    let s2 := report (ShowUploadError (Path.basename (localPath task)) (message e)) s1 in
    if clientClosed s then drainFinish false s2 else drainLoop false s2.
Proof.
  intros Hcond. unfold uploadFailed. cbn [bumpRetries retries localPath].
  rewrite handleFTPError_clientClosed.
  assert ((retries task + 1 <? maxRetries) && negb (clientClosed s) = false) as ->.
  { destruct Hcond as [Hge | ->]; [|by rewrite andb_false_r].
    destruct (Z.ltb_spec (retries task + 1) maxRetries); [lia|done]. }
  cbn zeta. unfold clientClosed at 1. unfold report at 1. cbn [client set_reports].
  by destruct (handleFTPError_frame e
    ("Upload attempt " ++ pretty (retries task + 1) ++ " for " ++ Path.basename (localPath task)) s)
    as (-> & _).
Qed.

(** ** The upload queue during a sync *)

(** C1 (counterexample): a sync of the workspace runs on a connected manager.
    [uploadFile], called for an existing file that no pattern ignores,
    answers [true], yet the manager is unchanged and its queue empty, and
    the queue is still empty, with the queue processor idle, when the sync
    has ended: the task was not recorded and nothing proceeds afterwards.
    The same call outside the sync does record the task (the queue
    processor takes it up at once). *)
Lemma upload_during_sync_not_recorded :
  @run demoHost (demoConnectEvents ++ [EvExclusiveEnter SyncServerToLocal "/ws" true]) initial
    = Some demoSyncing ∧
  isSyncingOrDownloading demoSyncing = true ∧
  allFiles "/ws/src/a.ts" = true ∧
  @ignoredOnUpload demoHost demoConfig "/ws/src/a.ts" = false ∧
  @uploadFile demoHost allFiles 5 "/ws/src/a.ts" None demoSyncing = (true, demoSyncing) ∧
  uploadQueue demoSyncing = [] ∧
  uploadQueue (exclusiveLeave SyncServerToLocal "/ws" "/public_html" Resolved demoSyncing) = [] ∧
  drain (exclusiveLeave SyncServerToLocal "/ws" "/public_html" Resolved demoSyncing) = DrainIdle ∧
  inFlight (@uploadFile demoHost allFiles 5 "/ws/src/a.ts" None demoConnected).2 = Some demoTask.
Proof. repeat split; vm_compute; reflexivity. Qed.

Lemma exclusiveLeave_frame op l r result s :
  uploadQueue (exclusiveLeave op l r result s) = uploadQueue s ∧
  drain (exclusiveLeave op l r result s) = drain s.
Proof.
  unfold exclusiveLeave. destruct result as [|e], op; cbn; try done.
  by destruct (handleFTPError_frame e ("download remote path " ++ r) s) as (_ & _ & -> & _ & _ & ->).
Qed.

(** C1 (amended): an upload request that arrives while a sync or download is
    in progress is answered with [true] and dropped: the manager, its queue
    included, is left as it was, and the end of the sync or download neither
    enqueues nor starts anything. *)
Theorem upload_skipped_while_syncing `{Host} (fs : LocalFs) (now : Z) (localPath_ : string)
    (remotePath_ : option string) (s : FTPManager) :
  isSyncingOrDownloading s = true →
  uploadFile fs now localPath_ remotePath_ s = (true, s) ∧
  ∀ op l r result,
    uploadQueue (exclusiveLeave op l r result s) = uploadQueue s ∧
    drain (exclusiveLeave op l r result s) = drain s.
Proof.
  intros Hflag. split.
  - unfold uploadFile. by rewrite Hflag.
  - intros. apply exclusiveLeave_frame.
Qed.

(** C1 (witness) *)
Lemma upload_skipped_while_syncing_witness :
  isSyncingOrDownloading demoSyncing = true ∧
  @uploadFile demoHost allFiles 5 "/ws/src/a.ts" None demoSyncing = (true, demoSyncing).
Proof.
  split; [reflexivity|].
  apply (@upload_skipped_while_syncing demoHost allFiles 5 "/ws/src/a.ts" None demoSyncing).
  reflexivity.
Defined.

(** ** The sync comparison *)


(** A remote file named [constructor] in a folder that is empty locally:
    the index answers with a method of [Object.prototype], which is no
    missing file; the comparison ends in a [RangeError], or downloads for
    want of a remote time. *)
Example inherited_name_is_not_missing :
  ownStats emptyStats !! "constructor" = None ∧
  lookupStats "constructor" emptyStats = VFunction ∧
  @syncDecision demoHost (Some demoConfig) "/ws" emptyStats mkdirResolves demoRemoteConstructor
    = Abort ∧
  @syncDecision demoHost (Some demoConfig) "/ws" emptyStats mkdirResolves
    {| itemName := "constructor"; type := File; size := Some 100; modifiedAt := None |}
    = DownloadFile "Remote mtime missing".
Proof. repeat split; vm_compute; reflexivity. Qed.


(** For a name that [Object.prototype] does not have, in an index without
    an entry named [__proto__], the lookup gives the entry stored under the
    name, or [undefined]. *)
Lemma lookupStats_plain name stats :
  name ≠ "__proto__" → name ∉ Js.objectPrototypeMethods → protoStats stats = None →
  lookupStats name stats = match ownStats stats !! name with
                           | Some l => VStats l
                           | None => VUndefined
                           end.
Proof.
  intros Hproto%String.eqb_neq Hmethod Hnone. unfold lookupStats. rewrite Hproto, Hnone.
  destruct (ownStats stats !! name); [done|].
  unfold objectPrototypeMember. by rewrite bool_decide_eq_false_2.
Qed.



(** ** Terminal failures in the status manager's inbox *)

Lemma uploadErrors_report r s :
  uploadErrors (report r s) = (uploadErrors s ++ if isUploadError r then [r] else [])%list.
Proof.
  unfold uploadErrors, report. cbn. rewrite List.filter_app. cbn.
  by destruct (isUploadError r).
Qed.

Lemma uploadErrors_scheduleReconnect s : uploadErrors (scheduleReconnect s) = uploadErrors s.
Proof. unfold uploadErrors. by destruct (scheduleReconnect_frame s) as (_ & _ & _ & _ & _ & _ & _ & ->). Qed.

Lemma uploadErrors_handleFTPError e ctx s : uploadErrors (handleFTPError e ctx s) = uploadErrors s.
Proof.
  unfold handleFTPError.
  destruct (isConnectionLossCode e); [|destruct (isNetworkLossMessage _); [|done]];
    rewrite uploadErrors_scheduleReconnect, uploadErrors_report; cbn; apply app_nil_r.
Qed.

Lemma connectStart_frame s :
  uploadQueue (connectStart s).2 = uploadQueue s ∧
  drain (connectStart s).2 = drain s ∧
  isProcessingQueue (connectStart s).2 = isProcessingQueue s ∧
  uploadErrors (connectStart s).2 = uploadErrors s.
Proof.
  unfold connectStart. destruct (config s); [|done].
  destruct (connecting _); [done|]. destruct (isConnected s); [done|].
  cbn. unfold cancelReconnectTimer. destruct (reconnectTimer s); cbn; repeat split;
    unfold uploadErrors; cbn; rewrite List.filter_app; cbn; apply app_nil_r.
Qed.

Lemma drainFinish_frame ok s :
  uploadQueue (drainFinish ok s).2 = uploadQueue s ∧
  uploadErrors (drainFinish ok s).2 = uploadErrors s.
Proof.
  unfold drainFinish. cbn. destruct (uploadQueue s) eqn:Hq; cbn; [|done].
  split; [done|]. unfold uploadErrors. cbn. rewrite List.filter_app. cbn. apply app_nil_r.
Qed.

Lemma drainLoop_frame ok s :
  uploadQueue (drainLoop ok s).2 `suffix_of` uploadQueue s ∧
  uploadErrors (drainLoop ok s).2 = uploadErrors s.
Proof.
  unfold drainLoop. destruct (uploadQueue s) as [|task rest] eqn:Hq.
  - destruct (drainFinish_frame ok s) as [-> ->]. by rewrite Hq.
  - destruct (isConnected s); cbn [negb].
    + assert (∀ s' : Started bool * FTPManager,
                uploadQueue s'.2 = rest → uploadErrors s'.2 = uploadErrors s →
                uploadQueue s'.2 `suffix_of` task :: rest ∧ uploadErrors s'.2 = uploadErrors s) as Hk.
      { intros s' -> ->. split; [|done]. by apply suffix_cons_r. }
      destruct (skipsEnsureDir _ _); apply Hk; cbn; try done;
        unfold uploadErrors; cbn; rewrite List.filter_app; cbn; apply app_nil_r.
    + cbn [snd].
      match goal with |- context [connectStart ?x] =>
        destruct (connectStart_frame x) as (-> & _ & _ & ->) end.
      cbn. by rewrite Hq.
Qed.

(** What the drop branch leaves behind: the task is not put back, and one
    terminal failure is reported. *)
Lemma uploadFailed_drop_observed task ok e s :
  ¬ (retries task + 1 < maxRetries) ∨ clientClosed s = true →
  uploadQueue (uploadFailed task ok e s).2 `suffix_of` uploadQueue s ∧
  uploadErrors (uploadFailed task ok e s).2 =
    (uploadErrors s ++ [ShowUploadError (Path.basename (localPath task)) (message e)])%list.
Proof.
  intros Hcond. rewrite uploadFailed_drop by done. cbn zeta.
  set (ctx := "Upload attempt " ++ _).
  set (s2 := report _ _).
  assert (uploadQueue s2 = uploadQueue s) as Hq.
  { subst s2. cbn. by destruct (handleFTPError_frame e ctx s) as (_ & _ & -> & _). }
  assert (uploadErrors s2 =
          (uploadErrors s ++ [ShowUploadError (Path.basename (localPath task)) (message e)])%list) as He.
  { subst s2. by rewrite uploadErrors_report, uploadErrors_handleFTPError. }
  destruct (clientClosed s).
  - destruct (drainFinish_frame false s2) as [-> ->]. by rewrite Hq, He.
  - destruct (drainLoop_frame false s2) as [Hsuf ->]. by rewrite <- Hq, He.
Qed.

(** What the retry branch leaves behind. *)
Lemma uploadFailed_retry_observed task ok e s :
  retries task + 1 < maxRetries → clientClosed s = false →
  uploadQueue (uploadFailed task ok e s).2 = bumpRetries task :: uploadQueue s ∧
  drain (uploadFailed task ok e s).2 = DrainDelay ok ∧
  uploadErrors (uploadFailed task ok e s).2 = uploadErrors s.
Proof.
  intros Hlt Hopen. rewrite uploadFailed_retry by done. cbn.
  repeat split. unfold uploadErrors at 1. cbn. apply uploadErrors_handleFTPError.
Qed.

(** ** Failed upload attempts *)

(** C3 (counterexample): the first upload attempt for [demoTask] is refused
    with reply 550 (permission denied), which [handleFTPError] does not read
    as a lost connection; the client stays open.  The task is back at the
    head of the queue with one retry counted, the queue processor waits for
    the retry delay, and no terminal failure was reported. *)
Lemma fatal_error_is_retried :
  isTransient permissionDenied = false ∧
  @run demoHost demoUploadingEvents initial = Some demoUploading ∧
  clientClosed demoUploading = false ∧
  drain demoUploading = DrainUpload demoTask true ∧
  ∃ s', @step demoHost (EvUploadSettled allFiles (Rejected permissionDenied)) demoUploading = Some s' ∧
        uploadQueue s' = [bumpRetries demoTask] ∧
        retries (bumpRetries demoTask) = 1 ∧
        drain s' = DrainDelay true ∧
        uploadErrors s' = [].
Proof.
  split; [reflexivity|]. split; [vm_compute; reflexivity|]. do 2 (split; [reflexivity|]).
  eexists. split; [vm_compute; reflexivity|]. repeat split.
Qed.

(** C3 (amended): when an upload attempt fails with a fatal error, the task
    is retried like after any other error: while fewer than 3 attempts have
    failed and the client is not closed, it goes back to the head of the
    queue with its retry counted and nothing is reported; once the third
    attempt has failed, or the client is closed, it is not put back and one
    terminal failure is reported. *)
Theorem fatal_failure_follows_retry_policy (task : UploadTask) (ok : bool) (e : JsError)
    (s : FTPManager) :
  isTransient e = false →
  (retries task + 1 < maxRetries → clientClosed s = false →
     uploadFailed task ok e s =
       (Suspended, set_drain (DrainDelay ok)
                     (set_uploadQueue (bumpRetries task :: uploadQueue s) s))) ∧
  (¬ (retries task + 1 < maxRetries) ∨ clientClosed s = true →
     uploadQueue (uploadFailed task ok e s).2 `suffix_of` uploadQueue s ∧
     uploadErrors (uploadFailed task ok e s).2 =
       (uploadErrors s ++ [ShowUploadError (Path.basename (localPath task)) (message e)])%list).
Proof.
  intros Hfatal. split.
  - intros Hlt Hopen. rewrite uploadFailed_retry by done. cbn zeta.
    by rewrite handleFTPError_fatal.
  - apply uploadFailed_drop_observed.
Qed.

(** C3 (witness) *)
Lemma fatal_failure_follows_retry_policy_witness :
  uploadFailed demoTask true permissionDenied demoUploading =
    (Suspended, set_drain (DrainDelay true)
                  (set_uploadQueue (bumpRetries demoTask :: uploadQueue demoUploading) demoUploading)).
Proof.
  apply (fatal_failure_follows_retry_policy demoTask true permissionDenied demoUploading);
    vm_compute; reflexivity.
Defined.

(** C8 (counterexample): [demoTask] was enqueued while its file existed; the
    file has vanished when [uploadFrom] runs.  The task is not dropped: it
    is back at the head of the queue with one retry counted, the queue
    processor waits for the retry delay, and no failure was reported. *)
Lemma vanished_file_is_retried :
  allFiles (localPath demoTask) = true ∧
  @run demoHost demoUploadingEvents initial = Some demoUploading ∧
  noFiles (localPath demoTask) = false ∧
  drain demoUploading = DrainUpload demoTask true ∧
  ∃ s', @step demoHost (EvUploadSettled noFiles Resolved) demoUploading = Some s' ∧
        uploadQueue s' = [bumpRetries demoTask] ∧
        retries (bumpRetries demoTask) = 1 ∧
        drain s' = DrainDelay true ∧
        uploadErrors s' = [].
Proof.
  split; [reflexivity|]. split; [vm_compute; reflexivity|]. do 2 (split; [reflexivity|]).
  eexists. split; [vm_compute; reflexivity|]. repeat split.
Qed.

(** C8 (amended): the local file is checked for existence when the task is
    enqueued, and not again by the queue processor.  When the file has
    vanished by the time of the upload, the attempt fails in the transport
    and is handled like any failed attempt: the task goes back to the head
    of the queue with its retry counted while fewer than 3 attempts have
    failed and the client is not closed; otherwise it is not put back and
    one terminal failure is reported. *)
Theorem vanished_file_follows_retry_policy `{Host} (fs : LocalFs) (task : UploadTask)
    (ok : bool) (server : Outcome) (now : Z) (remotePath_ : option string) (s : FTPManager) :
  fs (localPath task) = false →
  (uploadFile fs now (localPath task) remotePath_ s).2 = s ∧
  uploadSettled task ok (uploadFrom fs task server) s =
    uploadFailed task ok (enoent (localPath task)) s ∧
  (retries task + 1 < maxRetries → clientClosed s = false →
     uploadQueue (uploadSettled task ok (uploadFrom fs task server) s).2 =
       bumpRetries task :: uploadQueue s ∧
     drain (uploadSettled task ok (uploadFrom fs task server) s).2 = DrainDelay ok ∧
     uploadErrors (uploadSettled task ok (uploadFrom fs task server) s).2 = uploadErrors s) ∧
  (¬ (retries task + 1 < maxRetries) ∨ clientClosed s = true →
     uploadQueue (uploadSettled task ok (uploadFrom fs task server) s).2 `suffix_of` uploadQueue s ∧
     uploadErrors (uploadSettled task ok (uploadFrom fs task server) s).2 =
       (uploadErrors s ++ [ShowUploadError (Path.basename (localPath task))
                                          (message (enoent (localPath task)))])%list).
Proof.
  intros Hgone.
  assert (uploadSettled task ok (uploadFrom fs task server) s =
          uploadFailed task ok (enoent (localPath task)) s) as Heq.
  { unfold uploadFrom. by rewrite Hgone. }
  rewrite Heq. repeat split.
  - unfold uploadFile. rewrite Hgone.
    destruct (isSyncingOrDownloading s); [done|]. by destruct (config s).
  - by apply uploadFailed_retry_observed.
  - by apply uploadFailed_retry_observed.
  - by apply uploadFailed_retry_observed.
  - by apply uploadFailed_drop_observed.
  - by apply uploadFailed_drop_observed.
Qed.

(** C8 (witness) *)
Lemma vanished_file_follows_retry_policy_witness :
  uploadSettled demoTask true (uploadFrom noFiles demoTask Resolved) demoUploading =
    uploadFailed demoTask true (enoent (localPath demoTask)) demoUploading.
Proof.
  apply (@vanished_file_follows_retry_policy demoHost noFiles demoTask true Resolved 5 None
           demoUploading).
  reflexivity.
Defined.

(** ** Deleting what is already gone *)

(** C9: when the removal of a remote file or directory is rejected with
    reply 550, [deleteFile] and [deleteDirectory] answer [true] and leave the
    manager exactly as the connection check left it: no status change, no
    report, no reconnect timer.  With a live connection the manager is not
    changed at all. *)
Theorem delete_not_found_is_success (remotePath_ msg : string) (h : Handshake) (s : FTPManager) :
  (∀ s1, checkConnection "deleteFile" h s = (true, s1) → config s1 ≠ None →
         deleteFile remotePath_ h (Rejected (FTPError 550 msg)) s = (true, s1)) ∧
  (∀ s1, checkConnection "deleteDirectory" h s = (true, s1) → config s1 ≠ None →
         deleteDirectory remotePath_ h (Rejected (FTPError 550 msg)) s = (true, s1)) ∧
  (isConnected s = true → config s ≠ None →
   deleteFile remotePath_ h (Rejected (FTPError 550 msg)) s = (true, s) ∧
   deleteDirectory remotePath_ h (Rejected (FTPError 550 msg)) s = (true, s)).
Proof.
  assert (∀ s1, checkConnection "deleteFile" h s = (true, s1) → config s1 ≠ None →
                deleteFile remotePath_ h (Rejected (FTPError 550 msg)) s = (true, s1)) as Hfile.
  { intros s1 Hcheck Hcfg. unfold deleteFile. rewrite Hcheck. cbn. by destruct (config s1). }
  assert (∀ s1, checkConnection "deleteDirectory" h s = (true, s1) → config s1 ≠ None →
                deleteDirectory remotePath_ h (Rejected (FTPError 550 msg)) s = (true, s1)) as Hdir.
  { intros s1 Hcheck Hcfg. unfold deleteDirectory. rewrite Hcheck. cbn. by destruct (config s1). }
  split; [done|]. split; [done|].
  intros Hlive Hcfg. split; [apply Hfile | apply Hdir]; try done;
    unfold checkConnection; by rewrite Hlive.
Qed.

(** C9 (witness) *)
Lemma delete_not_found_is_success_witness :
  deleteFile "/public_html/old.txt" demoHandshake
             (Rejected (FTPError 550 "No such file or directory")) demoConnected
    = (true, demoConnected) ∧
  deleteDirectory "/public_html/old.txt" demoHandshake
             (Rejected (FTPError 550 "No such file or directory")) demoConnected
    = (true, demoConnected).
Proof.
  apply (delete_not_found_is_success "/public_html/old.txt" "No such file or directory"
           demoHandshake demoConnected); [reflexivity | discriminate].
Defined.

(** ** Ignore decisions *)

(** C4 (counterexample): the configuration ignores [notes.txt].  Upload and
    sync ignore [/ws/notes.txt]; the watcher's debounce and the save
    listener do not: a change of the file arms a debounce timeout, and a
    save of it calls [uploadFile], which then drops the request. *)
Lemma ignore_sites_disagree :
  ignore demoConfig = Some ["notes.txt"] ∧
  @ignoredOnUpload demoHost demoConfig "/ws/notes.txt" = true ∧
  @ignoredOnSync demoHost (Some demoConfig) "/ws/notes.txt" = true ∧
  @ignoredOnDebounce demoHost "/ws/notes.txt" = false ∧
  @ignoredOnSave demoHost "/ws/notes.txt" = false ∧
  FileWatcher.timeouts (@FileWatcher.debounceUpload demoHost "/ws/notes.txt" FileWatcher.initial)
    = [(O, "/ws/notes.txt")] ∧
  FileWatcher.calls (@FileWatcher.documentSaved demoHost "/ws/notes.txt" FileWatcher.initial)
    = [FileWatcher.UploadFile "/ws/notes.txt"] ∧
  @uploadFile demoHost allFiles 5 "/ws/notes.txt" None demoConnected = (true, demoConnected).
Proof. repeat split; vm_compute; reflexivity. Qed.

Lemma shouldIgnoreFile_mono `{Host} (filePath : string) (patterns : option (list string)) :
  PathUtils.shouldIgnoreFile filePath None = true →
  PathUtils.shouldIgnoreFile filePath patterns = true.
Proof.
  unfold PathUtils.shouldIgnoreFile. cbn [default].
  rewrite app_nil_r, !existsb_app. intros ->. done.
Qed.

Lemma shouldIgnoreFile_empty `{Host} (filePath : string) (patterns : option (list string)) :
  default [] patterns = [] →
  PathUtils.shouldIgnoreFile filePath patterns = PathUtils.shouldIgnoreFile filePath None.
Proof.
  unfold PathUtils.shouldIgnoreFile. intros ->. done.
Qed.

(** C4 (amended): every site calls the same matching function, but not with
    the same patterns: upload and sync pass the ignore list of the
    configuration, the watcher's debounce and the save listener pass none.
    So upload and sync agree, debounce and save agree, a path ignored by
    the watcher sites is ignored by upload and sync, and all four agree when
    the configuration lists no pattern.  A path that upload ignores yields
    no task, whichever site let it through. *)
Theorem ignore_sites_relation `{Host} (cfg : FTPConfig) (path : string) :
  ignoredOnSync (Some cfg) path = ignoredOnUpload cfg path ∧
  ignoredOnSave path = ignoredOnDebounce path ∧
  (ignoredOnDebounce path = true → ignoredOnUpload cfg path = true) ∧
  (default [] (ignore cfg) = [] → ignoredOnUpload cfg path = ignoredOnDebounce path) ∧
  (∀ fs now remotePath_ s,
     config s = Some cfg → ignoredOnUpload cfg path = true →
     (uploadFile fs now path remotePath_ s).2 = s).
Proof.
  repeat split.
  - apply shouldIgnoreFile_mono.
  - apply shouldIgnoreFile_empty.
  - intros fs now remotePath_ s Hcfg Hign. unfold uploadFile. rewrite Hcfg, Hign.
    destruct (isSyncingOrDownloading s); [done|].
    destruct (fs path); [|done]. cbn [negb].
    by destruct (if Js.truthy remotePath_ then _ else _).
Qed.

(** C4 (witness) *)
Lemma ignore_sites_relation_witness :
  @ignoredOnUpload demoHost demoConfig "/ws/debug.log" = true.
Proof.
  destruct (@ignore_sites_relation demoHost demoConfig "/ws/debug.log") as (_ & _ & Hmono & _).
  apply Hmono. vm_compute. reflexivity.
Defined.

(** ** The invariant of the manager *)

Lemma invariant_core s : invariant s → core s.
Proof. intros (? & ? & (? & ?) & ?). by repeat split. Qed.

Lemma invariant_intro s :
  core s →
  (∀ task, inFlight s = Some task → retries task < maxRetries) →
  drainFlagConsistent s →
  invariant s.
Proof. intros (? & ? & ?) ? ?. by repeat split. Qed.

Lemma invariant_frame s s' :
  core s' → drain s' = drain s → isProcessingQueue s' = isProcessingQueue s →
  invariant s → invariant s'.
Proof.
  intros Hcore Hd Hp (_ & _ & (_ & Hfl) & Hflag).
  apply invariant_intro; [done| |].
  - unfold inFlight in *. by rewrite Hd.
  - unfold drainFlagConsistent in *. by rewrite Hd, Hp.
Qed.

Lemma core_report r s : core s → core (report r s).
Proof. done. Qed.

Lemma core_scheduleReconnect s : core s → core (scheduleReconnect s).
Proof.
  intros Hc. unfold scheduleReconnect.
  destruct (connecting _ || _) eqn:Hguard; [done|].
  destruct (_ && _); [done|].
  apply orb_false_iff in Hguard as [_ Htimer].
  apply bool_decide_eq_false in Htimer.
  destruct Hc as (Hst & Htm & Hq). unfold_core. cbn.
  destruct (reconnectTimer s); [by destruct Htimer|].
  rewrite Htm. by repeat split.
Qed.

Lemma core_markDisconnected s : core s → core (markDisconnected s).
Proof. intros (Hst & Htm & Hq). by repeat split. Qed.

Lemma core_handleFTPError e ctx s : core s → core (handleFTPError e ctx s).
Proof.
  intros Hc. unfold handleFTPError.
  destruct (isConnectionLossCode e); [|destruct (isNetworkLossMessage _); [|done]];
    by apply core_scheduleReconnect, core_report, core_markDisconnected.
Qed.

Lemma core_cancelReconnectTimer s :
  core s →
  core (cancelReconnectTimer s) ∧
  timeouts (cancelReconnectTimer s) = [] ∧ reconnectTimer (cancelReconnectTimer s) = None.
Proof.
  intros (Hst & Htm & Hq). unfold cancelReconnectTimer. unfold_core.
  destruct (reconnectTimer s) as [handle|] eqn:Hr; cbn.
  - rewrite Htm. cbn. rewrite decide_False by tauto. by repeat split.
  - rewrite Hr. by repeat split.
Qed.

Lemma core_set_status st s :
  connected st && connecting st = false → core s → core (set_connectionStatus st s).
Proof. intros ? (Hst & Htm & Hq). by repeat split. Qed.

Lemma core_set_client c s : core s → core (set_client c s).
Proof. done. Qed.

Lemma core_connectFailed e s : core s → core (connectFailed e s).2.
Proof.
  intros Hc. unfold connectFailed. cbn [snd].
  by apply core_scheduleReconnect, core_set_client, core_report, core_set_status.
Qed.

Lemma core_connectStart s : core s → core (connectStart s).2.
Proof.
  intros Hc. unfold connectStart. destruct (config s); [|done].
  destruct (connecting _); [done|]. destruct (isConnected s); [done|].
  cbn [snd]. apply core_set_client, core_report, core_set_status; [done|].
  by apply core_cancelReconnectTimer.
Qed.

Lemma core_connectAccessSettled o s : core s → core (connectAccessSettled o s).2.
Proof.
  intros Hc. unfold connectAccessSettled.
  destruct o as [|e].
  - destruct (client s) as [c|].
    + destruct (closed c).
      * pose proof (core_connectFailed (OtherError "Connection closed immediately after access.") s Hc).
        by destruct (connectFailed _ s).
      * destruct (config s); [done|].
        pose proof (core_connectFailed (nullProperty "remotePath") s Hc).
        by destruct (connectFailed _ s).
    + pose proof (core_connectFailed (nullProperty "closed") s Hc).
      by destruct (connectFailed _ s).
  - pose proof (core_connectFailed e s Hc). by destruct (connectFailed _ s).
Qed.

(** The blocks of the connection leave the queue processor alone. *)
Lemma connectFailed_frame e s :
  drain (connectFailed e s).2 = drain s ∧
  isProcessingQueue (connectFailed e s).2 = isProcessingQueue s.
Proof.
  unfold connectFailed. cbn [snd].
  match goal with |- context [scheduleReconnect ?x] =>
    by destruct (scheduleReconnect_frame x) as (_ & _ & _ & _ & -> & _ & -> & _) end.
Qed.

Lemma connectAccessSettled_frame o s :
  drain (connectAccessSettled o s).2 = drain s ∧
  isProcessingQueue (connectAccessSettled o s).2 = isProcessingQueue s.
Proof.
  pose proof (λ e, connectFailed_frame e s) as Hf.
  unfold connectAccessSettled. destruct o as [|e].
  - destruct (client s) as [c|]; [destruct (closed c); [|destruct (config s); [done|]]|].
    all: match goal with |- context [connectFailed ?e ?s0] =>
           specialize (Hf e); by destruct (connectFailed e s0) end.
  - specialize (Hf e). by destruct (connectFailed e s).
Qed.

Lemma connectStart_invariant s : invariant s → invariant (connectStart s).2.
Proof.
  intros Hinv. destruct (connectStart_frame s) as (_ & Hd & Hp & _).
  eapply invariant_frame; [|done..]. by apply core_connectStart, invariant_core.
Qed.

Lemma connectFailed_invariant e s : invariant s → invariant (connectFailed e s).2.
Proof.
  intros Hinv. destruct (connectFailed_frame e s) as [Hd Hp].
  eapply invariant_frame; [|done..]. by apply core_connectFailed, invariant_core.
Qed.

Lemma connectAccessSettled_invariant o s : invariant s → invariant (connectAccessSettled o s).2.
Proof.
  intros Hinv. destruct (connectAccessSettled_frame o s) as [Hd Hp].
  eapply invariant_frame; [|done..]. by apply core_connectAccessSettled, invariant_core.
Qed.

Lemma handleFTPError_invariant e ctx s : invariant s → invariant (handleFTPError e ctx s).
Proof.
  intros Hinv. destruct (handleFTPError_frame e ctx s) as (_ & _ & _ & Hp & _ & Hd).
  eapply invariant_frame; [|done..]. by apply core_handleFTPError, invariant_core.
Qed.

(** *** The queue processor *)

Lemma drainFinish_invariant ok s : core s → invariant (drainFinish ok s).2.
Proof.
  intros Hc. unfold drainFinish. cbn [snd].
  assert (invariant (set_drain DrainIdle (set_isProcessingQueue false s))) as Hinv.
  { apply invariant_intro; [done| |done]. intros task. discriminate. }
  cbn. by destruct (uploadQueue s).
Qed.

Lemma drainLoop_invariant ok s :
  core s → isProcessingQueue s = true → invariant (drainLoop ok s).2.
Proof.
  intros Hc Hflag. unfold drainLoop.
  destruct (uploadQueue s) as [|task rest] eqn:Hq; [by apply drainFinish_invariant|].
  assert (retries task < maxRetries) as Htask.
  { destruct Hc as (_ & _ & Hall). apply Hall. rewrite Hq. apply list_elem_of_here. }
  assert (core (set_uploadQueue rest s)) as Hrest.
  { destruct Hc as (Hst & Htm & Hall). repeat split; try done.
    intros t Ht. apply Hall. rewrite Hq. by apply list_elem_of_further. }
  destruct (isConnected s); cbn [negb].
  - destruct (skipsEnsureDir _ _); cbn [snd];
      (apply invariant_intro; [done| |done]); cbn; intros t [= <-]; done.
  - cbn [snd]. apply connectStart_invariant.
    apply invariant_intro; [done| |done]. intros t. discriminate.
Qed.

Lemma processUploadQueue_invariant s : invariant s → invariant (processUploadQueue s).2.
Proof.
  intros Hinv. unfold processUploadQueue.
  destruct (isProcessingQueue s || _) eqn:Hguard; [done|].
  destruct (isConnected s); cbn [negb].
  - apply drainLoop_invariant; [|done]. by apply invariant_core in Hinv.
  - by apply connectStart_invariant.
Qed.

Lemma uploadFailed_invariant task ok e s :
  core s → isProcessingQueue s = true → retries task < maxRetries →
  invariant (uploadFailed task ok e s).2.
Proof.
  intros Hc Hflag Htask. unfold uploadFailed.
  set (ctx := "Upload attempt " ++ _).
  pose proof (core_handleFTPError e ctx s Hc) as Hc1.
  destruct (handleFTPError_frame e ctx s) as (_ & _ & _ & Hp & _ & _).
  destruct (_ && _) eqn:Hretry.
  - apply andb_true_iff in Hretry as [Hlt%Z.ltb_lt _]. cbn [snd].
    apply invariant_intro.
    + destruct Hc1 as (Hst & Htm & Hall). repeat split; try done.
      cbn. intros t [->|Ht]%elem_of_cons; [done | by apply Hall].
    + intros t. discriminate.
    + unfold drainFlagConsistent. cbn. by rewrite Hp.
  - destruct (clientClosed _).
    + by apply drainFinish_invariant, core_report.
    + apply drainLoop_invariant; [by apply core_report | by cbn; rewrite Hp].
Qed.

Lemma retryDelayElapsed_invariant ok s :
  core s → isProcessingQueue s = true → invariant (retryDelayElapsed ok s).2.
Proof.
  intros Hc Hflag. unfold retryDelayElapsed.
  destruct (clientClosed s); [by apply drainFinish_invariant | by apply drainLoop_invariant].
Qed.

Lemma ensureDirSettled_invariant task ok o s :
  core s → isProcessingQueue s = true → retries task < maxRetries →
  invariant (ensureDirSettled task ok o s).2.
Proof.
  intros Hc Hflag Htask. unfold ensureDirSettled. destruct o as [|e].
  - destruct (isConnected s); cbn [negb]; [|by apply uploadFailed_invariant].
    cbn [snd]. apply invariant_intro; [done| |done]. by intros t [= <-].
  - apply uploadFailed_invariant; [by apply core_handleFTPError| |done].
    by destruct (handleFTPError_frame e
                   ("ensure remote directory " ++ PathUtils.getDirectoryPath (taskRemotePath task)) s)
      as (_ & _ & _ & -> & _).
Qed.

Lemma uploadSettled_invariant task ok o s :
  core s → isProcessingQueue s = true → retries task < maxRetries →
  invariant (uploadSettled task ok o s).2.
Proof.
  intros Hc Hflag Htask. unfold uploadSettled. destruct o as [|e].
  - by apply drainLoop_invariant; [apply core_report|].
  - by apply uploadFailed_invariant.
Qed.

(** *** The remaining blocks *)

Lemma connectListSettled_invariant o now s :
  invariant s → invariant (connectListSettled o now s).2.
Proof.
  intros Hinv. unfold connectListSettled.
  destruct o as [|e]; [|by apply connectFailed_invariant].
  destruct (config s) as [cfg|]; [|by apply connectFailed_invariant].
  cbn [snd]. apply processUploadQueue_invariant.
  apply (invariant_frame s); [|done..]. by apply core_report, core_set_status, invariant_core.
Qed.

Lemma disconnect_observed s :
  core s →
  core (disconnect s) ∧ timeouts (disconnect s) = [] ∧ reconnectTimer (disconnect s) = None ∧
  drain (disconnect s) = drain s ∧ isProcessingQueue (disconnect s) = isProcessingQueue s.
Proof.
  intros Hc. unfold disconnect.
  destruct (core_cancelReconnectTimer s Hc) as (Hc1 & Htm & Hr).
  assert (drain (cancelReconnectTimer s) = drain s ∧
          isProcessingQueue (cancelReconnectTimer s) = isProcessingQueue s) as [Hd Hp].
  { unfold cancelReconnectTimer. by destruct (reconnectTimer s). }
  cbn. destruct (_ || _); cbn; repeat split; try done; apply Hc1.
Qed.

Lemma disconnect_invariant s : invariant s → invariant (disconnect s).
Proof.
  intros Hinv. destruct (disconnect_observed s (invariant_core s Hinv)) as (Hc & _ & _ & Hd & Hp).
  by eapply invariant_frame.
Qed.

Lemma setConfig_invariant c s : invariant s → invariant (setConfig c s).
Proof.
  intros Hinv. unfold setConfig. destruct c; [done|]. by apply disconnect_invariant.
Qed.

Lemma uploadFile_invariant `{Host} fs now localPath_ remotePath_ s :
  invariant s → invariant (uploadFile fs now localPath_ remotePath_ s).2.
Proof.
  intros Hinv. unfold uploadFile.
  destruct (isSyncingOrDownloading s); [done|]. destruct (config s) as [cfg|]; [|done].
  destruct (fs localPath_); [|done]. cbn [negb].
  destruct (if Js.truthy remotePath_ then _ else _) as [remote|]; [|done].
  destruct (ignoredOnUpload cfg localPath_); [done|].
  set (task := {| localPath := localPath_; taskRemotePath := remote; retries := 0; timestamp := now |}).
  assert (invariant (set_uploadQueue (uploadQueue s ++ [task]) s)) as Hinv'.
  { destruct Hinv as (Hst & Htm & (Hall & Hfl) & Hflag). repeat split; try done.
    cbn. intros t [Ht | ->%list_elem_of_singleton]%elem_of_app; [by apply Hall | done]. }
  destruct (isConnected _); cbn [negb snd];
    [by apply processUploadQueue_invariant | by apply connectStart_invariant].
Qed.

Lemma socketChanged_invariant isClosed s : invariant s → invariant (socketChanged isClosed s).
Proof. intros Hinv. unfold socketChanged. by destruct (client s). Qed.

Lemma connectionLost_invariant op s : invariant s → invariant (connectionLost op s).
Proof. intros (Hst & Htm & Hq & Hflag). repeat split; try done; apply Hq. Qed.

Lemma reconnectTimerFired_invariant handle s s' :
  invariant s → reconnectTimerFired handle s = Some s' → invariant s'.
Proof.
  intros Hinv. unfold reconnectTimerFired. case_bool_decide as Hin; [|done].
  intros [= <-].
  assert (invariant (set_reconnectTimer None (clearTimeout handle s))) as Hinv'.
  { destruct Hinv as (Hst & Htm & Hq & Hflag). repeat split; try done; try apply Hq.
    unfold oneReconnectTimer, heldTimeouts in *. cbn.
    rewrite Htm in Hin |- *. destruct (reconnectTimer s) as [h|]; [|done].
    apply list_elem_of_singleton in Hin as ->. cbn. by rewrite decide_False by tauto. }
  destruct (_ && _); [by apply connectStart_invariant | done].
Qed.

Lemma exclusiveEnter_invariant op l live s : invariant s → invariant (exclusiveEnter op l live s).
Proof.
  intros Hinv. unfold exclusiveEnter. destruct live; cbn [negb]; [|done].
  by destruct (config s).
Qed.

Lemma exclusiveLeave_invariant op l r result s :
  invariant s → invariant (exclusiveLeave op l r result s).
Proof.
  intros Hinv. unfold exclusiveLeave.
  destruct result as [|e], op; try done.
  pose proof (handleFTPError_invariant e ("download remote path " ++ r) s Hinv) as H'.
  revert H'. generalize (handleFTPError e ("download remote path " ++ r) s). by intros s1 ?.
Qed.

Lemma initial_invariant : invariant initial.
Proof. repeat split; try done. intros task Hin. by apply elem_of_nil in Hin. Qed.

Lemma step_invariant `{Host} ev s s' : invariant s → step ev s = Some s' → invariant s'.
Proof.
  intros Hinv. pose proof (invariant_core s Hinv) as Hc.
  destruct Hinv as (Hst & Htm & (Hall & Hfl) & Hflag).
  assert (invariant s) as Hinv by done.
  unfold drainFlagConsistent, inFlight in *.
  destruct ev; cbn [step].
  - intros [= <-]. by apply setConfig_invariant.
  - intros [= <-]. by apply connectStart_invariant.
  - intros [= <-]. by apply connectAccessSettled_invariant.
  - intros [= <-]. by apply connectListSettled_invariant.
  - intros [= <-]. by apply disconnect_invariant.
  - intros [= <-]. by apply socketChanged_invariant.
  - intros [= <-]. by apply uploadFile_invariant.
  - destruct (drain s) as [|task ok|task ok|ok]; try done.
    intros [= <-]. apply ensureDirSettled_invariant; auto.
  - destruct (drain s) as [|task ok|task ok|ok]; try done.
    intros [= <-]. apply uploadSettled_invariant; auto.
  - destruct (drain s) as [|task ok|task ok|ok]; try done.
    intros [= <-]. apply retryDelayElapsed_invariant; auto.
  - by apply reconnectTimerFired_invariant.
  - intros [= <-]. destruct (isConnected s); [done|].
    by apply connectStart_invariant, connectionLost_invariant.
  - intros [= <-]. by apply handleFTPError_invariant.
  - intros [= <-]. by apply exclusiveEnter_invariant.
  - intros [= <-]. by apply exclusiveLeave_invariant.
Qed.

Lemma run_invariant `{Host} evs s s' : invariant s → run evs s = Some s' → invariant s'.
Proof.
  revert s. induction evs as [|ev evs IH]; intros s Hinv; cbn.
  - by intros [= <-].
  - destruct (step ev s) as [s1|] eqn:Hstep; [|done].
    apply IH. by eapply step_invariant.
Qed.

Lemma reachable_invariant `{Host} evs s : run evs initial = Some s → invariant s.
Proof. apply run_invariant, initial_invariant. Qed.

(** ** The retry counter *)

(** C5: in every reachable state the tasks of the queue and the task in
    flight have fewer than 3 retries counted, so that a counter is at most 3
    once a failed attempt has incremented it.  When the increment reaches 3,
    the task is not put back into the queue (the queue only loses tasks, and
    every task that remains queued or in flight has fewer than 3 retries)
    and exactly one terminal failure is reported, for that task. *)
Theorem retries_never_exceed_max `{Host} (evs : list Event) (s : FTPManager) :
  run evs initial = Some s →
  (∀ task, task ∈ uploadQueue s → retries task < 3) ∧
  (∀ task, inFlight s = Some task →
     retries task < 3 ∧
     retries (bumpRetries task) ≤ 3 ∧
     ∀ ok e, retries (bumpRetries task) = 3 →
       let s' := (uploadFailed task ok e s).2 in
       uploadQueue s' `suffix_of` uploadQueue s ∧
       (∀ t, t ∈ uploadQueue s' → retries t < 3) ∧
       (∀ t, inFlight s' = Some t → retries t < 3) ∧
       uploadErrors s' =
         (uploadErrors s ++ [ShowUploadError (Path.basename (localPath task)) (message e)])%list).
Proof.
  intros Hrun. pose proof (reachable_invariant evs s Hrun) as Hinv.
  pose proof (invariant_core s Hinv) as Hc.
  destruct Hinv as (Hst & Htm & (Hall & Hfl) & Hflag).
  split; [exact Hall|].
  intros task Htask. specialize (Hfl task Htask). unfold maxRetries in Hfl.
  split; [done|]. split; [cbn; lia|].
  intros ok e Hmax s'. cbn in Hmax.
  assert (isProcessingQueue s = true) as Hp.
  { unfold drainFlagConsistent, inFlight in *. by destruct (drain s). }
  destruct (uploadFailed_invariant task ok e s Hc Hp Hfl) as (_ & _ & (Hall' & Hfl') & _).
  destruct (uploadFailed_drop_observed task ok e s) as [Hsuf Herr].
  { left. unfold maxRetries. lia. }
  by repeat split.
Qed.

(** C5 (witness): the third attempt fails.  The task in flight has 2
    retries; the increment gives 3, the task is not put back and the one
    terminal failure is reported. *)
Lemma retries_never_exceed_max_witness :
  @run demoHost demoTwoFailures initial = Some demoLastAttempt ∧
  inFlight demoLastAttempt = Some demoTaskRetried ∧
  retries demoTaskRetried = 2 ∧
  retries (bumpRetries demoTaskRetried) = 3 ∧
  uploadErrors demoLastAttempt = [] ∧
  @step demoHost (EvUploadSettled allFiles (Rejected permissionDenied)) demoLastAttempt
    = Some (uploadFailed demoTaskRetried true permissionDenied demoLastAttempt).2 ∧
  uploadQueue (uploadFailed demoTaskRetried true permissionDenied demoLastAttempt).2 = [] ∧
  uploadErrors (uploadFailed demoTaskRetried true permissionDenied demoLastAttempt).2
    = [ShowUploadError "a.ts" "Permission denied"].
Proof.
  split; [vm_compute; reflexivity|]. split; [reflexivity|].
  split; [reflexivity|]. split; [reflexivity|]. split; [reflexivity|].
  split; [reflexivity|].
  destruct (@retries_never_exceed_max demoHost demoTwoFailures demoLastAttempt)
    as (_ & Hflight); [vm_compute; reflexivity|].
  destruct (Hflight demoTaskRetried) as (_ & _ & Hdrop); [reflexivity|].
  destruct (Hdrop true permissionDenied) as (Hsuffix & _ & _ & Herrors); [reflexivity|].
  split; [|exact Herrors].
  apply suffix_nil_inv. exact Hsuffix.
Defined.

(** ** The status predicate, block by block *)

Lemma status_same s s' :
  connectionStatus s' = connectionStatus s → statusExclusive s → statusExclusive s'.
Proof. unfold statusExclusive. by intros ->. Qed.

Lemma status_report r s : statusExclusive s → statusExclusive (report r s).
Proof. done. Qed.

Lemma status_scheduleReconnect s : statusExclusive s → statusExclusive (scheduleReconnect s).
Proof. apply status_same. by destruct (scheduleReconnect_frame s) as (_ & _ & -> & _). Qed.

Lemma status_markDisconnected s : statusExclusive (markDisconnected s).
Proof. done. Qed.

Lemma status_handleFTPError e ctx s : statusExclusive s → statusExclusive (handleFTPError e ctx s).
Proof.
  intros Hs. unfold handleFTPError.
  case_split; try done; apply status_scheduleReconnect, status_report, status_markDisconnected.
Qed.

Lemma status_connectFailed e s : statusExclusive (connectFailed e s).2.
Proof. unfold connectFailed. cbn [snd]. by apply status_scheduleReconnect. Qed.

Lemma status_connectStart s : statusExclusive s → statusExclusive (connectStart s).2.
Proof. intros Hs. unfold connectStart. by case_split. Qed.

Lemma status_connectAccessSettled o s :
  statusExclusive s → statusExclusive (connectAccessSettled o s).2.
Proof.
  intros Hs. unfold connectAccessSettled.
  destruct o as [|e]; [destruct (client s) as [c|]; [destruct (closed c); [|destruct (config s); [done|]]|]|];
    match goal with |- context [connectFailed ?e ?s0] =>
      pose proof (status_connectFailed e s0); by destruct (connectFailed e s0) end.
Qed.

Lemma status_drainFinish ok s : statusExclusive s → statusExclusive (drainFinish ok s).2.
Proof. intros Hs. unfold drainFinish. cbn. by destruct (uploadQueue s). Qed.

Lemma status_drainLoop ok s : statusExclusive s → statusExclusive (drainLoop ok s).2.
Proof.
  intros Hs. unfold drainLoop. destruct (uploadQueue s) eqn:Hq; [by apply status_drainFinish|].
  destruct (negb _); cbn [snd]; [by apply status_connectStart|]. by destruct (skipsEnsureDir _ _).
Qed.

Lemma status_processUploadQueue s : statusExclusive s → statusExclusive (processUploadQueue s).2.
Proof.
  intros Hs. unfold processUploadQueue. destruct (_ || _); [done|].
  destruct (negb _); [by apply status_connectStart | by apply status_drainLoop].
Qed.

Lemma status_uploadFailed task ok e s :
  statusExclusive s → statusExclusive (uploadFailed task ok e s).2.
Proof.
  intros Hs. unfold uploadFailed. set (ctx := "Upload attempt " ++ _).
  pose proof (status_handleFTPError e ctx s Hs). destruct (_ && _); [done|].
  destruct (clientClosed _); [by apply status_drainFinish | by apply status_drainLoop].
Qed.

Lemma status_connectListSettled o now s :
  statusExclusive s → statusExclusive (connectListSettled o now s).2.
Proof.
  intros Hs. unfold connectListSettled.
  destruct o as [|e]; [|apply status_connectFailed].
  destruct (config s); [|apply status_connectFailed].
  cbn [snd]. by apply status_processUploadQueue.
Qed.

Lemma status_disconnect s : statusExclusive s → statusExclusive (disconnect s).
Proof.
  intros Hs. unfold disconnect, cancelReconnectTimer. by destruct (reconnectTimer s); cbn; case_split.
Qed.

Lemma status_uploadFile `{Host} fs now localPath_ remotePath_ s :
  statusExclusive s → statusExclusive (uploadFile fs now localPath_ remotePath_ s).2.
Proof.
  intros Hs. unfold uploadFile.
  destruct (isSyncingOrDownloading s); [done|]. destruct (config s) as [cfg|]; [|done].
  destruct (negb (fs _)); [done|].
  destruct (if Js.truthy remotePath_ then _ else _); [|done].
  destruct (ignoredOnUpload _ _); [done|].
  destruct (negb _); cbn [snd]; [by apply status_connectStart | by apply status_processUploadQueue].
Qed.

(** Every event keeps the status predicate, from any state. *)
Lemma step_statusExclusive `{Host} ev s s' :
  statusExclusive s → step ev s = Some s' → statusExclusive s'.
Proof.
  intros Hs. destruct ev; cbn [step].
  - intros [= <-]. unfold setConfig. destruct c; [done|]. by apply status_disconnect.
  - intros [= <-]. by apply status_connectStart.
  - intros [= <-]. by apply status_connectAccessSettled.
  - intros [= <-]. by apply status_connectListSettled.
  - intros [= <-]. by apply status_disconnect.
  - intros [= <-]. unfold socketChanged. by destruct (client s).
  - intros [= <-]. by apply status_uploadFile.
  - destruct (drain s) as [|task ok|task ok|ok]; try done. intros [= <-].
    unfold ensureDirSettled. destruct o as [|e].
    + destruct (negb _); [by apply status_uploadFailed | done].
    + by apply status_uploadFailed, status_handleFTPError.
  - destruct (drain s) as [|task ok|task ok|ok]; try done. intros [= <-].
    unfold uploadSettled. destruct (uploadFrom _ _ _);
      [by apply status_drainLoop | by apply status_uploadFailed].
  - destruct (drain s) as [|task ok|task ok|ok]; try done. intros [= <-].
    unfold retryDelayElapsed.
    destruct (clientClosed s); [by apply status_drainFinish | by apply status_drainLoop].
  - unfold reconnectTimerFired. case_bool_decide; [|done]. intros [= <-].
    destruct (_ && _); [by apply status_connectStart | done].
  - intros [= <-]. destruct (isConnected s); [done|]. by apply status_connectStart.
  - intros [= <-]. by apply status_handleFTPError.
  - intros [= <-]. unfold exclusiveEnter. by case_split.
  - intros [= <-]. unfold exclusiveLeave.
    destruct result as [|e], op; try done.
    pose proof (status_handleFTPError e ("download remote path " ++ remoteFolderPath) s Hs) as H'.
    revert H'. by generalize (handleFTPError e ("download remote path " ++ remoteFolderPath) s).
Qed.

(** ** Operations that await a connection, as runs of events *)

Section Runs.
Context `{Host}.

Lemma run_app evs1 evs2 s s1 :
  run evs1 s = Some s1 → run (evs1 ++ evs2) s = run evs2 s1.
Proof.
  revert s. induction evs1 as [|ev evs1 IH]; intros s; cbn.
  - by intros [= ->].
  - destruct (step ev s); [apply IH | done].
Qed.

Lemma connect_suspended_runs h s1 :
  ∃ evs, run evs s1 =
    Some (match connectAccessSettled (accessOutcome h)
                   (match accessOutcome h with
                    | Resolved => socketChanged (negb (socketOpen h)) s1
                    | Rejected _ => s1
                    end) with
          | (Returned b, s3) => (b, s3)
          | (Suspended, s3) => connectListSettled (listOutcome h) (listedAt h) s3
          end).2.
Proof.
  destruct (accessOutcome h) as [|e] eqn:Hacc.
  - set (s2 := socketChanged (negb (socketOpen h)) s1).
    destruct (connectAccessSettled Resolved s2) as [[b|] s3] eqn:Hsettled.
    + exists [EvSocket (negb (socketOpen h)); EvAccessSettled Resolved]. cbn [run step]. fold s2.
      by rewrite Hsettled.
    + exists [EvSocket (negb (socketOpen h)); EvAccessSettled Resolved;
              EvListSettled (listOutcome h) (listedAt h)]. cbn [run step]. fold s2.
      by rewrite Hsettled.
  - destruct (connectAccessSettled (Rejected e) s1) as [[b|] s3] eqn:Hsettled.
    + exists [EvAccessSettled (Rejected e)]. cbn [run step]. by rewrite Hsettled.
    + exists [EvAccessSettled (Rejected e); EvListSettled (listOutcome h) (listedAt h)]. cbn [run step].
      by rewrite Hsettled.
Qed.

Lemma connect_runs h s : ∃ evs, run evs s = Some (connect h s).2.
Proof.
  unfold connect. destruct (connectStart s) as [[b|] s1] eqn:Hstart.
  - exists [EvConnect]. cbn [run step]. by rewrite Hstart.
  - destruct (connect_suspended_runs h s1) as [evs Hevs].
    exists (EvConnect :: evs). cbn [run step]. by rewrite Hstart.
Qed.

Lemma checkConnection_runs op h s : ∃ evs, run evs s = Some (checkConnection op h s).2.
Proof.
  unfold checkConnection. destruct (isConnected s) eqn:Hlive.
  - by exists [].
  - unfold connect. destruct (connectStart (connectionLost op s)) as [[b|] s1] eqn:Hstart.
    + exists [EvCheckConnection op]. cbn [run step]. by rewrite Hlive, Hstart.
    + destruct (connect_suspended_runs h s1) as [evs Hevs].
      exists (EvCheckConnection op :: evs). cbn [run step]. by rewrite Hlive, Hstart.
Qed.

Lemma deleteFile_runs remotePath_ h removed s :
  ∃ evs, run evs s = Some (deleteFile remotePath_ h removed s).2.
Proof.
  unfold deleteFile. destruct (checkConnection_runs "deleteFile" h s) as [evs Hevs].
  destruct (checkConnection "deleteFile" h s) as [live s1]. cbn [snd] in Hevs.
  destruct live; cbn [negb]; [|by exists evs].
  destruct (config s1); [|by exists evs].
  destruct removed as [|e]; [by exists evs|].
  destruct (isNotFound e); [by exists evs|].
  exists (evs ++ [EvHandleError e ("delete remote file " ++ Path.basename remotePath_)])%list.
  by rewrite (run_app _ _ _ _ Hevs).
Qed.

Lemma deleteDirectory_runs remotePath_ h removed s :
  ∃ evs, run evs s = Some (deleteDirectory remotePath_ h removed s).2.
Proof.
  unfold deleteDirectory. destruct (checkConnection_runs "deleteDirectory" h s) as [evs Hevs].
  destruct (checkConnection "deleteDirectory" h s) as [live s1]. cbn [snd] in Hevs.
  destruct live; cbn [negb]; [|by exists evs].
  destruct (config s1); [|by exists evs].
  destruct removed as [|e]; [by exists evs|].
  destruct (isNotFound e); [by exists evs|].
  exists (evs ++ [EvHandleError e ("delete remote directory " ++ Path.basename remotePath_)])%list.
  by rewrite (run_app _ _ _ _ Hevs).
Qed.

End Runs.

(** The delete operations lead from a state with the invariant to a state
    with the invariant. *)
Lemma delete_keeps_invariant `{Host} remotePath_ h removed s :
  invariant s →
  invariant (deleteFile remotePath_ h removed s).2 ∧
  invariant (deleteDirectory remotePath_ h removed s).2.
Proof.
  intros Hinv. split.
  - destruct (deleteFile_runs remotePath_ h removed s) as [evs Hevs].
    by apply (run_invariant evs s).
  - destruct (deleteDirectory_runs remotePath_ h removed s) as [evs Hevs].
    by apply (run_invariant evs s).
Qed.

(** ** The connection status *)

Lemma run_statusExclusive `{Host} evs s s' :
  statusExclusive s → run evs s = Some s' → statusExclusive s'.
Proof.
  revert s. induction evs as [|ev evs IH]; intros s Hs; cbn.
  - by intros [= <-].
  - destruct (step ev s) as [s1|] eqn:Hstep; [|done].
    apply IH. by eapply step_statusExclusive.
Qed.

(** C6: in every reachable state [connected] and [connecting] are not both
    set.  The predicate holds initially and every event keeps it, from any
    state that has it; so do, in particular, the start of [connect], its
    success, its failure, the error handler, [disconnect], and a [connect]
    run to completion. *)
Theorem status_never_connected_and_connecting `{Host} (evs : list Event) (s : FTPManager) :
  run evs initial = Some s →
  statusExclusive s ∧
  (∀ s0 ev s1, statusExclusive s0 → step ev s0 = Some s1 → statusExclusive s1) ∧
  (∀ s0, statusExclusive s0 →
     statusExclusive (connectStart s0).2 ∧
     (∀ o now, statusExclusive (connectListSettled o now s0).2) ∧
     (∀ e, statusExclusive (connectFailed e s0).2) ∧
     (∀ e operationContext, statusExclusive (handleFTPError e operationContext s0)) ∧
     statusExclusive (disconnect s0) ∧
     (∀ h, statusExclusive (connect h s0).2)).
Proof.
  intros Hrun. split; [by apply (run_statusExclusive evs initial)|].
  split; [intros s0 ev s1; apply step_statusExclusive|].
  intros s0 Hs0. repeat split.
  - by apply status_connectStart.
  - intros o now. by apply status_connectListSettled.
  - intros e. apply status_connectFailed.
  - intros e ctx. by apply status_handleFTPError.
  - by apply status_disconnect.
  - intros h. destruct (connect_runs h s0) as [evs' Hevs'].
    by apply (run_statusExclusive evs' s0).
Qed.

(** C6 (witness) *)
Lemma status_never_connected_and_connecting_witness :
  @run demoHost demoConnectEvents initial = Some demoConnected ∧
  statusExclusive demoConnected.
Proof.
  split; [vm_compute; reflexivity|].
  apply (@status_never_connected_and_connecting demoHost demoConnectEvents demoConnected).
  vm_compute; reflexivity.
Defined.

(** ** The reconnect timer *)

Lemma scheduleReconnect_noop s :
  connecting (connectionStatus s) = true ∨ is_Some (reconnectTimer s) →
  scheduleReconnect s = s.
Proof.
  intros Hbusy. unfold scheduleReconnect.
  assert (connecting (connectionStatus s) || bool_decide (is_Some (reconnectTimer s)) = true) as ->;
    [|done].
  destruct Hbusy as [-> | Htimer]; [done|].
  rewrite (bool_decide_eq_true_2 _ Htimer). apply orb_true_r.
Qed.

Lemma connectStart_cancels s s' :
  core s → connectStart s = (Suspended, s') → timeouts s' = [] ∧ reconnectTimer s' = None.
Proof.
  intros Hc. unfold connectStart. destruct (config s); [|done].
  destruct (connecting _); [done|]. destruct (isConnected s); [done|].
  intros [= <-]. cbn. by destruct (core_cancelReconnectTimer s Hc) as (_ & ? & ?).
Qed.

(** C10: in every reachable state the armed reconnect timeouts are exactly
    the one held in [reconnectTimer], so at most one is armed;
    [scheduleReconnect] changes nothing while a timer is held or a connect
    is in progress; a [connect] that goes on to the handshake, and every
    [disconnect], leave no timeout armed. *)
Theorem at_most_one_reconnect_timer `{Host} (evs : list Event) (s : FTPManager) :
  run evs initial = Some s →
  timeouts s = heldTimeouts s ∧
  (length (timeouts s) ≤ 1)%nat ∧
  (connecting (connectionStatus s) = true ∨ is_Some (reconnectTimer s) →
     scheduleReconnect s = s) ∧
  (∀ s', connectStart s = (Suspended, s') → timeouts s' = [] ∧ reconnectTimer s' = None) ∧
  (timeouts (disconnect s) = [] ∧ reconnectTimer (disconnect s) = None).
Proof.
  intros Hrun. pose proof (reachable_invariant evs s Hrun) as Hinv.
  pose proof (invariant_core s Hinv) as Hc.
  destruct Hinv as (_ & Htm & _).
  split; [exact Htm|]. split.
  { rewrite Htm. unfold heldTimeouts. destruct (reconnectTimer s); cbn; lia. }
  split; [apply scheduleReconnect_noop|].
  split; [intros s'; by apply connectStart_cancels|].
  by destruct (disconnect_observed s Hc) as (_ & ? & ? & _).
Qed.

(** C10 (witness) *)
Lemma at_most_one_reconnect_timer_witness :
  @run demoHost demoReconnectEvents initial = Some demoReconnecting ∧
  timeouts demoReconnecting = [O] ∧
  scheduleReconnect demoReconnecting = demoReconnecting.
Proof.
  split; [vm_compute; reflexivity|].
  destruct (@at_most_one_reconnect_timer demoHost demoReconnectEvents demoReconnecting)
    as (Htm & _ & Hnoop & _); [vm_compute; reflexivity|].
  split; [exact Htm|]. apply Hnoop. right. by eexists.
Defined.

(** ** The change coalescer *)

Section Watcher.
Context `{Host}.

Lemma elem_of_clearTimeout handle entry s :
  entry ∈ FileWatcher.timeouts (FileWatcher.clearTimeout handle s) ↔
  entry ∈ FileWatcher.timeouts s ∧ entry.1 ≠ handle.
Proof. unfold FileWatcher.clearTimeout. cbn. rewrite list_elem_of_filter. tauto. Qed.

(** Clearing the timeout of a path and forgetting the path go together. *)
Lemma watcherInvariant_forget filePath handle s :
  watcherInvariant s → FileWatcher.uploadDebounce s !! filePath = Some handle →
  watcherInvariant (FileWatcher.set_uploadDebounce (delete filePath (FileWatcher.uploadDebounce s))
                (FileWatcher.clearTimeout handle s)).
Proof.
  intros (HA & HB & HC) Hlook. split; [|split].
  - intros h q. cbn. rewrite list_elem_of_filter. cbn. rewrite HA. split.
    + intros [Hne Hq]. rewrite lookup_delete_ne; [done|].
      intros <-. congruence.
    + intros Hq. destruct (decide (filePath = q)) as [<-|Hne].
      * by rewrite lookup_delete_eq in Hq.
      * rewrite lookup_delete_ne in Hq by done. split; [|done].
        intros ->. apply Hne. apply (HC handle); by apply HA.
  - intros h q. cbn. rewrite list_elem_of_filter. intros [_ Hin]. by apply HB.
  - intros h p q. cbn. rewrite !list_elem_of_filter. intros [_ Hp] [_ Hq]. by apply (HC h).
Qed.

Lemma watcherInvariant_call c s : watcherInvariant s → watcherInvariant (FileWatcher.call c s).
Proof. done. Qed.

Lemma stop_watcherInvariant s : watcherInvariant s → watcherInvariant (FileWatcher.stop s).
Proof.
  intros (HA & HB & HC). unfold FileWatcher.stop. cbn.
  assert (filter (λ entry : nat * string, entry.1 ∉ (map_to_list (FileWatcher.uploadDebounce s)).*2)
                 (FileWatcher.timeouts s) = []) as ->.
  { apply elem_of_nil_inv. intros [h p] [Hnot Hin]%list_elem_of_filter. apply Hnot. cbn.
    apply HA in Hin. apply list_elem_of_fmap. exists (p, h). split; [done|].
    by apply elem_of_map_to_list. }
  split; [|split].
  - intros h p. cbn. rewrite lookup_empty. split; [by intros ?%elem_of_nil | done].
  - intros h p. cbn. by intros ?%elem_of_nil.
  - intros h p q. cbn. by intros ?%elem_of_nil.
Qed.

Lemma start_watcherInvariant s : watcherInvariant s → watcherInvariant (FileWatcher.start s).
Proof.
  intros Hinv. unfold FileWatcher.start. destruct (FileWatcher.config s) as [cfg|]; [|done].
  destruct (FileWatcher.isWatching s); [done|]. destruct (negb _); [done|].
  unfold FileWatcher.startSaveWatcher, FileWatcher.startFileSystemWatcher.
  destruct (negb (uploadOnSave cfg)); destruct (_ && _); done.
Qed.

Lemma setConfig_watcherInvariant c s : watcherInvariant s → watcherInvariant (FileWatcher.setConfig c s).
Proof.
  intros Hinv. unfold FileWatcher.setConfig, FileWatcher.restart.
  assert (watcherInvariant (FileWatcher.stop (FileWatcher.set_config c s))) as Hstop
    by by apply stop_watcherInvariant.
  destruct (FileWatcher.config _); [by apply start_watcherInvariant | done].
Qed.

Lemma debounceUpload_watcherInvariant filePath s :
  watcherInvariant s → watcherInvariant (FileWatcher.debounceUpload filePath s).
Proof.
  intros Hinv. unfold FileWatcher.debounceUpload.
  destruct (PathUtils.isInWorkspace filePath) eqn:Hws; [|done]. cbn [negb].
  destruct (ignoredOnDebounce filePath) eqn:Hign; [done|].
  set (s1 := match FileWatcher.uploadDebounce s !! filePath with
             | Some existingTimeout => FileWatcher.clearTimeout existingTimeout s
             | None => s
             end).
  assert (FileWatcher.nextTimeout s1 = FileWatcher.nextTimeout s ∧
          FileWatcher.uploadDebounce s1 = FileWatcher.uploadDebounce s ∧
          ∀ h q, (h, q) ∈ FileWatcher.timeouts s1 ↔
                 (h, q) ∈ FileWatcher.timeouts s ∧ q ≠ filePath) as (Hn & Hm & Ht).
  { destruct Hinv as (HA & HB & HC). subst s1.
    destruct (FileWatcher.uploadDebounce s !! filePath) as [h0|] eqn:Hlook.
    - split; [done|]. split; [done|]. intros h q. split.
      + intros [Hin Hne]%elem_of_clearTimeout. split; [done|].
        intros ->. apply Hne. cbn. apply HA in Hin. congruence.
      + intros [Hin Hne]. apply elem_of_clearTimeout. split; [done|]. cbn.
        intros ->. apply Hne. apply (HC h0); [done | by apply HA].
    - split; [done|]. split; [done|]. intros h q. split; [|tauto].
      intros Hin. split; [done|]. intros ->. apply HA in Hin. congruence. }
  destruct Hinv as (HA & HB & HC).
  split; [|split]; cbn -[ignoredOnDebounce PathUtils.isInWorkspace]; rewrite ?Hn, ?Hm.
  - intros h q. rewrite elem_of_app, list_elem_of_singleton, Ht, HA. split.
    + intros [[Hq Hne] | [= -> ->]]; [by rewrite lookup_insert_ne | by rewrite lookup_insert_eq].
    + destruct (decide (filePath = q)) as [<-|Hne].
      * rewrite lookup_insert_eq. intros [= <-]. by right.
      * rewrite lookup_insert_ne by done. intros Hq. by left.
  - intros h q. rewrite elem_of_app, list_elem_of_singleton, Ht.
    intros [[Hin _] | [= -> ->]].
    + destruct (HB h q Hin) as (? & ? & ?). repeat split; try done. lia.
    + repeat split; try done. lia.
  - intros h p q. rewrite !elem_of_app, !list_elem_of_singleton, !Ht.
    intros [[Hp _] | Hp] [[Hq _] | Hq]; simplify_eq; try done.
    + by apply (HC h).
    + destruct (HB _ _ Hp) as [Hlt _]. lia.
    + destruct (HB _ _ Hq) as [Hlt _]. lia.
Qed.

Lemma documentSaved_watcherInvariant filePath s :
  watcherInvariant s → watcherInvariant (FileWatcher.documentSaved filePath s).
Proof.
  intros Hinv. unfold FileWatcher.documentSaved.
  destruct (negb _); [done|]. destruct (ignoredOnSave filePath); [done|].
  apply watcherInvariant_call.
  destruct (FileWatcher.uploadDebounce s !! filePath) eqn:Hlook; [|done].
  by apply watcherInvariant_forget.
Qed.

Lemma handleFileDelete_watcherInvariant filePath s :
  watcherInvariant s → watcherInvariant (FileWatcher.handleFileDelete filePath s).
Proof.
  intros Hinv. unfold FileWatcher.handleFileDelete.
  destruct (FileWatcher.config s); [|done]. destruct (negb _); [done|].
  by destruct (negb _).
Qed.

Lemma handleDirectoryDelete_watcherInvariant dirPath s :
  watcherInvariant s → watcherInvariant (FileWatcher.handleDirectoryDelete dirPath s).
Proof.
  intros Hinv. unfold FileWatcher.handleDirectoryDelete.
  destruct (FileWatcher.config s); [|done]. destruct (negb _); [done|].
  by destruct (negb _).
Qed.

Lemma step_watcherInvariant ev s s' :
  watcherInvariant s → FileWatcher.step ev s = Some s' → watcherInvariant s'.
Proof.
  intros Hinv. destruct ev; cbn [FileWatcher.step].
  - intros [= <-]. by apply setConfig_watcherInvariant.
  - intros [= <-]. by apply start_watcherInvariant.
  - intros [= <-]. by apply stop_watcherInvariant.
  - destruct (FileWatcher.listens _ _); [|done]. intros [= <-]. by apply debounceUpload_watcherInvariant.
  - destruct (FileWatcher.listens _ _); [|done]. intros [= <-]. by apply debounceUpload_watcherInvariant.
  - destruct (FileWatcher.listens _ _); [|done]. intros [= <-]. by apply handleFileDelete_watcherInvariant.
  - destruct (FileWatcher.listens _ _); [|done]. intros [= <-].
    by apply handleDirectoryDelete_watcherInvariant.
  - destruct (FileWatcher.saveWatcher s); [|done]. intros [= <-]. by apply documentSaved_watcherInvariant.
  - destruct (list_find _ _) as [[i [h p]]|] eqn:Hfind; [|done]. intros [= <-].
    apply list_find_Some in Hfind as (Hi & Hh & _). cbn in Hh. subst h.
    apply watcherInvariant_call.
    change (watcherInvariant (FileWatcher.set_uploadDebounce
              (delete p (FileWatcher.uploadDebounce s)) (FileWatcher.clearTimeout handle s))).
    apply watcherInvariant_forget; [done|].
    destruct Hinv as (HA & _). apply HA. by eapply list_elem_of_lookup_2.
Qed.

Lemma run_watcherInvariant evs s s' :
  watcherInvariant s → FileWatcher.run evs s = Some s' → watcherInvariant s'.
Proof.
  revert s. induction evs as [|ev evs IH]; intros s Hinv; cbn.
  - by intros [= <-].
  - destruct (FileWatcher.step ev s) as [s1|] eqn:Hstep; [|done].
    apply IH. by eapply step_watcherInvariant.
Qed.

Lemma initial_watcherInvariant : watcherInvariant FileWatcher.initial.
Proof.
  split; [|split]; cbn.
  - intros h p. rewrite lookup_empty. split; [by intros ?%elem_of_nil | done].
  - intros h p. by intros ?%elem_of_nil.
  - intros h p q. by intros ?%elem_of_nil.
Qed.

(** *** A cleared timeout stays cleared *)

Lemma grows_refl s : grows s s.
Proof. split; [lia | tauto]. Qed.

Lemma grows_clearTimeout handle s : grows s (FileWatcher.clearTimeout handle s).
Proof. split; [done|]. intros h p [? _]%elem_of_clearTimeout. by left. Qed.

Lemma grows_call c s s1 : grows s s1 → grows s (FileWatcher.call c s1).
Proof. done. Qed.

Lemma stop_grows s : grows s (FileWatcher.stop s).
Proof.
  split; [done|]. intros h p. unfold FileWatcher.stop. cbn.
  intros [_ ?]%list_elem_of_filter. by left.
Qed.

Lemma start_frame s :
  FileWatcher.timeouts (FileWatcher.start s) = FileWatcher.timeouts s ∧
  FileWatcher.nextTimeout (FileWatcher.start s) = FileWatcher.nextTimeout s.
Proof.
  unfold FileWatcher.start. destruct (FileWatcher.config s) as [cfg|]; [|done].
  destruct (FileWatcher.isWatching s); [done|]. destruct (negb _); [done|].
  unfold FileWatcher.startSaveWatcher, FileWatcher.startFileSystemWatcher.
  destruct (negb (uploadOnSave cfg)); destruct (_ && _); done.
Qed.

Lemma setConfig_grows c s : grows s (FileWatcher.setConfig c s).
Proof.
  unfold FileWatcher.setConfig, FileWatcher.restart.
  pose proof (stop_grows (FileWatcher.set_config c s)) as Hstop.
  destruct (FileWatcher.config _); [|done].
  destruct (start_frame (FileWatcher.stop (FileWatcher.set_config c s))) as [Ht Hn].
  unfold grows in *. by rewrite Ht, Hn.
Qed.

Lemma debounceUpload_grows filePath s : grows s (FileWatcher.debounceUpload filePath s).
Proof.
  unfold FileWatcher.debounceUpload.
  destruct (negb _); [apply grows_refl|]. destruct (ignoredOnDebounce _); [apply grows_refl|].
  set (s1 := match FileWatcher.uploadDebounce s !! filePath with
             | Some existingTimeout => FileWatcher.clearTimeout existingTimeout s
             | None => s
             end).
  assert (grows s s1) as [Hn Ht].
  { subst s1. destruct (_ !! _); [apply grows_clearTimeout | apply grows_refl]. }
  assert (FileWatcher.nextTimeout s1 = FileWatcher.nextTimeout s) as Heq.
  { subst s1. by destruct (_ !! _). }
  split; cbn; [lia|].
  intros h p [Hin | [= -> ->]%list_elem_of_singleton]%elem_of_app; [by apply Ht | by right].
Qed.

Lemma documentSaved_grows filePath s : grows s (FileWatcher.documentSaved filePath s).
Proof.
  unfold FileWatcher.documentSaved.
  destruct (negb _); [apply grows_refl|]. destruct (ignoredOnSave _); [apply grows_refl|].
  apply grows_call.
  destruct (_ !! _); [apply (grows_clearTimeout _ s) | apply grows_refl].
Qed.

Lemma step_grows ev s s' : FileWatcher.step ev s = Some s' → grows s s'.
Proof.
  destruct ev; cbn [FileWatcher.step].
  - intros [= <-]. apply setConfig_grows.
  - intros [= <-]. destruct (start_frame s) as [Ht Hn]. unfold grows. rewrite Ht, Hn.
    apply grows_refl.
  - intros [= <-]. apply stop_grows.
  - destruct (FileWatcher.listens _ _); [|done]. intros [= <-]. apply debounceUpload_grows.
  - destruct (FileWatcher.listens _ _); [|done]. intros [= <-]. apply debounceUpload_grows.
  - destruct (FileWatcher.listens _ _); [|done]. intros [= <-].
    unfold FileWatcher.handleFileDelete. destruct (FileWatcher.config s); [|apply grows_refl].
    destruct (negb _); [apply grows_refl|].
    destruct (negb _); [|apply grows_call]; apply grows_refl.
  - destruct (FileWatcher.listens _ _); [|done]. intros [= <-].
    unfold FileWatcher.handleDirectoryDelete. destruct (FileWatcher.config s); [|apply grows_refl].
    destruct (negb _); [apply grows_refl|].
    destruct (negb _); [|apply grows_call]; apply grows_refl.
  - destruct (FileWatcher.saveWatcher s); [|done]. intros [= <-]. apply documentSaved_grows.
  - destruct (list_find _ _) as [[i [h p]]|]; [|done]. intros [= <-].
    apply grows_call, (grows_clearTimeout handle s).
Qed.

Lemma step_retired handle ev s s' :
  retired handle s → FileWatcher.step ev s = Some s' → retired handle s'.
Proof.
  intros [Hlt Hnot] [Hn Ht]%step_grows. split; [lia|].
  intros [p Hin]. destruct (Ht _ _ Hin) as [Hold | ->]; [|lia].
  apply Hnot. by exists p.
Qed.

Lemma run_retired handle evs s s' :
  retired handle s → FileWatcher.run evs s = Some s' → retired handle s'.
Proof.
  revert s. induction evs as [|ev evs IH]; intros s Hret; cbn.
  - by intros [= <-].
  - destruct (FileWatcher.step ev s) as [s1|] eqn:Hstep; [|done].
    apply IH. by eapply step_retired.
Qed.

Lemma retired_never_fires handle s :
  ¬ armed handle s → FileWatcher.step (FileWatcher.TimeoutFired handle) s = None.
Proof.
  intros Hnot. cbn. destruct (list_find _ _) as [[i [h p]]|] eqn:Hfind; [|done].
  apply list_find_Some in Hfind as (Hi & Hh & _). cbn in Hh. subst h.
  destruct Hnot. exists p. by eapply list_elem_of_lookup_2.
Qed.


End Watcher.

(** ** The manager as its callers see it *)

Section Session.
Context `{Host}.

Lemma grown_refl s : grown s s.
Proof. unfold grown. reflexivity. Qed.

Lemma grown_trans s1 s2 s3 : grown s1 s2 → grown s2 s3 → grown s1 s3.
Proof. unfold grown. by etrans. Qed.

Lemma grown_report r s : grown s (report r s).
Proof. unfold grown. cbn. by apply prefix_app_r. Qed.

Lemma grown_same s s' : reports s' = reports s → grown s s'.
Proof. unfold grown. by intros ->. Qed.

Lemma grown_scheduleReconnect s : grown s (scheduleReconnect s).
Proof. apply grown_same. by destruct (scheduleReconnect_frame s) as (_&_&_&_&_&_&_&->). Qed.

Lemma grown_handleFTPError e ctx s : grown s (handleFTPError e ctx s).
Proof.
  unfold handleFTPError.
  destruct (isConnectionLossCode e); [|destruct (isNetworkLossMessage _); [|apply grown_refl]];
    (eapply grown_trans; [|apply grown_scheduleReconnect]);
    (eapply grown_trans; [|apply grown_report]); by apply grown_same.
Qed.

Lemma grown_connectStart s : grown s (connectStart s).2.
Proof.
  unfold connectStart. destruct (config s); [|apply grown_refl].
  destruct (connecting _); [apply grown_refl|]. destruct (isConnected s); [apply grown_refl|].
  cbn. unfold grown. cbn. apply prefix_app_r.
  unfold cancelReconnectTimer. by destruct (reconnectTimer s).
Qed.

Lemma grown_drainFinish ok s : grown s (drainFinish ok s).2.
Proof.
  unfold drainFinish. cbn. destruct (uploadQueue s); [|by apply grown_same].
  unfold grown. cbn. by apply prefix_app_r.
Qed.

Lemma grown_drainLoop ok s : grown s (drainLoop ok s).2.
Proof.
  unfold drainLoop. destruct (uploadQueue s) as [|task rest].
  - apply grown_drainFinish.
  - destruct (isConnected s); cbn [negb].
    + destruct (skipsEnsureDir _ _); cbn; unfold grown; cbn; by apply prefix_app_r.
    + cbn [snd]. eapply grown_trans; [|apply grown_connectStart]. by apply grown_same.
Qed.

Lemma reportedBetween_grown s s1 s' r :
  reports s1 = (reports s ++ [r])%list → grown s1 s' → reportedBetween s s' r.
Proof.
  intros Hr [k Hk]. exists [], k. rewrite Hk, Hr. by rewrite <- app_assoc.
Qed.

Lemma reportedBetween_grown_l s s0 s1 s' r :
  grown s s0 → reports s1 = (reports s0 ++ [r])%list → grown s1 s' → reportedBetween s s' r.
Proof.
  intros [k0 Hk0] Hr [k Hk]. exists k0, k. rewrite Hk, Hr, Hk0. by rewrite <- !app_assoc.
Qed.

(** *** What the blocks of the queue processor leave pending *)

Lemma pending_connectStart s : pending (connectStart s).2 = pending s.
Proof.
  unfold pending, inFlight. by destruct (connectStart_frame s) as (-> & -> & _).
Qed.

Lemma pending_drainFinish ok s : pending (drainFinish ok s).2 = uploadQueue s.
Proof. unfold drainFinish, pending. cbn. destruct (uploadQueue s) eqn:Hq; cbn; by rewrite ?Hq. Qed.

Lemma pending_drainLoop ok s : pending (drainLoop ok s).2 = uploadQueue s.
Proof.
  unfold drainLoop. destruct (uploadQueue s) as [|task rest] eqn:Hq.
  - rewrite pending_drainFinish. done.
  - destruct (isConnected s); cbn [negb].
    + by destruct (skipsEnsureDir _ _).
    + cbn [snd]. rewrite pending_connectStart. unfold pending. cbn. done.
Qed.

Lemma pending_processUploadQueue s :
  drainFlagConsistent s → pending (processUploadQueue s).2 = pending s.
Proof.
  intros Hflag. unfold processUploadQueue.
  destruct (isProcessingQueue s) eqn:Hp; cbn [orb]; [done|].
  case_bool_decide; [done|].
  assert (pending s = uploadQueue s) as Hpend.
  { unfold pending, inFlight. unfold drainFlagConsistent in Hflag. rewrite Hp in Hflag.
    by destruct (drain s). }
  destruct (isConnected s); cbn [negb].
  - rewrite pending_drainLoop. cbn. done.
  - cbn [snd]. apply pending_connectStart.
Qed.

Lemma pending_handleFTPError e ctx s : pending (handleFTPError e ctx s) = pending s.
Proof.
  unfold pending, inFlight. by destruct (handleFTPError_frame e ctx s) as (_&_&->&_&_&->).
Qed.

Lemma QueueChange_uploadFailed task ok e s0 s :
  inFlight s0 = Some task → uploadQueue s = uploadQueue s0 → grown s0 s →
  QueueChange s0 (uploadFailed task ok e s).2.
Proof.
  intros Hfl Hq Hgrow.
  assert (pending s0 = task :: uploadQueue s) as Hpend.
  { unfold pending. by rewrite Hfl, Hq. }
  unfold uploadFailed.
  set (ctx := "Upload attempt " ++ _).
  destruct (_ && _).
  - eapply QueueRetried; [done|]. cbn.
    by destruct (handleFTPError_frame e ctx s) as (_&_&->&_).
  - set (r := ShowUploadError _ _). set (s2 := report r _).
    assert (uploadQueue s2 = uploadQueue s) as Hq2.
    { subst s2. cbn. by destruct (handleFTPError_frame e ctx s) as (_&_&->&_). }
    eapply (QueueSettled _ _ task (uploadQueue s) r); [done| |right; by eexists|].
    + destruct (clientClosed s2); [rewrite pending_drainFinish|rewrite pending_drainLoop]; done.
    + eapply (reportedBetween_grown_l s0 (handleFTPError e ctx s) s2).
      * eapply grown_trans; [done|apply grown_handleFTPError].
      * done.
      * destruct (clientClosed s2); [apply grown_drainFinish|apply grown_drainLoop].
Qed.

Lemma pending_same s s' :
  uploadQueue s' = uploadQueue s → drain s' = drain s → pending s' = pending s.
Proof. unfold pending, inFlight. by intros -> ->. Qed.

Lemma disconnect_frame s :
  uploadQueue (disconnect s) = uploadQueue s ∧ drain (disconnect s) = drain s ∧
  config (disconnect s) = config s ∧ isProcessingQueue (disconnect s) = isProcessingQueue s ∧
  isSyncingOrDownloading (disconnect s) = isSyncingOrDownloading s.
Proof.
  unfold disconnect, cancelReconnectTimer.
  destruct (reconnectTimer s); cbn; destruct (_ || _); done.
Qed.

Lemma connectFailed_pending e s : pending (connectFailed e s).2 = pending s.
Proof.
  unfold connectFailed. cbn [snd]. apply pending_same.
  - by destruct (scheduleReconnect_frame
      (set_client None (report (UpdateConnectionStatus
         {| connected := false; connecting := false; error := Some (message e);
            lastConnected := None; statusHost := None |})
         (set_connectionStatus {| connected := false; connecting := false; error := Some (message e);
            lastConnected := None; statusHost := None |} s)))) as (_&_&_&->&_).
  - match goal with |- context [scheduleReconnect ?x] =>
      by destruct (scheduleReconnect_frame x) as (_&_&_&_&_&_&->&_) end.
Qed.

Lemma connectAccessSettled_cases o s :
  (connectAccessSettled o s).2 = s ∨ ∃ e, (connectAccessSettled o s).2 = (connectFailed e s).2.
Proof.
  unfold connectAccessSettled. destruct o as [|e]; [|right; exists e; by destruct (connectFailed e s)].
  destruct (client s) as [c|]; [destruct (closed c); [|destruct (config s); [by left|]]|].
  all: right; match goal with |- context [connectFailed ?e ?s0] =>
         exists e; by destruct (connectFailed e s0) end.
Qed.

Lemma step_QueueChange ev s s' :
  drainFlagConsistent s → step ev s = Some s' → QueueChange s s'.
Proof.
  intros Hflag Hstep. destruct ev; cbn in Hstep.
  - (* setConfig *)
    simplify_eq. apply QueueKept. unfold setConfig. destruct c; [done|].
    destruct (disconnect_frame (set_config None s)) as (Hq & Hd & _).
    apply pending_same; [exact Hq|exact Hd].
  - simplify_eq. apply QueueKept, pending_connectStart.
  - (* access settled *)
    simplify_eq. apply QueueKept.
    destruct (connectAccessSettled_cases o s) as [-> | [e ->]]; [done|apply connectFailed_pending].
  - (* list settled *)
    simplify_eq. apply QueueKept. unfold connectListSettled.
    destruct o; [|apply connectFailed_pending].
    destruct (config s); [|apply connectFailed_pending].
    cbn [snd]. rewrite pending_processUploadQueue; done.
  - simplify_eq. apply QueueKept.
    destruct (disconnect_frame s) as (Hq & Hd & _). by apply pending_same.
  - simplify_eq. apply QueueKept. unfold socketChanged. by destruct (client s).
  - (* uploadFile *)
    simplify_eq. unfold uploadFile.
    destruct (isSyncingOrDownloading s); [by apply QueueKept|].
    destruct (config s) as [cfg|]; [|by apply QueueKept].
    destruct (fs localPath_); cbn [negb]; [|by apply QueueKept].
    destruct (if Js.truthy remotePath_ then _ else _) as [remote|]; [|by apply QueueKept].
    destruct (ignoredOnUpload cfg localPath_); [by apply QueueKept|].
    set (task := {| localPath := localPath_ |}).
    set (s1 := set_uploadQueue _ s).
    assert (pending s1 = (pending s ++ [task])%list) as Hp.
    { unfold pending, inFlight. cbn. by destruct (drain s). }
    apply (QueueAppended _ _ task); [|done].
    destruct (isConnected s1); cbn [negb snd].
    + by rewrite pending_processUploadQueue.
    + by rewrite pending_connectStart.
  - (* ensureDir settled *)
    destruct (drain s) as [|task ok|task ok|ok] eqn:Hd; simplify_eq.
    unfold ensureDirSettled. destruct o.
    + destruct (isConnected s); cbn [negb].
      * apply QueueKept. unfold pending, inFlight. cbn. by rewrite Hd.
      * apply QueueChange_uploadFailed; [unfold inFlight; by rewrite Hd|done|apply grown_refl].
    + apply QueueChange_uploadFailed; [unfold inFlight; by rewrite Hd| |apply grown_handleFTPError].
      by destruct (handleFTPError_frame e
        ("ensure remote directory " ++ PathUtils.getDirectoryPath (taskRemotePath task)) s)
        as (_&_&->&_).
  - (* upload settled *)
    destruct (drain s) as [|task ok|task ok|ok] eqn:Hd; simplify_eq.
    unfold uploadSettled. destruct (uploadFrom fs task server).
    + eapply (QueueSettled _ _ task (uploadQueue s)).
      * unfold pending, inFlight. by rewrite Hd.
      * by rewrite pending_drainLoop.
      * by left.
      * eapply reportedBetween_grown; [|apply grown_drainLoop]. done.
    + apply QueueChange_uploadFailed; [unfold inFlight; by rewrite Hd|done|apply grown_refl].
  - (* retry delay *)
    destruct (drain s) as [|task ok|task ok|ok] eqn:Hd; simplify_eq.
    apply QueueKept. unfold retryDelayElapsed.
    assert (pending s = uploadQueue s) as ->. { unfold pending, inFlight. by rewrite Hd. }
    destruct (clientClosed s); [apply pending_drainFinish|apply pending_drainLoop].
  - (* reconnect timer *)
    unfold reconnectTimerFired in Hstep. case_bool_decide; simplify_eq.
    apply QueueKept. destruct (_ && _); [rewrite pending_connectStart|]; done.
  - (* checkConnection *)
    simplify_eq. apply QueueKept. destruct (isConnected s); [done|].
    cbn [snd]. by rewrite pending_connectStart.
  - simplify_eq. apply QueueKept, pending_handleFTPError.
  - (* exclusive enter *)
    simplify_eq. apply QueueKept. unfold exclusiveEnter.
    destruct live; cbn [negb]; [|done]. by destruct (config s).
  - (* exclusive leave *)
    simplify_eq. apply QueueKept. unfold exclusiveLeave.
    destruct result, op; cbn; try done.
    rewrite <- (pending_handleFTPError e ("download remote path " ++ remoteFolderPath) s).
    done.
Qed.

(** X1: from a reachable state, one event changes the pending uploads (the
    task in flight, then the queue) in one of four ways: not at all; a task
    without retries is appended at the end; the first task is put back in
    first place with one more retry; the first task leaves, and a success or
    an error for its file is reported to the status manager. *)
Theorem upload_queue_is_fifo (evs : list Event) (s s' : FTPManager) (ev : Event) :
  run evs initial = Some s → step ev s = Some s' → QueueChange s s'.
Proof.
  intros Hrun Hstep. destruct (reachable_invariant evs s Hrun) as (_ & _ & _ & Hflag).
  by eapply step_QueueChange.
Qed.

(** *** Without a configuration *)

Lemma sessionless_same s s' :
  client s' = client s → connectionStatus s' = connectionStatus s → sessionless s → sessionless s'.
Proof. unfold sessionless. by intros -> ->. Qed.

Lemma connectStart_unconfigured s : config s = None → (connectStart s).2 = s.
Proof. unfold connectStart. by intros ->. Qed.

Lemma connectStart_config s : config (connectStart s).2 = config s.
Proof.
  unfold connectStart. destruct (config s) eqn:Hc; [|done].
  destruct (connecting _); [done|]. destruct (isConnected s); [done|].
  cbn. unfold cancelReconnectTimer. by destruct (reconnectTimer s).
Qed.

Lemma sessionless_scheduleReconnect s : sessionless s → sessionless (scheduleReconnect s).
Proof.
  destruct (scheduleReconnect_frame s) as (Hcl & _ & Hst & _). by apply sessionless_same.
Qed.

Lemma sessionless_handleFTPError e ctx s : sessionless s → sessionless (handleFTPError e ctx s).
Proof.
  intros (Hc & Hn & Hg). unfold handleFTPError.
  destruct (isConnectionLossCode e); [|destruct (isNetworkLossMessage _); [|done]];
    apply sessionless_scheduleReconnect; done.
Qed.

Lemma sessionless_connectFailed e s : sessionless (connectFailed e s).2.
Proof. unfold connectFailed. cbn [snd]. by apply sessionless_scheduleReconnect. Qed.

Lemma connectFailed_config e s : config (connectFailed e s).2 = config s.
Proof.
  unfold connectFailed. cbn [snd].
  match goal with |- context [scheduleReconnect ?x] =>
    by destruct (scheduleReconnect_frame x) as (_ & -> & _) end.
Qed.

Lemma sessionless_report r s : sessionless s → sessionless (report r s).
Proof. by apply sessionless_same. Qed.

Lemma drainFinish_session ok s :
  client (drainFinish ok s).2 = client s ∧
  connectionStatus (drainFinish ok s).2 = connectionStatus s ∧
  config (drainFinish ok s).2 = config s.
Proof. unfold drainFinish. cbn. by destruct (uploadQueue s). Qed.

Lemma drainLoop_config ok s : config (drainLoop ok s).2 = config s.
Proof.
  unfold drainLoop. destruct (uploadQueue s) as [|task rest].
  - by destruct (drainFinish_session ok s) as (_ & _ & ->).
  - destruct (isConnected s); cbn [negb].
    + by destruct (skipsEnsureDir _ _).
    + cbn [snd]. by rewrite connectStart_config.
Qed.

Lemma drainLoop_unconfigured ok s :
  config s = None → sessionless s → sessionless (drainLoop ok s).2.
Proof.
  intros Hc Hs. unfold drainLoop. destruct (uploadQueue s) as [|task rest].
  - destruct (drainFinish_session ok s) as (Hcl & Hst & _). by eapply sessionless_same.
  - destruct (isConnected s); cbn [negb].
    + by destruct (skipsEnsureDir _ _).
    + cbn [snd]. by rewrite connectStart_unconfigured.
Qed.

Lemma processUploadQueue_config s : config (processUploadQueue s).2 = config s.
Proof.
  unfold processUploadQueue. destruct (_ || _); [done|].
  destruct (isConnected s); cbn [negb snd]; [|apply connectStart_config].
  by rewrite drainLoop_config.
Qed.

Lemma uploadFailed_config task ok e s : config (uploadFailed task ok e s).2 = config s.
Proof.
  unfold uploadFailed. set (ctx := "Upload attempt " ++ _).
  pose proof (handleFTPError_frame e ctx s) as (_ & Hc & _).
  destruct (_ && _); [done|].
  destruct (clientClosed _).
  - by destruct (drainFinish_session false
      (report (ShowUploadError (Path.basename (localPath (bumpRetries task))) (message e))
         (handleFTPError e ctx s))) as (_ & _ & ->).
  - by rewrite drainLoop_config.
Qed.

Lemma uploadFailed_unconfigured task ok e s :
  config s = None → sessionless s → sessionless (uploadFailed task ok e s).2.
Proof.
  intros Hc Hs. unfold uploadFailed. set (ctx := "Upload attempt " ++ _).
  pose proof (handleFTPError_frame e ctx s) as (_ & Hcfg & _).
  pose proof (sessionless_handleFTPError e ctx s Hs) as Hs1.
  destruct (_ && _); [done|].
  set (s2 := report _ _).
  assert (sessionless s2) as Hs2 by by apply sessionless_report.
  destruct (clientClosed s2).
  - destruct (drainFinish_session false s2) as (Hcl & Hst & _). by eapply sessionless_same.
  - apply drainLoop_unconfigured; [|done]. subst s2. cbn. by rewrite Hcfg.
Qed.

Lemma disconnect_sessionless s : sessionless (disconnect s).
Proof.
  unfold disconnect, sessionless, cancelReconnectTimer.
  destruct (reconnectTimer s); cbn;
    destruct (connected (connectionStatus s)) eqn:Hc, (connecting (connectionStatus s)) eqn:Hg;
    cbn; done.
Qed.

(** Only [setConfig] assigns the configuration. *)
Lemma step_config ev s s' :
  step ev s = Some s' → config s' = config s ∨ ∃ c, ev = EvSetConfig c.
Proof.
  intros Hstep. destruct ev; cbn in Hstep; try (right; by eexists); left.
  - simplify_eq. apply connectStart_config.
  - simplify_eq. destruct (connectAccessSettled_cases o s) as [-> | [e ->]];
      [done|apply connectFailed_config].
  - simplify_eq. unfold connectListSettled. destruct o; [|apply connectFailed_config].
    destruct (config s) eqn:Hc; [|by rewrite connectFailed_config].
    cbn [snd]. by rewrite processUploadQueue_config.
  - simplify_eq. by destruct (disconnect_frame s) as (_ & _ & -> & _).
  - simplify_eq. unfold socketChanged. by destruct (client s).
  - simplify_eq. unfold uploadFile.
    destruct (isSyncingOrDownloading s); [done|]. destruct (config s) as [cfg|] eqn:Hc; [|done].
    destruct (fs localPath_); cbn [negb]; [|done].
    destruct (if Js.truthy remotePath_ then _ else _); [|done].
    destruct (ignoredOnUpload cfg localPath_); [done|].
    destruct (isConnected _); cbn [negb snd];
      [rewrite processUploadQueue_config|rewrite connectStart_config]; done.
  - destruct (drain s) as [|task ok|task ok|ok]; simplify_eq.
    unfold ensureDirSettled. destruct o.
    + destruct (isConnected s); cbn [negb]; [done|apply uploadFailed_config].
    + rewrite uploadFailed_config. by destruct (handleFTPError_frame e
        ("ensure remote directory " ++ PathUtils.getDirectoryPath (taskRemotePath task)) s)
        as (_ & -> & _).
  - destruct (drain s) as [|task ok|task ok|ok]; simplify_eq.
    unfold uploadSettled. destruct (uploadFrom fs task server);
      [by rewrite drainLoop_config|apply uploadFailed_config].
  - destruct (drain s) as [|task ok|task ok|ok]; simplify_eq.
    unfold retryDelayElapsed. destruct (clientClosed s);
      [by destruct (drainFinish_session ok s) as (_ & _ & ->)|apply drainLoop_config].
  - unfold reconnectTimerFired in Hstep. case_bool_decide; simplify_eq.
    destruct (_ && _); [by rewrite connectStart_config|done].
  - simplify_eq. destruct (isConnected s); [done|]. cbn [snd]. by rewrite connectStart_config.
  - simplify_eq. by destruct (handleFTPError_frame e operationContext s) as (_ & -> & _).
  - simplify_eq. unfold exclusiveEnter. destruct live; cbn [negb]; [|done].
    by destruct (config s) eqn:Hc.
  - simplify_eq. unfold exclusiveLeave. destruct result, op; cbn; try done.
    by destruct (handleFTPError_frame e ("download remote path " ++ remoteFolderPath) s)
      as (_ & -> & _).
Qed.

Lemma step_sessionless ev s s' :
  config s = None → config s' = None → sessionless s → step ev s = Some s' → sessionless s'.
Proof.
  intros Hc Hc' Hs Hstep. destruct ev; cbn in Hstep.
  - simplify_eq. unfold setConfig in *. destruct c; [done|]. apply disconnect_sessionless.
  - simplify_eq. by rewrite connectStart_unconfigured.
  - simplify_eq. destruct (connectAccessSettled_cases o s) as [-> | [e ->]];
      [done|apply sessionless_connectFailed].
  - simplify_eq. unfold connectListSettled. rewrite Hc.
    destruct o; apply sessionless_connectFailed.
  - simplify_eq. apply disconnect_sessionless.
  - simplify_eq. unfold socketChanged. pose proof Hs as (Hcl & _). by rewrite Hcl.
  - simplify_eq. unfold uploadFile. rewrite Hc. by destruct (isSyncingOrDownloading s).
  - destruct (drain s) as [|task ok|task ok|ok]; simplify_eq.
    unfold ensureDirSettled. destruct o.
    + destruct (isConnected s); cbn [negb]; [done|by apply uploadFailed_unconfigured].
    + apply uploadFailed_unconfigured; [|by apply sessionless_handleFTPError].
      by destruct (handleFTPError_frame e
        ("ensure remote directory " ++ PathUtils.getDirectoryPath (taskRemotePath task)) s)
        as (_ & -> & _).
  - destruct (drain s) as [|task ok|task ok|ok]; simplify_eq.
    unfold uploadSettled. destruct (uploadFrom fs task server).
    + apply drainLoop_unconfigured; [done|by apply sessionless_report].
    + by apply uploadFailed_unconfigured.
  - destruct (drain s) as [|task ok|task ok|ok]; simplify_eq.
    unfold retryDelayElapsed. destruct (clientClosed s).
    + destruct (drainFinish_session ok s) as (Hcl & Hst & _). by eapply sessionless_same.
    + by apply drainLoop_unconfigured.
  - unfold reconnectTimerFired in Hstep. case_bool_decide; simplify_eq.
    assert (sessionless (set_reconnectTimer None (clearTimeout handle s))) as Hs1 by done.
    destruct (_ && _); [|done]. by rewrite connectStart_unconfigured.
  - simplify_eq. destruct (isConnected s); [done|]. cbn [snd].
    rewrite connectStart_unconfigured by done.
    destruct Hs as (Hcl & Hn & Hg). done.
  - simplify_eq. by apply sessionless_handleFTPError.
  - simplify_eq. unfold exclusiveEnter. destruct live; cbn [negb]; [|done]. by rewrite Hc.
  - simplify_eq. unfold exclusiveLeave. destruct result, op; cbn; try done.
    pose proof (sessionless_handleFTPError e ("download remote path " ++ remoteFolderPath) s Hs)
      as Hs1.
    exact Hs1.
Qed.

Lemma step_unconfiguredIdle ev s s' :
  unconfiguredIdle s → step ev s = Some s' → unconfiguredIdle s'.
Proof.
  intros Hinv Hstep Hc'.
  destruct (step_config ev s s' Hstep) as [Hsame | [c ->]].
  - rewrite Hsame in Hc'. eapply step_sessionless; [done| |by apply Hinv|done]. by rewrite Hsame.
  - cbn in Hstep. simplify_eq. unfold setConfig in *. destruct c; [done|].
    apply disconnect_sessionless.
Qed.

Lemma run_unconfiguredIdle evs s s' :
  unconfiguredIdle s → run evs s = Some s' → unconfiguredIdle s'.
Proof.
  revert s. induction evs as [|ev evs IH]; intros s Hinv Hrun; cbn in Hrun; [by simplify_eq|].
  destruct (step ev s) as [s1|] eqn:Hstep; [|done].
  eapply IH; [|done]. by eapply step_unconfiguredIdle.
Qed.

(** X2: a reachable manager without configuration has no client and is neither
    connected nor connecting. *)
Theorem unconfigured_manager_holds_no_session (evs : list Event) (s : FTPManager) :
  run evs initial = Some s → config s = None →
  client s = None ∧ isConnected s = false ∧
  connected (connectionStatus s) = false ∧ connecting (connectionStatus s) = false.
Proof.
  intros Hrun Hc.
  assert (unconfiguredIdle initial) as Hinit by done.
  destruct (run_unconfiguredIdle evs initial s Hinit Hrun Hc) as (Hcl & Hn & Hg).
  repeat split; try done. unfold isConnected. by rewrite Hn.
Qed.

(** *** connect, from start to end *)

Lemma drainLoop_connected ok s :
  isConnected s = true →
  client (drainLoop ok s).2 = client s ∧
  connectionStatus (drainLoop ok s).2 = connectionStatus s ∧
  reconnectTimer (drainLoop ok s).2 = reconnectTimer s ∧
  timeouts (drainLoop ok s).2 = timeouts s.
Proof.
  intros Hlive. unfold drainLoop. destruct (uploadQueue s) as [|task rest] eqn:Hq.
  - unfold drainFinish. cbn. rewrite Hq. done.
  - rewrite Hlive. cbn [negb]. by destruct (skipsEnsureDir _ _).
Qed.

Lemma processUploadQueue_connected s :
  isConnected s = true →
  client (processUploadQueue s).2 = client s ∧
  connectionStatus (processUploadQueue s).2 = connectionStatus s ∧
  reconnectTimer (processUploadQueue s).2 = reconnectTimer s ∧
  timeouts (processUploadQueue s).2 = timeouts s.
Proof.
  intros Hlive. unfold processUploadQueue. destruct (_ || _); [done|].
  rewrite Hlive. cbn [negb]. by apply (drainLoop_connected true (set_isProcessingQueue true s)).
Qed.

Lemma connectFailed_observed e s :
  let s' := (connectFailed e s).2 in
  client s' = None ∧
  connectionStatus s' = {| connected := false; connecting := false; error := Some (message e);
                           lastConnected := None; statusHost := None |}.
Proof.
  unfold connectFailed. cbn [snd].
  match goal with |- context [scheduleReconnect ?x] =>
    by destruct (scheduleReconnect_frame x) as (-> & _ & -> & _) end.
Qed.

Lemma connectFailed_timer e s :
  reconnectTimer s = None →
  is_Some (reconnectTimer (connectFailed e s).2) ↔ (message e ≠ "").
Proof.
  intros Ht. unfold connectFailed. cbn [snd]. unfold scheduleReconnect. cbn. rewrite Ht.
  rewrite bool_decide_eq_false_2 by (by intros [? ?]). cbn.
  destruct (String.eqb_spec (message e) ""); cbn.
  - rewrite Ht. split; [by intros [? ?]|done].
  - split; [done|]. by eexists.
Qed.

(** X3: for a configured manager that is neither connected nor connecting,
    [connect] returns [true] exactly when [access] resolves, the client is
    open afterwards and the test listing resolves; then the status is
    connected, with the host and the time of the listing, and no reconnect
    timer is held; otherwise the client is dropped, the status carries the
    message of the error, and a reconnect timer is held exactly when that
    message is not empty. *)
Theorem connect_outcome (h : Handshake) (cfg : FTPConfig) (s : FTPManager) :
  config s = Some cfg → connecting (connectionStatus s) = false → isConnected s = false →
  let ok := (connect h s).1 in
  let s' := (connect h s).2 in
  (ok = true ↔ accessOutcome h = Resolved ∧ socketOpen h = true ∧ listOutcome h = Resolved) ∧
  (ok = true →
     isConnected s' = true ∧ reconnectTimer s' = None ∧
     connectionStatus s' = {| connected := true; connecting := false; error := None;
                              lastConnected := Some (listedAt h);
                              statusHost := Some (host cfg) |}) ∧
  (ok = false →
     client s' = None ∧ isConnected s' = false ∧
     ∃ e, connectionStatus s' = {| connected := false; connecting := false;
                                   error := Some (message e);
                                   lastConnected := None; statusHost := None |} ∧
          (is_Some (reconnectTimer s') ↔ message e ≠ "")).
Proof.
  intros Hc Hg Hlive. unfold connect, connectStart. rewrite Hc, Hg, Hlive.
  set (st0 := {| connected := false; connecting := true |}).
  set (s2 := set_client _ _).
  assert (reconnectTimer s2 = None) as Ht2.
  { subst s2. cbn. unfold cancelReconnectTimer. by destruct (reconnectTimer s) eqn:Ht. }
  assert (config s2 = Some cfg) as Hc2.
  { subst s2. cbn. unfold cancelReconnectTimer. by destruct (reconnectTimer s). }
  assert (∀ e s0, reconnectTimer s0 = None →
            let ok := (connectFailed e s0).1 in let s' := (connectFailed e s0).2 in
            (ok = true → False) ∧
            (ok = false →
               client s' = None ∧ isConnected s' = false ∧
               ∃ e, connectionStatus s' = {| connected := false; connecting := false;
                                             error := Some (message e);
                                             lastConnected := None; statusHost := None |} ∧
                    (is_Some (reconnectTimer s') ↔ message e ≠ ""))) as Hfail.
  { intros e s0 Ht0. cbn zeta. split; [done|]. intros _.
    destruct (connectFailed_observed e s0) as [Hcl Hst].
    split; [done|]. split; [unfold isConnected; by rewrite Hst|].
    exists e. split; [done|]. by apply connectFailed_timer. }
  destruct (accessOutcome h) as [|e] eqn:Ha.
  - unfold connectAccessSettled, socketChanged. cbn [client s2 set_client].
    subst s2. cbn [client set_client closed].
    set (s3 := set_client _ _).
    assert (reconnectTimer s3 = None) as Ht3 by done.
    assert (config s3 = Some cfg) as Hc3 by done.
    destruct (socketOpen h) eqn:Hso; cbn [negb].
    + rewrite Hc3. unfold connectListSettled. rewrite Hc3.
      destruct (listOutcome h) as [|e] eqn:Hl.
      * cbn [fst snd]. split; [done|]. split; [|done]. intros _.
        set (s4 := report _ _).
        assert (isConnected s4 = true) as Hlive4 by done.
        destruct (processUploadQueue_connected s4 Hlive4) as (Hcl & Hst & Htm & _).
        unfold isConnected, clientOpen. rewrite Hcl, Hst, Htm. done.
      * destruct (Hfail e s3 Ht3) as [Hno Hyes]. split; [|split; [done|exact Hyes]].
        split; [done|]. by intros (_ & _ & ?).
    + set (e := OtherError _).
      destruct (Hfail e s3 Ht3) as [Hno Hyes].
      rewrite (surjective_pairing (connectFailed e s3)). cbn [fst snd].
      split; [|split; [done|exact Hyes]]. split; [done|]. by intros (_ & ? & _).
  - cbn [connectAccessSettled].
    destruct (Hfail e s2 Ht2) as [Hno Hyes].
    rewrite (surjective_pairing (connectFailed e s2)). cbn [fst snd].
    split; [|split; [done|exact Hyes]]. split; [done|]. by intros (? & _).
Qed.

(** *** The reconnect loop *)

Lemma connectFailed_arms e s :
  oneReconnectTimer s → message e ≠ "" →
  ∃ handle, reconnectTimer (connectFailed e s).2 = Some handle ∧
            timeouts (connectFailed e s).2 = [handle].
Proof.
  intros Hone Hmsg. unfold connectFailed. cbn [snd]. unfold scheduleReconnect. cbn.
  unfold oneReconnectTimer, heldTimeouts in Hone.
  destruct (reconnectTimer s) as [handle|] eqn:Ht; cbn.
  - rewrite Ht. by exists handle.
  - destruct (String.eqb_spec (message e) ""); [done|]. cbn.
    exists (nextTimeout s). by rewrite Hone.
Qed.

(** X4: when a connection attempt of a reachable, configured manager fails
    with an error whose message is not empty, exactly one reconnect timer is
    armed, and when it fires a new attempt starts: the status is connecting, a
    new client is in place and no timer is left. *)
Theorem failed_attempt_is_retried (evs : list Event) (s : FTPManager) (e : JsError) :
  run evs initial = Some s → config s ≠ None → message e ≠ "" →
  let s1 := (connectFailed e s).2 in
  ∃ handle s2,
    reconnectTimer s1 = Some handle ∧ timeouts s1 = [handle] ∧
    step (EvReconnectTimer handle) s1 = Some s2 ∧
    connecting (connectionStatus s2) = true ∧ client s2 = Some newClient ∧
    reconnectTimer s2 = None ∧ timeouts s2 = [].
Proof.
  intros Hrun Hcfg Hmsg s1.
  destruct (reachable_invariant evs s Hrun) as (_ & Hone & _).
  destruct (connectFailed_arms e s Hone Hmsg) as (handle & Ht & Hts).
  destruct (connectFailed_observed e s) as [Hcl Hst].
  pose proof (connectFailed_config e s) as Hc.
  fold s1 in Ht, Hts, Hcl, Hst, Hc. clearbody s1.
  destruct (config s) as [cfg|] eqn:Hcs; [|done].
  exists handle. cbn [step]. unfold reconnectTimerFired.
  rewrite Hts. rewrite bool_decide_eq_true_2 by set_solver.
  eexists. split; [done|]. split; [done|]. split; [done|].
  unfold isConnected, clearTimeout, connectStart. cbn. rewrite Hst, Hts, Hc. cbn.
  unfold isConnected. cbn. rewrite Hst. cbn.
  by destruct (decide (handle ≠ handle)).
Qed.

(** *** An accepted upload is taken up *)

(** X5: an upload request for an existing file that is not ignored, made to a
    reachable, configured manager outside a sync or download, appends one task
    without retries for its remote target at the end of the pending uploads;
    if the manager is connected the queue processor is running afterwards, if
    not a connection attempt is. *)
Theorem accepted_upload_is_taken_up (evs : list Event) (s : FTPManager) (fs : LocalFs)
    (now : Z) (localPath_ remote : string) (remotePath_ : option string) (cfg : FTPConfig) :
  run evs initial = Some s →
  isSyncingOrDownloading s = false → config s = Some cfg → fs localPath_ = true →
  remoteTarget cfg localPath_ remotePath_ = Some remote →
  ignoredOnUpload cfg localPath_ = false →
  let s' := (uploadFile fs now localPath_ remotePath_ s).2 in
  pending s' = (pending s ++ [{| localPath := localPath_; taskRemotePath := remote;
                                 retries := 0; timestamp := now |}])%list ∧
  (isConnected s = true → isProcessingQueue s' = true) ∧
  (isConnected s = false → connecting (connectionStatus s') = true).
Proof.
  intros Hrun Hsync Hc Hfs Hremote Hign.
  destruct (reachable_invariant evs s Hrun) as (_ & _ & _ & Hflag).
  unfold uploadFile. rewrite Hsync, Hc, Hfs. cbn [negb].
  unfold remoteTarget in Hremote. rewrite Hremote, Hign.
  set (task := {| localPath := localPath_ |}).
  set (s1 := set_uploadQueue _ s).
  assert (pending s1 = (pending s ++ [task])%list) as Hp.
  { unfold pending, inFlight. cbn. by destruct (drain s). }
  assert (isConnected s1 = isConnected s) as Hlive by done.
  rewrite Hlive. destruct (isConnected s) eqn:Hl; cbn [negb snd].
  - split; [by rewrite pending_processUploadQueue|]. split; [|done]. intros _.
    unfold processUploadQueue. cbn [isProcessingQueue s1 set_uploadQueue].
    destruct (isProcessingQueue s) eqn:Hproc; cbn [orb]; [done|].
    rewrite bool_decide_eq_false_2.
    2:{ subst s1. cbn. by destruct (uploadQueue s). }
    rewrite Hlive. cbn [negb]. unfold drainLoop.
    cbn [uploadQueue s1 set_uploadQueue set_isProcessingQueue].
    destruct (uploadQueue s ++ [task])%list as [|t rest] eqn:Hq.
    { by destruct (uploadQueue s). }
    assert (isConnected (set_isProcessingQueue true s1) = true) as -> by done.
    cbn [negb]. by destruct (skipsEnsureDir _ _).
  - split; [by rewrite pending_connectStart|]. split; [done|]. intros _.
    unfold connectStart. cbn [config s1 set_uploadQueue]. rewrite Hc.
    destruct (connecting (connectionStatus s1)) eqn:Hg; [done|].
    rewrite Hlive. done.
Qed.

(** *** disconnect *)

(** X6: [disconnect] in a reachable state leaves no client, no connection, no
    attempt and no reconnect timer, so that no reconnect can fire; it keeps
    the pending uploads and the configuration, and a second [disconnect]
    changes nothing. *)
Theorem disconnect_ends_the_session (evs : list Event) (s : FTPManager) :
  run evs initial = Some s →
  let s' := disconnect s in
  client s' = None ∧ isConnected s' = false ∧
  connecting (connectionStatus s') = false ∧
  reconnectTimer s' = None ∧ timeouts s' = [] ∧
  (∀ handle, step (EvReconnectTimer handle) s' = None) ∧
  pending s' = pending s ∧ config s' = config s ∧
  disconnect s' = s'.
Proof.
  intros Hrun s'.
  destruct (reachable_invariant evs s Hrun) as (_ & Hone & _).
  destruct (disconnect_sessionless s) as (Hcl & Hn & Hg). fold s' in Hcl, Hn, Hg.
  destruct (disconnect_frame s) as (Hq & Hd & Hc & _). fold s' in Hq, Hd, Hc.
  assert (reconnectTimer s' = None ∧ timeouts s' = []) as [Ht Hts].
  { subst s'. unfold disconnect, cancelReconnectTimer.
    unfold oneReconnectTimer, heldTimeouts in Hone.
    destruct (reconnectTimer s) as [handle|] eqn:Ht; cbn; destruct (_ || _); cbn;
      rewrite ?Ht, ?Hone; cbn; try done; by destruct (decide (handle ≠ handle)). }
  split; [done|]. split; [unfold isConnected; by rewrite Hn|]. split; [done|].
  split; [done|]. split; [done|].
  split; [intros handle; cbn; unfold reconnectTimerFired; rewrite Hts;
          by rewrite bool_decide_eq_false_2 by set_solver|].
  split; [by apply pending_same|]. split; [done|].
  unfold disconnect at 1. unfold cancelReconnectTimer. rewrite Ht. cbn. rewrite Hn, Hg. cbn.
  destruct s'; cbn in *. by subst.
Qed.

End Session.

(** X1 (witness) *)
Lemma upload_queue_is_fifo_witness :
  ∃ s', @step demoHost (EvUploadSettled allFiles Resolved) demoUploading = Some s' ∧
        QueueChange demoUploading s'.
Proof.
  eexists. split; [reflexivity|].
  apply (@upload_queue_is_fifo demoHost demoUploadingEvents demoUploading _
           (EvUploadSettled allFiles Resolved)); vm_compute; reflexivity.
Defined.

(** X2 (witness) *)
Lemma unconfigured_manager_holds_no_session_witness :
  @run demoHost (demoConnectEvents ++ [EvSetConfig None]) initial = Some demoUnconfigured ∧
  client demoUnconfigured = None ∧ isConnected demoUnconfigured = false.
Proof.
  split; [vm_compute; reflexivity|].
  destruct (@unconfigured_manager_holds_no_session demoHost
              (demoConnectEvents ++ [EvSetConfig None]) demoUnconfigured)
    as (Hclient & Hlive & _); [vm_compute; reflexivity..|].
  by split.
Defined.

(** X3 (witness) *)
Lemma connect_outcome_witness :
  isConnected (connect demoHandshake (setConfig (Some demoConfig) initial)).2 = true.
Proof.
  destruct (connect_outcome demoHandshake demoConfig (setConfig (Some demoConfig) initial))
    as (_ & Hok & _); [reflexivity..|].
  apply Hok. reflexivity.
Defined.

(** X4 (witness) *)
Lemma failed_attempt_is_retried_witness :
  ∃ handle s2,
    reconnectTimer (connectFailed connectionRefused demoConnecting).2 = Some handle ∧
    timeouts (connectFailed connectionRefused demoConnecting).2 = [handle] ∧
    @step demoHost (EvReconnectTimer handle) (connectFailed connectionRefused demoConnecting).2
      = Some s2 ∧
    connecting (connectionStatus s2) = true ∧ client s2 = Some newClient ∧
    reconnectTimer s2 = None ∧ timeouts s2 = [].
Proof.
  apply (@failed_attempt_is_retried demoHost [EvSetConfig (Some demoConfig); EvConnect]
           demoConnecting connectionRefused); [vm_compute; reflexivity|done|done].
Defined.

(** X5 (witness) *)
Lemma accepted_upload_is_taken_up_witness :
  pending (@uploadFile demoHost allFiles 5 "/ws/src/a.ts" None demoConnected).2 = [demoTask] ∧
  isProcessingQueue (@uploadFile demoHost allFiles 5 "/ws/src/a.ts" None demoConnected).2 = true.
Proof.
  destruct (@accepted_upload_is_taken_up demoHost demoConnectEvents demoConnected allFiles 5
              "/ws/src/a.ts" "/public_html/src/a.ts" None demoConfig)
    as (Hpending & Hlive & _); [vm_compute; reflexivity..|].
  split; [exact Hpending|]. apply Hlive. reflexivity.
Defined.

(** X6 (witness) *)
Lemma disconnect_ends_the_session_witness :
  timeouts demoReconnecting = [O] ∧ timeouts (disconnect demoReconnecting) = [] ∧
  disconnect (disconnect demoReconnecting) = disconnect demoReconnecting.
Proof.
  split; [reflexivity|].
  destruct (@disconnect_ends_the_session demoHost demoReconnectEvents demoReconnecting)
    as (_ & _ & _ & _ & Htimeouts & _ & _ & _ & Hagain); [vm_compute; reflexivity|].
  by split.
Defined.

(** ** The watcher and the manager *)

Section WatcherCalls.
Context `{Host}.

Lemma start_config s : FileWatcher.config (FileWatcher.start s) = FileWatcher.config s.
Proof.
  unfold FileWatcher.start. destruct (FileWatcher.config s) as [cfg|] eqn:Hc; [|done].
  destruct (FileWatcher.isWatching s); [done|]. destruct (negb _); [done|].
  unfold FileWatcher.startSaveWatcher, FileWatcher.startFileSystemWatcher.
  destruct (negb (uploadOnSave cfg)); destruct (_ && _); done.
Qed.

Lemma start_cases s :
  FileWatcher.start s = s ∨
  ∃ cfg, FileWatcher.config s = Some cfg ∧ FileWatcher.isWatching s = false ∧
         FileWatcher.start s =
           FileWatcher.set_isWatching true
             (FileWatcher.startSaveWatcher cfg (FileWatcher.startFileSystemWatcher cfg s)).
Proof.
  unfold FileWatcher.start. destruct (FileWatcher.config s) as [cfg|] eqn:Hc; [|by left].
  destruct (FileWatcher.isWatching s) eqn:Hw; [by left|]. destruct (negb _); [by left|].
  right. by exists cfg.
Qed.

Lemma start_listenersCurrent s : listenersCurrent s → listenersCurrent (FileWatcher.start s).
Proof.
  intros Hcur. pose proof Hcur as (HF & HS & HT).
  destruct (start_cases s) as [-> | (cfg & Hc & Hw & ->)]; [done|].
  assert (FileWatcher.fileWatcher s = None) as Hnone.
  { destruct (FileWatcher.fileWatcher s) as [l|] eqn:Hl; [|done].
    destruct (HF l eq_refl) as [? _]. congruence. }
  assert (FileWatcher.saveWatcher s = false) as Hsave.
  { destruct (FileWatcher.saveWatcher s) eqn:Hsv; [|done].
    destruct (HS eq_refl) as [? _]. congruence. }
  unfold FileWatcher.startSaveWatcher, FileWatcher.startFileSystemWatcher.
  split; [|split].
  - intros l. destruct (negb (uploadOnSave cfg)); destruct (_ && _); cbn;
      rewrite ?Hnone; try done; intros [= <-]; (split; [done|]); by exists cfg.
  - destruct (uploadOnSave cfg) eqn:Hu; cbn [negb]; destruct (_ && _); cbn;
      rewrite ?Hsave; try done; intros _; (split; [done|]); by exists cfg.
  - intros Hne. assert (FileWatcher.timeouts s ≠ []) as Hne'.
    { destruct (negb (uploadOnSave cfg)); destruct (_ && _); done. }
    destruct (HT Hne') as (cfg' & Hc' & Ha). exists cfg'. split; [|done].
    destruct (negb (uploadOnSave cfg)); destruct (_ && _); done.
Qed.

Lemma stop_quiet s :
  watcherInvariant s →
  FileWatcher.timeouts (FileWatcher.stop s) = [] ∧
  FileWatcher.uploadDebounce (FileWatcher.stop s) = ∅ ∧
  FileWatcher.fileWatcher (FileWatcher.stop s) = None ∧
  FileWatcher.saveWatcher (FileWatcher.stop s) = false ∧
  FileWatcher.isWatching (FileWatcher.stop s) = false ∧
  FileWatcher.config (FileWatcher.stop s) = FileWatcher.config s ∧
  FileWatcher.nextTimeout (FileWatcher.stop s) = FileWatcher.nextTimeout s ∧
  FileWatcher.calls (FileWatcher.stop s) = FileWatcher.calls s.
Proof.
  intros (HA & HB & HC). unfold FileWatcher.stop. cbn.
  split; [|done].
  apply elem_of_nil_inv. intros [h p] [Hnot Hin]%list_elem_of_filter. apply Hnot. cbn.
  apply HA in Hin. apply list_elem_of_fmap. exists (p, h). split; [done|].
  by apply elem_of_map_to_list.
Qed.

Lemma stop_listenersCurrent s : watcherInvariant s → listenersCurrent (FileWatcher.stop s).
Proof.
  intros Hinv. destruct (stop_quiet s Hinv) as (Ht & _ & Hf & Hs & _).
  split; [|split].
  - intros l. by rewrite Hf.
  - by rewrite Hs.
  - by rewrite Ht.
Qed.

Lemma setConfig_listenersCurrent c s :
  watcherInvariant s → listenersCurrent (FileWatcher.setConfig c s).
Proof.
  intros Hinv. unfold FileWatcher.setConfig, FileWatcher.restart.
  assert (listenersCurrent (FileWatcher.stop (FileWatcher.set_config c s))) as Hstop
    by by apply stop_listenersCurrent.
  destruct (FileWatcher.config _); [by apply start_listenersCurrent|done].
Qed.

Lemma listenersCurrent_same s s' :
  FileWatcher.config s' = FileWatcher.config s →
  FileWatcher.fileWatcher s' = FileWatcher.fileWatcher s →
  FileWatcher.saveWatcher s' = FileWatcher.saveWatcher s →
  FileWatcher.isWatching s' = FileWatcher.isWatching s →
  (FileWatcher.timeouts s' ≠ [] →
   ∃ cfg, FileWatcher.config s = Some cfg ∧ autoUpload (watcher cfg) = true) →
  listenersCurrent s → listenersCurrent s'.
Proof.
  intros Hc Hf Hs Hw Ht (HF & HS & HT). unfold listenersCurrent.
  rewrite Hc, Hf, Hs, Hw. split; [done|]. split; done.
Qed.

Lemma debounceUpload_frame filePath s :
  FileWatcher.config (FileWatcher.debounceUpload filePath s) = FileWatcher.config s ∧
  FileWatcher.fileWatcher (FileWatcher.debounceUpload filePath s) = FileWatcher.fileWatcher s ∧
  FileWatcher.saveWatcher (FileWatcher.debounceUpload filePath s) = FileWatcher.saveWatcher s ∧
  FileWatcher.isWatching (FileWatcher.debounceUpload filePath s) = FileWatcher.isWatching s ∧
  FileWatcher.calls (FileWatcher.debounceUpload filePath s) = FileWatcher.calls s.
Proof.
  unfold FileWatcher.debounceUpload.
  destruct (negb _); [done|]. destruct (ignoredOnDebounce _); [done|].
  cbn. by destruct (_ !! _).
Qed.

Lemma documentSaved_frame filePath s :
  FileWatcher.config (FileWatcher.documentSaved filePath s) = FileWatcher.config s ∧
  FileWatcher.fileWatcher (FileWatcher.documentSaved filePath s) = FileWatcher.fileWatcher s ∧
  FileWatcher.saveWatcher (FileWatcher.documentSaved filePath s) = FileWatcher.saveWatcher s ∧
  FileWatcher.isWatching (FileWatcher.documentSaved filePath s) = FileWatcher.isWatching s.
Proof.
  unfold FileWatcher.documentSaved.
  destruct (negb _); [done|]. destruct (ignoredOnSave _); [done|].
  cbn. by destruct (_ !! _).
Qed.

Lemma handleFileDelete_frame filePath s :
  FileWatcher.config (FileWatcher.handleFileDelete filePath s) = FileWatcher.config s ∧
  FileWatcher.fileWatcher (FileWatcher.handleFileDelete filePath s) = FileWatcher.fileWatcher s ∧
  FileWatcher.saveWatcher (FileWatcher.handleFileDelete filePath s) = FileWatcher.saveWatcher s ∧
  FileWatcher.isWatching (FileWatcher.handleFileDelete filePath s) = FileWatcher.isWatching s ∧
  FileWatcher.timeouts (FileWatcher.handleFileDelete filePath s) = FileWatcher.timeouts s.
Proof.
  unfold FileWatcher.handleFileDelete. destruct (FileWatcher.config s) eqn:Hc; [|done].
  destruct (negb _); [done|]. by destruct (negb _).
Qed.

Lemma handleDirectoryDelete_frame dirPath s :
  FileWatcher.config (FileWatcher.handleDirectoryDelete dirPath s) = FileWatcher.config s ∧
  FileWatcher.fileWatcher (FileWatcher.handleDirectoryDelete dirPath s) = FileWatcher.fileWatcher s ∧
  FileWatcher.saveWatcher (FileWatcher.handleDirectoryDelete dirPath s) = FileWatcher.saveWatcher s ∧
  FileWatcher.isWatching (FileWatcher.handleDirectoryDelete dirPath s) = FileWatcher.isWatching s ∧
  FileWatcher.timeouts (FileWatcher.handleDirectoryDelete dirPath s) = FileWatcher.timeouts s.
Proof.
  unfold FileWatcher.handleDirectoryDelete. destruct (FileWatcher.config s) eqn:Hc; [|done].
  destruct (negb _); [done|]. by destruct (negb _).
Qed.

(** A registered [add] or [change] listener means that [autoUpload] is on. *)
Lemma listens_autoUpload s :
  listenersCurrent s →
  FileWatcher.listens FileWatcher.onAdd s = true ∨ FileWatcher.listens FileWatcher.onChange s = true →
  ∃ cfg, FileWatcher.config s = Some cfg ∧ autoUpload (watcher cfg) = true.
Proof.
  intros (HF & _) Hl. unfold FileWatcher.listens in Hl.
  destruct (FileWatcher.fileWatcher s) as [l|] eqn:Hfw; [|by destruct Hl].
  destruct (HF l eq_refl) as (_ & cfg & Hc & ->). exists cfg. split; [done|].
  cbn in Hl. destruct Hl as [Hl | Hl]; by apply andb_true_iff in Hl as [_ ?].
Qed.

Lemma step_listenersCurrent ev s s' :
  watcherInvariant s → listenersCurrent s → FileWatcher.step ev s = Some s' → listenersCurrent s'.
Proof.
  intros Hinv Hcur. pose proof Hcur as (HF & HS & HT).
  destruct ev; cbn [FileWatcher.step].
  - intros [= <-]. by apply setConfig_listenersCurrent.
  - intros [= <-]. by apply start_listenersCurrent.
  - intros [= <-]. by apply stop_listenersCurrent.
  - destruct (FileWatcher.listens _ _) eqn:Hl; [|done]. intros [= <-].
    destruct (debounceUpload_frame filePath s) as (Hc & Hf & Hs & Hw & _).
    apply (listenersCurrent_same s); try done. intros _. apply listens_autoUpload; auto.
  - destruct (FileWatcher.listens _ _) eqn:Hl; [|done]. intros [= <-].
    destruct (debounceUpload_frame filePath s) as (Hc & Hf & Hs & Hw & _).
    apply (listenersCurrent_same s); try done. intros _. apply listens_autoUpload; auto.
  - destruct (FileWatcher.listens _ _); [|done]. intros [= <-].
    destruct (handleFileDelete_frame filePath s) as (Hc & Hf & Hs & Hw & Ht).
    apply (listenersCurrent_same s); try done. by rewrite Ht.
  - destruct (FileWatcher.listens _ _); [|done]. intros [= <-].
    destruct (handleDirectoryDelete_frame dirPath s) as (Hc & Hf & Hs & Hw & Ht).
    apply (listenersCurrent_same s); try done. by rewrite Ht.
  - destruct (FileWatcher.saveWatcher s) eqn:Hsv; [|done]. intros [= <-].
    destruct (documentSaved_frame filePath s) as (Hc & Hf & Hs & Hw).
    apply (listenersCurrent_same s); try done.
    intros Hne. apply HT. intros Hnil. apply Hne.
    destruct (documentSaved_grows filePath s) as [_ Hg].
    apply elem_of_nil_inv. intros [h p] Hin. destruct (Hg h p Hin) as [Hold | ->].
    + rewrite Hnil in Hold. by apply elem_of_nil in Hold.
    + (* the listener arms nothing *)
      unfold FileWatcher.documentSaved in Hin.
      destruct (negb _); [by rewrite Hnil in Hin; apply elem_of_nil in Hin|].
      destruct (ignoredOnSave _); [by rewrite Hnil in Hin; apply elem_of_nil in Hin|].
      cbn in Hin. destruct (_ !! _); cbn in Hin.
      * apply list_elem_of_filter in Hin as [_ Hin]. rewrite Hnil in Hin. by apply elem_of_nil in Hin.
      * rewrite Hnil in Hin. by apply elem_of_nil in Hin.
  - destruct (list_find _ _) as [[i [h p]]|] eqn:Hfind; [|done]. intros [= <-].
    apply (listenersCurrent_same s); try done. intros _. apply HT.
    apply list_find_Some in Hfind as (Hi & _). intros Hnil. by rewrite Hnil in Hi.
Qed.

Lemma initial_listenersCurrent : listenersCurrent FileWatcher.initial.
Proof. split; [|split]; cbn; done. Qed.

Lemma run_watcher_invariants evs s s' :
  watcherInvariant s → listenersCurrent s → FileWatcher.run evs s = Some s' →
  watcherInvariant s' ∧ listenersCurrent s'.
Proof.
  revert s. induction evs as [|ev evs IH]; intros s Hinv Hcur; cbn.
  - by intros [= <-].
  - destruct (FileWatcher.step ev s) as [s1|] eqn:Hstep; [|done].
    apply IH; [by eapply step_watcherInvariant|by eapply step_listenersCurrent].
Qed.

(** *** What the watcher asks of the manager *)

Lemma start_calls s : FileWatcher.calls (FileWatcher.start s) = FileWatcher.calls s.
Proof.
  destruct (start_cases s) as [-> | (cfg & _ & _ & ->)]; [done|].
  unfold FileWatcher.startSaveWatcher, FileWatcher.startFileSystemWatcher.
  destruct (negb (uploadOnSave cfg)); destruct (_ && _); done.
Qed.

Lemma setConfig_calls c s : FileWatcher.calls (FileWatcher.setConfig c s) = FileWatcher.calls s.
Proof.
  unfold FileWatcher.setConfig, FileWatcher.restart.
  destruct (FileWatcher.config _); [|done]. by rewrite start_calls.
Qed.

Lemma step_calls ev s s' :
  watcherInvariant s → listenersCurrent s → FileWatcher.step ev s = Some s' →
  FileWatcher.calls s' = FileWatcher.calls s ∨
  ∃ c cfg, FileWatcher.calls s' = (FileWatcher.calls s ++ [c])%list ∧
           FileWatcher.config s = Some cfg ∧ authorised cfg ev c ∧
           ∀ filePath, c = FileWatcher.UploadFile filePath →
             PathUtils.isInWorkspace filePath = true ∧ ignoredOnDebounce filePath = false.
Proof.
  intros (HA & HB & HC) (HF & HS & HT). destruct ev; cbn [FileWatcher.step].
  - intros [= <-]. left. apply setConfig_calls.
  - intros [= <-]. left. apply start_calls.
  - intros [= <-]. by left.
  - destruct (FileWatcher.listens _ _); [|done]. intros [= <-]. left.
    by destruct (debounceUpload_frame filePath s) as (_ & _ & _ & _ & ->).
  - destruct (FileWatcher.listens _ _); [|done]. intros [= <-]. left.
    by destruct (debounceUpload_frame filePath s) as (_ & _ & _ & _ & ->).
  - destruct (FileWatcher.listens _ _) eqn:Hl; [|done]. intros [= <-].
    unfold FileWatcher.handleFileDelete.
    destruct (FileWatcher.config s) as [cfg|] eqn:Hc; [|by left].
    destruct (autoDelete (watcher cfg)) eqn:Had; cbn [negb]; [|by left].
    destruct getWorkspaceRoot as [root|] eqn:Hroot; cbn [Js.truthy]; [|by left].
    destruct (negb (root =? "")%string); cbn [negb]; [|by left].
    right. eexists _, cfg. split; [done|]. split; [done|]. split; [|done].
    cbn. split; [done|]. split; [|by exists root].
    unfold FileWatcher.listens in Hl. destruct (FileWatcher.fileWatcher s) as [l|] eqn:Hfw; [|done].
    destruct (HF l eq_refl) as (_ & cfg' & Hc' & ->). simplify_eq. cbn in Hl.
    apply andb_true_iff in Hl as [Hl _]. by destruct (ignoreDelete (watcher cfg')).
  - destruct (FileWatcher.listens _ _) eqn:Hl; [|done]. intros [= <-].
    unfold FileWatcher.handleDirectoryDelete.
    destruct (FileWatcher.config s) as [cfg|] eqn:Hc; [|by left].
    destruct (autoDelete (watcher cfg)) eqn:Had; cbn [negb]; [|by left].
    destruct getWorkspaceRoot as [root|] eqn:Hroot; cbn [Js.truthy]; [|by left].
    destruct (negb (root =? "")%string); cbn [negb]; [|by left].
    right. eexists _, cfg. split; [done|]. split; [done|]. split; [|done].
    cbn. split; [done|]. split; [|by exists root].
    unfold FileWatcher.listens in Hl. destruct (FileWatcher.fileWatcher s) as [l|] eqn:Hfw; [|done].
    destruct (HF l eq_refl) as (_ & cfg' & Hc' & ->). simplify_eq. cbn in Hl.
    apply andb_true_iff in Hl as [Hl _]. by destruct (ignoreDelete (watcher cfg')).
  - destruct (FileWatcher.saveWatcher s) eqn:Hsv; [|done]. intros [= <-].
    destruct (HS eq_refl) as (_ & cfg & Hc & Hu).
    unfold FileWatcher.documentSaved.
    destruct (PathUtils.isInWorkspace filePath) eqn:Hws; cbn [negb]; [|by left].
    destruct (ignoredOnSave filePath) eqn:Hign; [by left|].
    right. exists (FileWatcher.UploadFile filePath), cfg.
    split; [by destruct (_ !! _)|]. split; [done|]. split; [done|].
    by intros p [= <-].
  - destruct (list_find _ _) as [[i [h p]]|] eqn:Hfind; [|done]. intros [= <-].
    apply list_find_Some in Hfind as (Hi & Hh & _). cbn in Hh. subst h.
    assert ((handle, p) ∈ FileWatcher.timeouts s) as Hin by by eapply list_elem_of_lookup_2.
    destruct HT as (cfg & Hc & Hau). { intros Hnil. rewrite Hnil in Hin. by apply elem_of_nil in Hin. }
    right. exists (FileWatcher.UploadFile p), cfg.
    split; [done|]. split; [done|]. split; [done|].
    intros q [= <-]. by destruct (HB _ _ Hin) as (_ & ? & ?).
Qed.

Lemma step_uploadsVetted ev s s' :
  watcherInvariant s → listenersCurrent s → uploadsVetted s →
  FileWatcher.step ev s = Some s' → uploadsVetted s'.
Proof.
  intros Hinv Hcur Hvet Hstep p.
  destruct (step_calls ev s s' Hinv Hcur Hstep) as [-> | (c & cfg & -> & _ & _ & Hup)];
    [by apply Hvet|].
  intros [Hold | Hnew%list_elem_of_singleton]%elem_of_app; [by apply Hvet|by apply Hup].
Qed.

(** X7: every upload that the watcher has asked of the manager concerns a path
    that starts with the workspace root and that the built-in patterns do not
    ignore. *)
Theorem watcher_uploads_are_vetted (evs : list FileWatcher.Event) (s : FileWatcher.State)
    (filePath : string) :
  FileWatcher.run evs FileWatcher.initial = Some s →
  FileWatcher.UploadFile filePath ∈ FileWatcher.calls s →
  PathUtils.isInWorkspace filePath = true ∧ ignoredOnDebounce filePath = false ∧
  ignoredOnSave filePath = false.
Proof.
  intros Hrun Hin.
  assert (∀ evs s0, watcherInvariant s0 → listenersCurrent s0 → uploadsVetted s0 →
            FileWatcher.run evs s0 = Some s → uploadsVetted s) as Hind.
  { clear. intros evs. induction evs as [|ev evs IH]; intros s0 Hinv Hcur Hvet; cbn.
    - by intros [= <-].
    - destruct (FileWatcher.step ev s0) as [s1|] eqn:Hstep; [|done].
      apply IH; [by eapply step_watcherInvariant|by eapply step_listenersCurrent|
                 by eapply step_uploadsVetted]. }
  assert (uploadsVetted FileWatcher.initial) as Hinit.
  { intros p. cbn. by intros ?%elem_of_nil. }
  destruct (Hind evs _ initial_watcherInvariant initial_listenersCurrent Hinit Hrun _ Hin).
  done.
Qed.

(** X8: from a reachable state, one watcher event makes at most one call to
    the manager, and only one that the configuration in force allows: an
    upload after a debounce needs [autoUpload]; an upload after a save is for
    the saved file and needs [uploadOnSave]; a remote deletion needs
    [autoDelete] without [ignoreDelete] and is for the image of the deleted
    path under the workspace root. *)
Theorem watcher_calls_are_authorised (evs : list FileWatcher.Event) (s s' : FileWatcher.State)
    (ev : FileWatcher.Event) :
  FileWatcher.run evs FileWatcher.initial = Some s →
  FileWatcher.step ev s = Some s' →
  FileWatcher.calls s' = FileWatcher.calls s ∨
  ∃ c cfg, FileWatcher.calls s' = (FileWatcher.calls s ++ [c])%list ∧
           FileWatcher.config s = Some cfg ∧ authorised cfg ev c.
Proof.
  intros Hrun Hstep.
  destruct (run_watcher_invariants evs _ s initial_watcherInvariant initial_listenersCurrent Hrun)
    as [Hinv Hcur].
  destruct (step_calls ev s s' Hinv Hcur Hstep) as [? | (c & cfg & ? & ? & ? & _)];
    [by left|right; by exists c, cfg].
Qed.

(** *** Stopping the watcher *)

(** X9: [stop], and [setConfig] which restarts the watcher, leave no debounce
    timeout behind and make no call to the manager; no timeout created before
    them fires later, whatever follows. *)
Theorem stop_cancels_every_debounce (evs : list FileWatcher.Event) (s : FileWatcher.State)
    (c : option FTPConfig) :
  FileWatcher.run evs FileWatcher.initial = Some s →
  ∀ s', s' = FileWatcher.stop s ∨ s' = FileWatcher.setConfig c s →
    FileWatcher.timeouts s' = [] ∧ FileWatcher.uploadDebounce s' = ∅ ∧
    FileWatcher.calls s' = FileWatcher.calls s ∧
    ∀ evs' s'' handle,
      FileWatcher.run evs' s' = Some s'' → (handle < FileWatcher.nextTimeout s)%nat →
      FileWatcher.step (FileWatcher.TimeoutFired handle) s'' = None.
Proof.
  intros Hrun s' Hs'.
  pose proof (run_watcherInvariant evs _ s initial_watcherInvariant Hrun) as Hinv.
  assert (FileWatcher.timeouts s' = [] ∧ FileWatcher.uploadDebounce s' = ∅ ∧
          FileWatcher.calls s' = FileWatcher.calls s ∧
          FileWatcher.nextTimeout s' = FileWatcher.nextTimeout s) as (Ht & Hm & Hcalls & Hn).
  { destruct Hs' as [-> | ->].
    - by destruct (stop_quiet s Hinv) as (? & ? & _ & _ & _ & _ & ? & ?).
    - unfold FileWatcher.setConfig, FileWatcher.restart.
      assert (watcherInvariant (FileWatcher.set_config c s)) as Hinv' by done.
      destruct (stop_quiet _ Hinv') as (Ht & Hm & _ & _ & _ & _ & Hn & Hcalls).
      destruct (FileWatcher.config _); [|done].
      destruct (start_cases (FileWatcher.stop (FileWatcher.set_config c s)))
        as [-> | (cfg & _ & _ & ->)]; [done|].
      unfold FileWatcher.startSaveWatcher, FileWatcher.startFileSystemWatcher.
      destruct (negb (uploadOnSave cfg)); destruct (_ && _); done. }
  split; [done|]. split; [done|]. split; [done|].
  intros evs' s'' handle Hrun' Hlt.
  assert (retired handle s') as Hret.
  { split; [by rewrite Hn|]. intros [p Hin]. rewrite Ht in Hin. by apply elem_of_nil in Hin. }
  destruct (run_retired handle evs' s' s'' Hret Hrun') as [_ Hnot].
  by apply retired_never_fires.
Qed.

(** *** A burst of changes *)

Lemma debounceUpload_armed filePath s :
  watcherInvariant s →
  PathUtils.isInWorkspace filePath = true → ignoredOnDebounce filePath = false →
  let s' := FileWatcher.debounceUpload filePath s in
  FileWatcher.uploadDebounce s' !! filePath = Some (FileWatcher.nextTimeout s) ∧
  FileWatcher.calls s' = FileWatcher.calls s ∧
  FileWatcher.fileWatcher s' = FileWatcher.fileWatcher s ∧
  (∀ q, q ≠ filePath → FileWatcher.uploadDebounce s' !! q = FileWatcher.uploadDebounce s !! q).
Proof.
  intros Hinv Hws Hign. cbn zeta. unfold FileWatcher.debounceUpload. rewrite Hws, Hign. cbn [negb].
  assert (FileWatcher.nextTimeout
            match FileWatcher.uploadDebounce s !! filePath with
            | Some existingTimeout => FileWatcher.clearTimeout existingTimeout s
            | None => s
            end = FileWatcher.nextTimeout s) as -> by by destruct (_ !! _).
  cbn. split; [apply lookup_insert_eq|]. split; [by destruct (_ !! _)|].
  split; [by destruct (_ !! _)|].
  intros q Hne. rewrite lookup_insert_ne by done. by destruct (_ !! filePath).
Qed.

(** X10: when the change listener is registered, any number of consecutive
    change events for one unignored workspace file make no call to the manager
    and leave exactly one timeout for that file; when it fires, exactly one
    upload of the file is asked for and nothing stays armed for it. *)
Theorem burst_of_changes_uploads_once (evs : list FileWatcher.Event) (s : FileWatcher.State)
    (filePath : string) (n : nat) :
  FileWatcher.run evs FileWatcher.initial = Some s →
  FileWatcher.listens FileWatcher.onChange s = true →
  PathUtils.isInWorkspace filePath = true → ignoredOnDebounce filePath = false →
  ∃ s' handle,
    FileWatcher.run (replicate (S n) (FileWatcher.Changed filePath)) s = Some s' ∧
    FileWatcher.calls s' = FileWatcher.calls s ∧
    FileWatcher.uploadDebounce s' !! filePath = Some handle ∧
    (∀ h, (h, filePath) ∈ FileWatcher.timeouts s' ↔ h = handle) ∧
    ∃ s'', FileWatcher.step (FileWatcher.TimeoutFired handle) s' = Some s'' ∧
           FileWatcher.calls s'' = (FileWatcher.calls s ++ [FileWatcher.UploadFile filePath])%list ∧
           FileWatcher.uploadDebounce s'' !! filePath = None ∧
           ∀ h, (h, filePath) ∉ FileWatcher.timeouts s''.
Proof.
  intros Hrun Hl Hws Hign.
  pose proof (run_watcherInvariant evs _ s initial_watcherInvariant Hrun) as Hinv.
  clear Hrun evs.
  assert (∀ n s0, watcherInvariant s0 → FileWatcher.listens FileWatcher.onChange s0 = true →
            ∃ s', FileWatcher.run (replicate (S n) (FileWatcher.Changed filePath)) s0 = Some s' ∧
                  watcherInvariant s' ∧ FileWatcher.calls s' = FileWatcher.calls s0 ∧
                  is_Some (FileWatcher.uploadDebounce s' !! filePath)) as Hburst.
  { clear s Hl Hinv n. intros n. induction n as [|n IH]; intros s0 Hinv0 Hl0.
    - cbn. rewrite Hl0. eexists. split; [done|].
      destruct (debounceUpload_armed filePath s0 Hinv0 Hws Hign) as (Hlook & Hcalls & _).
      split; [by apply debounceUpload_watcherInvariant|]. split; [done|]. by eexists.
    - cbn [replicate FileWatcher.run FileWatcher.step]. rewrite Hl0.
      destruct (debounceUpload_armed filePath s0 Hinv0 Hws Hign) as (_ & Hcalls & Hfw & _).
      destruct (IH (FileWatcher.debounceUpload filePath s0)) as (s' & Hrun' & Hinv' & Hc' & Hs').
      { by apply debounceUpload_watcherInvariant. }
      { unfold FileWatcher.listens in *. by rewrite Hfw. }
      exists s'. split; [done|]. split; [done|]. split; [congruence|done]. }
  destruct (Hburst n s Hinv Hl) as (s' & Hrun' & (HA & HB & HC) & Hcalls & [handle Hlook]).
  exists s', handle. split; [done|]. split; [done|]. split; [done|].
  split.
  { intros h. rewrite HA. split; [congruence|by intros ->]. }
  assert ((handle, filePath) ∈ FileWatcher.timeouts s') as Hin by by apply HA.
  cbn [FileWatcher.step].
  destruct (list_find _ _) as [[i [h p]]|] eqn:Hfind.
  2:{ apply list_find_None in Hfind. rewrite Forall_forall in Hfind. by destruct (Hfind _ Hin). }
  apply list_find_Some in Hfind as (Hi & Hh & _). cbn in Hh. subst h.
  assert (p = filePath) as ->.
  { apply (HC handle); [by eapply list_elem_of_lookup_2|done]. }
  eexists. split; [done|]. split; [cbn; by rewrite Hcalls|].
  split; [cbn; apply lookup_delete_eq|].
  intros h. cbn. rewrite list_elem_of_filter. cbn. intros [Hne Hin'].
  apply HA in Hin'. congruence.
Qed.

End WatcherCalls.

(** X7 (witness) *)
Lemma watcher_uploads_are_vetted_witness :
  @PathUtils.isInWorkspace demoHost "/ws/src/a.ts" = true ∧
  @ignoredOnDebounce demoHost "/ws/src/a.ts" = false ∧
  @ignoredOnSave demoHost "/ws/src/a.ts" = false.
Proof.
  apply (@watcher_uploads_are_vetted demoHost
           (demoWatchEvents ++ [FileWatcher.TimeoutFired O])
           (@FileWatcher.debounceElapsed "/ws/src/a.ts"
              (FileWatcher.clearTimeout O demoDebouncing))).
  - vm_compute. reflexivity.
  - cbn. set_solver.
Defined.

(** X8 (witness) *)
Lemma watcher_calls_are_authorised_witness :
  ∃ s', @FileWatcher.step demoHost (FileWatcher.TimeoutFired O) demoDebouncing = Some s' ∧
        (FileWatcher.calls s' = FileWatcher.calls demoDebouncing ∨
         ∃ c cfg, FileWatcher.calls s' = (FileWatcher.calls demoDebouncing ++ [c])%list ∧
                  FileWatcher.config demoDebouncing = Some cfg ∧
                  @authorised demoHost cfg (FileWatcher.TimeoutFired O) c).
Proof.
  eexists. split; [reflexivity|].
  apply (@watcher_calls_are_authorised demoHost demoWatchEvents demoDebouncing);
    vm_compute; reflexivity.
Defined.

(** X9 (witness) *)
Lemma stop_cancels_every_debounce_witness :
  FileWatcher.timeouts demoDebouncing = [(O, "/ws/src/a.ts")] ∧
  FileWatcher.timeouts (FileWatcher.stop demoDebouncing) = [] ∧
  @FileWatcher.step demoHost (FileWatcher.TimeoutFired O) (FileWatcher.stop demoDebouncing) = None.
Proof.
  split; [reflexivity|].
  destruct (@stop_cancels_every_debounce demoHost demoWatchEvents demoDebouncing None
              ltac:(vm_compute; reflexivity) (FileWatcher.stop demoDebouncing) (or_introl eq_refl))
    as (Htimeouts & _ & _ & Hnever).
  split; [exact Htimeouts|].
  apply (Hnever [] _ O); [reflexivity|vm_compute; lia].
Defined.

(** X10 (witness) *)
Lemma burst_of_changes_uploads_once_witness :
  ∃ s' handle,
    @FileWatcher.run demoHost (replicate 3 (FileWatcher.Changed "/ws/src/a.ts")) demoWatching
      = Some s' ∧
    FileWatcher.calls s' = FileWatcher.calls demoWatching ∧
    FileWatcher.uploadDebounce s' !! "/ws/src/a.ts" = Some handle ∧
    (∀ h, (h, "/ws/src/a.ts") ∈ FileWatcher.timeouts s' ↔ h = handle) ∧
    ∃ s'', @FileWatcher.step demoHost (FileWatcher.TimeoutFired handle) s' = Some s'' ∧
           FileWatcher.calls s'' =
             (FileWatcher.calls demoWatching ++ [FileWatcher.UploadFile "/ws/src/a.ts"])%list ∧
           FileWatcher.uploadDebounce s'' !! "/ws/src/a.ts" = None ∧
           ∀ h, (h, "/ws/src/a.ts") ∉ FileWatcher.timeouts s''.
Proof.
  apply (@burst_of_changes_uploads_once demoHost [FileWatcher.SetConfig (Some demoConfig)]
           demoWatching "/ws/src/a.ts" 2); vm_compute; reflexivity.
Defined.

(** ** Paths made of plain segments *)

Section Segments.

Lemma append_cons c (s t : string) : String c s ++ t = String c (s ++ t).
Proof. reflexivity. Qed.

Lemma append_nil_l (s : string) : "" ++ s = s.
Proof. reflexivity. Qed.

Lemma string_app_nil_r (s : string) : s ++ "" = s.
Proof. induction s as [|c s IH]; [done|]. by rewrite append_cons, IH. Qed.

Lemma string_app_assoc (a b c : string) : (a ++ b) ++ c = a ++ b ++ c.
Proof. induction a as [|d a IH]; [done|]. by rewrite !append_cons, IH. Qed.

Lemma list_ascii_app a b :
  list_ascii_of_string (a ++ b) = (list_ascii_of_string a ++ list_ascii_of_string b)%list.
Proof. induction a as [|d a IH]; [done|]. rewrite append_cons. cbn. by rewrite IH. Qed.

Lemma split_nonempty s : Path.split s ≠ [].
Proof. destruct s as [|c s]; cbn; [done|]. destruct (Path.isSlash c); [done|]. by destruct (Path.split s). Qed.

Lemma split_app_segment seg rest :
  forallb isSegmentChar (list_ascii_of_string seg) = true →
  Path.split (seg ++ rest) =
    match Path.split rest with
    | x :: xs => (seg ++ x) :: xs
    | [] => [seg]
    end.
Proof.
  induction seg as [|c seg IH]; cbn [list_ascii_of_string forallb]; intros Hseg.
  - cbn. destruct (Path.split rest) eqn:Hs; [by apply split_nonempty in Hs|done].
  - apply andb_true_iff in Hseg as [Hc Hseg].
    change (String c seg ++ rest) with (String c (seg ++ rest)). cbn [Path.split].
    unfold isSegmentChar in Hc. apply andb_true_iff in Hc as [Hc _].
    destruct (Path.isSlash c); [done|]. rewrite IH by done.
    by destruct (Path.split rest).
Qed.

Lemma isSegment_chars seg : isSegment seg = true → forallb isSegmentChar (list_ascii_of_string seg) = true.
Proof. unfold isSegment. by intros [_ ?]%andb_true_iff. Qed.

Lemma split_segment seg :
  forallb isSegmentChar (list_ascii_of_string seg) = true → Path.split seg = [seg].
Proof.
  intros Hseg. pose proof (split_app_segment seg "" Hseg) as Hs.
  cbn in Hs. by rewrite !string_app_nil_r in Hs.
Qed.

Lemma split_slash rest : Path.split ("/" ++ rest) = "" :: Path.split rest.
Proof. done. Qed.

Lemma unsplit_cons seg segs :
  segs ≠ [] → Path.unsplit (seg :: segs) = seg ++ "/" ++ Path.unsplit segs.
Proof. by destruct segs. Qed.

Lemma split_unsplit segs :
  Forall (λ seg, isSegment seg = true) segs → segs ≠ [] →
  Path.split (Path.unsplit segs) = segs.
Proof.
  induction segs as [|seg segs IH]; [done|]. intros Hall _.
  apply Forall_cons in Hall as [Hseg Hall]. apply isSegment_chars in Hseg.
  destruct segs as [|seg' segs].
  - cbn. by apply split_segment.
  - rewrite unsplit_cons by done. rewrite split_app_segment by done.
    rewrite split_slash. rewrite IH by done. by rewrite string_app_nil_r.
Qed.

Lemma split_absolute segs :
  Forall (λ seg, isSegment seg = true) segs →
  Path.split (absolute segs) = "" :: (if decide (segs = []) then [""] else segs).
Proof.
  intros Hall. unfold absolute. rewrite split_slash.
  destruct (decide (segs = [])) as [->|Hne]; [done|]. by rewrite split_unsplit.
Qed.

Lemma normalizeSegs_segments above acc segs :
  Forall (λ seg, isSegment seg = true) segs →
  Path.normalizeSegs above acc segs = (rev acc ++ segs)%list.
Proof.
  revert acc. induction segs as [|seg segs IH]; intros acc Hall; cbn.
  - by rewrite app_nil_r.
  - apply Forall_cons in Hall as [Hseg Hall].
    unfold isSegment in Hseg. apply andb_true_iff in Hseg as [Hseg _].
    apply andb_true_iff in Hseg as [Hseg Hdd]. apply andb_true_iff in Hseg as [He Hd].
    destruct (seg =? "")%string; [done|]. destruct (seg =? ".")%string; [done|].
    destruct (seg =? "..")%string; [done|]. cbn.
    rewrite IH by done. cbn. by rewrite <- app_assoc.
Qed.

Lemma normalizeSegs_absolute segs :
  Forall (λ seg, isSegment seg = true) segs →
  Path.normalizeSegs false [] (Path.split (absolute segs)) = segs.
Proof.
  intros Hall. rewrite split_absolute by done. cbn.
  destruct (decide (segs = [])) as [->|Hne]; [done|].
  by rewrite normalizeSegs_segments.
Qed.

Lemma dropCommon_prefix a b : Path.dropCommon a (a ++ b) = ([], b).
Proof.
  induction a as [|x a IH]; cbn; [by destruct b|].
  by rewrite String.eqb_refl.
Qed.

Lemma relative_below root below :
  Forall (λ seg, isSegment seg = true) root → Forall (λ seg, isSegment seg = true) below →
  Path.relative (absolute root) (absolute (root ++ below)) = Path.unsplit below.
Proof.
  intros Hr Hb. unfold Path.relative.
  rewrite !normalizeSegs_absolute by (try apply Forall_app; done).
  by rewrite dropCommon_prefix.
Qed.

(** Characters of a path built from segments. *)
Lemma replaceChar_absent c by_ s :
  forallb (λ d, negb (Ascii.eqb c d)) (list_ascii_of_string s) = true →
  Js.replaceChar c by_ s = s.
Proof.
  induction s as [|d s IH]; cbn; [done|]. intros [Hd Hs]%andb_true_iff.
  destruct (Ascii.eqb c d); [done|]. by rewrite IH.
Qed.

Lemma unsplit_chars (P : ascii → bool) segs :
  P "/"%char = true →
  Forall (λ seg, forallb P (list_ascii_of_string seg) = true) segs →
  forallb P (list_ascii_of_string (Path.unsplit segs)) = true.
Proof.
  intros Hslash. induction segs as [|seg segs IH]; [done|]. intros [Hseg Hall]%Forall_cons.
  destruct segs as [|seg' segs]; [done|].
  rewrite unsplit_cons by done. rewrite !list_ascii_app, !forallb_app.
  cbn [list_ascii_of_string forallb app].
  rewrite Hseg, Hslash. cbn. by apply IH.
Qed.

Lemma segment_no_backslash seg :
  isSegment seg = true →
  forallb (λ d, negb (Ascii.eqb "\" d)) (list_ascii_of_string seg) = true.
Proof.
  intros Hseg%isSegment_chars. rewrite forallb_forall in *. intros c Hc.
  specialize (Hseg c Hc). unfold isSegmentChar in Hseg.
  apply andb_true_iff in Hseg as [_ Hb]. by rewrite Ascii.eqb_sym.
Qed.

Lemma replaceChar_unsplit segs :
  Forall (λ seg, isSegment seg = true) segs →
  Js.replaceChar "\" "/" (Path.unsplit segs) = Path.unsplit segs.
Proof.
  intros Hall. apply replaceChar_absent.
  apply (unsplit_chars (λ d, negb (Ascii.eqb "\" d))); [done|].
  eapply Forall_impl; [done|]. intros seg. apply segment_no_backslash.
Qed.

(** *** normalize and join on paths made of segments *)

Lemma segments_forallb segs : forallb isSegment segs = true → segments segs.
Proof. intros Hall. apply Forall_forall. intros seg Hin%list_elem_of_In. by rewrite forallb_forall in Hall; apply Hall. Qed.

Lemma isSegment_nonempty seg : isSegment seg = true → seg ≠ "".
Proof.
  unfold isSegment. intros Hseg ->. done.
Qed.

Lemma unsplit_nonempty segs : segments segs → segs ≠ [] → Path.unsplit segs ≠ "".
Proof.
  intros Hall Hne. destruct segs as [|seg segs]; [done|].
  apply Forall_cons in Hall as [Hseg%isSegment_nonempty _].
  destruct segs as [|seg' segs]; [done|]. rewrite unsplit_cons by done.
  destruct seg; [done|]. by rewrite append_cons.
Qed.

Lemma unsplit_app a b :
  a ≠ [] → b ≠ [] → Path.unsplit (a ++ b) = Path.unsplit a ++ "/" ++ Path.unsplit b.
Proof.
  intros Ha Hb. induction a as [|x a IH]; [done|].
  destruct a as [|y a].
  - cbn [app]. by rewrite unsplit_cons.
  - change ((x :: y :: a) ++ b)%list with (x :: ((y :: a) ++ b))%list.
    rewrite unsplit_cons by done. rewrite IH by done.
    rewrite (unsplit_cons x (y :: a)) by done. by rewrite !string_app_assoc.
Qed.

Lemma split_unsplit_app segs rest :
  segments segs → segs ≠ [] →
  Path.split (Path.unsplit segs ++ "/" ++ rest) = (segs ++ Path.split rest)%list.
Proof.
  induction segs as [|seg segs IH]; [done|]. intros Hall _.
  apply Forall_cons in Hall as [Hseg Hall]. apply isSegment_chars in Hseg.
  destruct segs as [|seg' segs].
  - cbn [Path.unsplit app]. rewrite split_app_segment by done. rewrite split_slash.
    by rewrite string_app_nil_r.
  - rewrite unsplit_cons by done. rewrite !string_app_assoc.
    rewrite split_app_segment by done.
    change ("/" ++ Path.unsplit (seg' :: segs) ++ "/" ++ rest)
      with ("/" ++ (Path.unsplit (seg' :: segs) ++ "/" ++ rest)).
    rewrite split_slash, IH by done. by rewrite string_app_nil_r.
Qed.

(** Empty segments vanish in [normalizeString]. *)
Lemma normalizeSegs_sparse above acc segs :
  Forall (λ seg, seg = "" ∨ isSegment seg = true) segs →
  Path.normalizeSegs above acc segs = (rev acc ++ filter (λ seg, seg ≠ "") segs)%list.
Proof.
  revert acc. induction segs as [|seg segs IH]; intros acc Hall; cbn [Path.normalizeSegs].
  - by rewrite filter_nil, app_nil_r.
  - apply Forall_cons in Hall as [Hseg Hall]. destruct Hseg as [-> | Hseg].
    + rewrite filter_cons_False by (by intros ?). cbn. by rewrite IH.
    + pose proof (isSegment_nonempty seg Hseg) as Hne.
      unfold isSegment in Hseg. apply andb_true_iff in Hseg as [Hseg _].
      apply andb_true_iff in Hseg as [Hseg Hdd]. apply andb_true_iff in Hseg as [He Hd].
      destruct (seg =? "")%string; [done|]. destruct (seg =? ".")%string; [done|].
      destruct (seg =? "..")%string; [done|]. cbn [orb].
      rewrite IH by done. rewrite filter_cons_True by done. cbn. by rewrite <- app_assoc.
Qed.

Lemma filter_segments segs : segments segs → filter (λ seg, seg ≠ "") segs = segs.
Proof.
  induction segs as [|seg segs IH]; [done|]. intros [Hseg Hall]%Forall_cons.
  rewrite filter_cons_True by by apply isSegment_nonempty. by rewrite IH.
Qed.

Lemma endsInSegment_app a b : b ≠ "" → endsInSegment (a ++ b) = endsInSegment b.
Proof.
  intros Hb. unfold endsInSegment. rewrite list_ascii_app, rev_app_distr.
  destruct (rev (list_ascii_of_string b)) as [|c l] eqn:Hr; [|done].
  destruct b; [done|]. cbn in Hr. by destruct (rev (list_ascii_of_string b)).
Qed.

Lemma endsInSegment_segment seg : isSegment seg = true → endsInSegment seg = true.
Proof.
  intros Hseg. pose proof (isSegment_nonempty seg Hseg) as Hne.
  apply isSegment_chars in Hseg. unfold endsInSegment.
  destruct (rev (list_ascii_of_string seg)) as [|c l] eqn:Hr.
  - destruct seg; [done|]. cbn in Hr. by destruct (rev (list_ascii_of_string seg)).
  - rewrite forallb_forall in Hseg. apply Hseg. apply in_rev. rewrite Hr. by left.
Qed.

Lemma endsInSegment_unsplit segs : segments segs → segs ≠ [] → endsInSegment (Path.unsplit segs) = true.
Proof.
  induction segs as [|seg segs IH]; [done|]. intros [Hseg Hall]%Forall_cons _.
  destruct segs as [|seg' segs]; [by apply endsInSegment_segment|].
  rewrite unsplit_cons by done. rewrite <- string_app_assoc.
  rewrite endsInSegment_app by (by apply unsplit_nonempty). by apply IH.
Qed.

Lemma prefix_cons a b (s t : string) :
  String.prefix (String a s) (String b t) = if ascii_dec a b then String.prefix s t else false.
Proof. reflexivity. Qed.

Lemma endsWith_slash s : endsInSegment s = true → Js.endsWith s "/" = false.
Proof.
  unfold endsInSegment, Js.endsWith, Js.reverse.
  destruct (rev (list_ascii_of_string s)) as [|c l]; [done|]. intros Hc.
  change (String.prefix (String "/" "") (String c (string_of_list_ascii l)) = false).
  rewrite prefix_cons.
  unfold isSegmentChar, Path.isSlash in Hc. apply andb_true_iff in Hc as [Hc _].
  destruct (Ascii.eqb_spec c "/"); [done|].
  destruct (ascii_dec "/" c) as [<-|]; done.
Qed.

(** [normalize] of an absolute path whose pieces are segments or empty. *)
Lemma normalize_absolute p segs :
  Js.startsWith p "/" = true → endsInSegment p = true →
  Forall (λ seg, seg = "" ∨ isSegment seg = true) (Path.split p) →
  filter (λ seg, seg ≠ "") (Path.split p) = segs → segments segs → segs ≠ [] →
  Path.normalize p = absolute segs.
Proof.
  intros Habs Hend Hsparse Hfilter Hsegs Hne. unfold Path.normalize.
  destruct p as [|c p]; [done|]. cbn [String.eqb].
  rewrite Habs. cbn [negb]. rewrite endsWith_slash by done.
  rewrite normalizeSegs_sparse by done. cbn [rev app]. rewrite Hfilter.
  destruct (String.eqb_spec (Path.unsplit segs) "") as [Hemp|_].
  - by apply unsplit_nonempty in Hemp.
  - unfold absolute. by rewrite string_app_nil_r.
Qed.

Lemma prefix_nil (s : string) : String.prefix "" s = true.
Proof. by destruct s. Qed.

Lemma startsWith_absolute segs rest : Js.startsWith (absolute segs ++ rest) "/" = true.
Proof.
  unfold Js.startsWith, absolute. rewrite !append_cons, prefix_cons.
  destruct (ascii_dec "/" "/"); [apply prefix_nil|done].
Qed.

Lemma sparse_segments segs : segments segs → sparse segs.
Proof. intros Hall. eapply Forall_impl; [exact Hall|]. auto. Qed.

Lemma join_split remoteSegs below remote :
  segments remoteSegs → segments below → below ≠ [] →
  remote = absolute remoteSegs ∨ remote = absolute remoteSegs ++ "/" →
  sparse (Path.split (remote ++ "/" ++ Path.unsplit below)) ∧
  filter (λ seg, seg ≠ "") (Path.split (remote ++ "/" ++ Path.unsplit below)) =
    (remoteSegs ++ below)%list.
Proof.
  intros Hremote Hbelow Hne Hshape.
  pose proof (split_unsplit below Hbelow Hne) as Hsb.
  assert (∀ pre, sparse pre → filter (λ seg, seg ≠ "") pre = remoteSegs →
            sparse (pre ++ below)%list ∧
            filter (λ seg, seg ≠ "") (pre ++ below)%list = (remoteSegs ++ below)%list) as Hk.
  { intros pre Hpre Hf. split; [apply Forall_app; split; [done|by apply sparse_segments]|].
    by rewrite filter_app, Hf, filter_segments. }
  unfold absolute in Hshape.
  destruct (decide (remoteSegs = [])) as [->|Hrs]; destruct Hshape as [-> | ->].
  - cbn [Path.unsplit]. rewrite !string_app_assoc, split_slash, append_nil_l, split_slash, Hsb.
    apply (Hk [""; ""]); [repeat constructor; by left|done].
  - cbn [Path.unsplit].
    rewrite !string_app_assoc, split_slash, append_nil_l, split_slash, split_slash, Hsb.
    apply (Hk [""; ""; ""]); [repeat constructor; by left|done].
  - rewrite string_app_assoc. rewrite split_slash, split_unsplit_app, Hsb by done.
    apply (Hk ("" :: remoteSegs)).
    + constructor; [by left|by apply sparse_segments].
    + rewrite filter_cons_False by (by intros ?). by apply filter_segments.
  - rewrite !string_app_assoc. rewrite split_slash, split_unsplit_app by done.
    rewrite split_slash, Hsb.
    assert (("" :: remoteSegs ++ "" :: below)%list =
            (("" :: remoteSegs ++ [""]) ++ below)%list) as ->
      by (cbn; by rewrite <- app_assoc).
    apply (Hk ("" :: remoteSegs ++ [""])%list).
    + constructor; [by left|]. apply Forall_app. split; [by apply sparse_segments|].
      repeat constructor; by left.
    + rewrite filter_cons_False by (by intros ?). rewrite filter_app, filter_segments by done.
      rewrite filter_cons_False by (by intros ?). by rewrite filter_nil, app_nil_r.
Qed.

Lemma toRemotePath_segments root below remoteSegs remote :
  segments root → segments below → below ≠ [] → segments remoteSegs →
  remote = absolute remoteSegs ∨ remote = absolute remoteSegs ++ "/" →
  PathUtils.toRemotePath (absolute (root ++ below)) (absolute root) remote =
    absolute (remoteSegs ++ below).
Proof.
  intros Hroot Hbelow Hne Hremote Hshape. unfold PathUtils.toRemotePath.
  rewrite relative_below by done. rewrite replaceChar_unsplit by done.
  pose proof (unsplit_nonempty below Hbelow Hne) as Hb.
  destruct (join_split remoteSegs below remote Hremote Hbelow Hne Hshape) as [Hsparse Hfilter].
  unfold Path.join.
  assert ((remote =? "")%string = false) as -> by (by destruct Hshape as [-> | ->]).
  destruct (String.eqb_spec (Path.unsplit below) "") as [|_]; [done|].
  apply normalize_absolute; try done.
  - destruct Hshape as [-> | ->]; [apply startsWith_absolute|].
    rewrite string_app_assoc. apply startsWith_absolute.
  - rewrite endsInSegment_app by done.
    change ("/" ++ Path.unsplit below) with (String "/" "" ++ Path.unsplit below).
    rewrite endsInSegment_app by done. by apply endsInSegment_unsplit.
  - apply Forall_app. done.
  - intros [? ?]%app_eq_nil. done.
Qed.

(** *** basename and dirname of a path made of segments *)

Lemma dropWhile_app_all (f : ascii → bool) l l' :
  forallb f l = true → Path.dropWhile f (l ++ l') = Path.dropWhile f l'.
Proof.
  induction l as [|c l IH]; [done|]. cbn. intros [Hc Hl]%andb_true_iff. rewrite Hc. by apply IH.
Qed.

Lemma takeWhile_app_all (f : ascii → bool) l c l' :
  forallb f l = true → f c = false → Path.takeWhile f (l ++ c :: l') = l.
Proof.
  induction l as [|d l IH]; cbn.
  - intros _ ->. done.
  - intros [Hd Hl]%andb_true_iff Hc. rewrite Hd. by rewrite IH.
Qed.

Lemma takeWhile_all (f : ascii → bool) l : forallb f l = true → Path.takeWhile f l = l.
Proof.
  induction l as [|d l IH]; [done|]. cbn. intros [Hd Hl]%andb_true_iff. rewrite Hd. by rewrite IH.
Qed.

Lemma forallb_rev {A} (f : A → bool) l : forallb f (rev l) = forallb f l.
Proof.
  induction l as [|x l IH]; [done|]. cbn. rewrite forallb_app, IH. cbn.
  rewrite andb_true_r. apply andb_comm.
Qed.

Lemma segment_not_slash seg :
  isSegment seg = true →
  forallb (λ c, negb (Path.isSlash c)) (list_ascii_of_string seg) = true.
Proof.
  intros Hseg%isSegment_chars. rewrite forallb_forall in *. intros c Hc.
  specialize (Hseg c Hc). unfold isSegmentChar in Hseg. by apply andb_true_iff in Hseg as [? _].
Qed.

Lemma segment_rev_head seg :
  isSegment seg = true →
  ∃ c l, rev (list_ascii_of_string seg) = c :: l ∧ Path.isSlash c = false.
Proof.
  intros Hseg. pose proof (isSegment_nonempty seg Hseg) as Hne.
  pose proof (segment_not_slash seg Hseg) as Hns. rewrite <- forallb_rev in Hns.
  destruct (rev (list_ascii_of_string seg)) as [|c l] eqn:Hr.
  - destruct seg; [done|]. cbn in Hr. by destruct (rev (list_ascii_of_string seg)).
  - exists c, l. split; [done|]. cbn in Hns. apply andb_true_iff in Hns as [Hc _].
    by destruct (Path.isSlash c).
Qed.

Lemma rev_chars_last pre seg :
  isSegment seg = true →
  Path.dropWhile Path.isSlash (rev (pre ++ list_ascii_of_string seg)) =
    (rev (list_ascii_of_string seg) ++ rev pre)%list.
Proof.
  intros Hseg. rewrite rev_app_distr.
  destruct (segment_rev_head seg Hseg) as (c & l & -> & Hc). cbn. by rewrite Hc.
Qed.

Lemma basename_last pre seg :
  isSegment seg = true →
  Path.basename (string_of_list_ascii (pre ++ "/"%char :: list_ascii_of_string seg)) = seg.
Proof.
  intros Hseg. unfold Path.basename. rewrite list_ascii_of_string_of_list_ascii.
  change (pre ++ "/"%char :: list_ascii_of_string seg)%list
    with (pre ++ ["/"%char] ++ list_ascii_of_string seg)%list.
  rewrite app_assoc, rev_chars_last by done. rewrite rev_app_distr. cbn [rev app].
  rewrite takeWhile_app_all.
  - by rewrite rev_involutive, string_of_list_ascii_of_string.
  - rewrite forallb_rev. by apply segment_not_slash.
  - done.
Qed.

Lemma string_of_list_ascii_app a b :
  string_of_list_ascii (a ++ b) = string_of_list_ascii a ++ string_of_list_ascii b.
Proof. induction a as [|c a IH]; [done|]. cbn. by rewrite IH. Qed.

Lemma absolute_snoc segs seg :
  segs ≠ [] →
  absolute (segs ++ [seg]) =
    string_of_list_ascii (list_ascii_of_string (absolute segs) ++
                          "/"%char :: list_ascii_of_string seg).
Proof.
  intros Hne. unfold absolute. rewrite unsplit_app by done.
  rewrite string_of_list_ascii_app. cbn [string_of_list_ascii].
  rewrite !string_of_list_ascii_of_string. cbn [Path.unsplit].
  by rewrite string_app_assoc.
Qed.

Lemma basename_absolute segs seg :
  isSegment seg = true → Path.basename (absolute (segs ++ [seg])) = seg.
Proof.
  intros Hseg. destruct (decide (segs = [])) as [->|Hne].
  - pose proof (basename_last [] seg Hseg) as Hb. cbn [app string_of_list_ascii] in Hb.
    rewrite string_of_list_ascii_of_string in Hb. exact Hb.
  - rewrite absolute_snoc by done. by apply basename_last.
Qed.

Lemma dirname_chars pre seg :
  isSegment seg = true → pre ≠ [] →
  Path.dirname (string_of_list_ascii ("/"%char :: pre ++ "/"%char :: list_ascii_of_string seg)) =
    string_of_list_ascii ("/"%char :: pre).
Proof.
  intros Hseg Hpre. unfold Path.dirname. rewrite list_ascii_of_string_of_list_ascii.
  change (Path.isSlash "/") with true. cbv iota beta.
  change (pre ++ "/"%char :: list_ascii_of_string seg)%list
    with (pre ++ ["/"%char] ++ list_ascii_of_string seg)%list.
  rewrite app_assoc, rev_chars_last by done.
  rewrite dropWhile_app_all by (rewrite forallb_rev; by apply segment_not_slash).
  rewrite rev_app_distr. change (rev ["/"%char] ++ rev pre)%list with ("/"%char :: rev pre).
  cbn [Path.dropWhile]. change (negb (Path.isSlash "/")) with false. cbv iota beta.
  destruct (rev pre) as [|c l] eqn:Hr.
  { apply (f_equal (@rev ascii)) in Hr. rewrite rev_involutive in Hr. done. }
  by rewrite <- Hr, rev_involutive.
Qed.

Lemma dirname_top seg :
  isSegment seg = true →
  Path.dirname (string_of_list_ascii ("/"%char :: list_ascii_of_string seg)) = "/".
Proof.
  intros Hseg. unfold Path.dirname. rewrite list_ascii_of_string_of_list_ascii.
  change (Path.isSlash "/") with true. cbv iota beta.
  pose proof (rev_chars_last [] seg Hseg) as Hr. cbn [app rev] in Hr. rewrite Hr, app_nil_r.
  pose proof (dropWhile_app_all (λ c, negb (Path.isSlash c)) (rev (list_ascii_of_string seg)) [])
    as Hd. rewrite app_nil_r in Hd. rewrite Hd; [done|].
  rewrite forallb_rev. by apply segment_not_slash.
Qed.

Lemma chars_absolute segs :
  list_ascii_of_string (absolute segs) = "/"%char :: list_ascii_of_string (Path.unsplit segs).
Proof. unfold absolute. by rewrite append_cons. Qed.

Lemma dirname_absolute segs seg :
  segments segs → isSegment seg = true →
  Path.dirname (absolute (segs ++ [seg])) = absolute segs.
Proof.
  intros Hsegs Hseg. destruct (decide (segs = [])) as [->|Hne].
  - pose proof (dirname_top seg Hseg) as Hd. cbn [string_of_list_ascii] in Hd.
    rewrite string_of_list_ascii_of_string in Hd. exact Hd.
  - rewrite absolute_snoc by done. rewrite chars_absolute.
    change (("/"%char :: list_ascii_of_string (Path.unsplit segs)) ++
            "/"%char :: list_ascii_of_string seg)%list
      with ("/"%char :: list_ascii_of_string (Path.unsplit segs) ++
            "/"%char :: list_ascii_of_string seg)%list.
    rewrite dirname_chars; [|done|].
    + cbn [string_of_list_ascii]. by rewrite string_of_list_ascii_of_string.
    + pose proof (unsplit_nonempty segs Hsegs Hne) as Hu.
      by destruct (Path.unsplit segs).
Qed.

Lemma absolute_no_backslash segs :
  segments segs → Js.replaceChar "\" "/" (absolute segs) = absolute segs.
Proof.
  intros Hall. unfold absolute. rewrite append_cons. cbn [Js.replaceChar].
  change (Ascii.eqb "\" "/") with false. cbv iota. rewrite append_nil_l.
  by rewrite replaceChar_unsplit.
Qed.

(** X11: for a file below the workspace root, with paths made of plain
    segments, [toRemotePath] is the remote root followed by the path of the
    file relative to the workspace, whether the configured remote path ends in
    a slash or not; it has the file name of the local file, and its directory
    is the remote root followed by the relative path of the local directory.
    *)
Theorem remote_path_mirrors_workspace (root below remoteSegs : list string) (seg remote : string) :
  forallb isSegment root = true → forallb isSegment below = true → isSegment seg = true →
  forallb isSegment remoteSegs = true →
  remote = absolute remoteSegs ∨ remote = absolute remoteSegs ++ "/" →
  let localFile := absolute (root ++ below ++ [seg]) in
  let target := PathUtils.toRemotePath localFile (absolute root) remote in
  target = absolute (remoteSegs ++ below ++ [seg]) ∧
  Path.basename target = seg ∧ Path.basename localFile = seg ∧
  PathUtils.getDirectoryPath target = absolute (remoteSegs ++ below).
Proof.
  intros Hroot%segments_forallb Hbelow%segments_forallb Hseg Hremote%segments_forallb Hshape.
  cbn zeta.
  assert (segments (below ++ [seg])) as Hfile by (apply Forall_app; split; [done|by constructor]).
  rewrite (toRemotePath_segments root (below ++ [seg]) remoteSegs remote); try done.
  2:{ by intros [_ ?]%app_eq_nil. }
  split; [done|]. rewrite !app_assoc.
  split; [by apply basename_absolute|]. split; [by apply basename_absolute|].
  unfold PathUtils.getDirectoryPath. rewrite absolute_no_backslash.
  - apply dirname_absolute; [by apply Forall_app|done].
  - apply Forall_app. split; [by apply Forall_app|by constructor].
Qed.

(** *** Ignore patterns *)

Lemma prefix_app (a b : string) : String.prefix a (a ++ b) = true.
Proof.
  induction a as [|c a IH]; [apply prefix_nil|]. rewrite append_cons, prefix_cons.
  by destruct (ascii_dec c c).
Qed.

Lemma prefix_refl (a : string) : String.prefix a a = true.
Proof. pose proof (prefix_app a "") as Hp. by rewrite string_app_nil_r in Hp. Qed.

Lemma endsWith_app_slash (s : string) : Js.endsWith (s ++ "/") "/" = true.
Proof.
  unfold Js.endsWith, Js.reverse. rewrite list_ascii_app, rev_app_distr.
  change (rev (list_ascii_of_string "/")) with ["/"%char].
  cbn [app string_of_list_ascii]. rewrite prefix_cons.
  destruct (ascii_dec "/" "/"); [apply prefix_nil|done].
Qed.

Section IgnoredNames.
Context `{Host}.

Lemma shouldIgnoreFile_intro filePath patterns pattern :
  pattern ∈ (PathUtils.defaultIgnores ++ default [] patterns)%list →
  PathUtils.patternMatches (Path.basename filePath)
    (if Js.truthy getWorkspaceRoot
     then Js.replaceChar "\" "/" (Path.relative (default "" getWorkspaceRoot) filePath)
     else Path.basename filePath) pattern = true →
  PathUtils.shouldIgnoreFile filePath patterns = true.
Proof.
  intros Hin Hm. unfold PathUtils.shouldIgnoreFile. apply existsb_exists.
  exists pattern. split; [by apply list_elem_of_In|done].
Qed.

Lemma patternMatches_name fileName relativePath :
  fileName ≠ "" → PathUtils.patternMatches fileName relativePath fileName = true.
Proof.
  intros Hne. unfold PathUtils.patternMatches.
  destruct (String.eqb_spec fileName ""); [done|]. by rewrite String.eqb_refl.
Qed.

(** X12: a path whose file name is one of the built-in names ([.git],
    [.vscode], [node_modules], [.DS_Store], [Thumbs.db], [.env],
    [smartftp.json]) is ignored under every pattern list; [uploadFile] leaves
    every manager as it is for it, the watcher's debounce and save handlers
    leave the watcher as it is, and the sync comparison skips a remote item
    that would land there. *)
Theorem builtin_names_never_leave (filePath : string) :
  Path.basename filePath ∈ builtinNames →
  (∀ patterns, PathUtils.shouldIgnoreFile filePath patterns = true) ∧
  (∀ fs now remotePath_ s, (uploadFile fs now filePath remotePath_ s).2 = s) ∧
  (∀ w, FileWatcher.debounceUpload filePath w = w ∧ FileWatcher.documentSaved filePath w = w) ∧
  (∀ config_ localFolderPath stats mkdir remoteItem,
     Path.join localFolderPath (itemName remoteItem) = filePath →
     syncDecision config_ localFolderPath stats mkdir remoteItem = Skip).
Proof.
  intros Hin.
  assert (∀ patterns, PathUtils.shouldIgnoreFile filePath patterns = true) as Hign.
  { intros patterns. apply (shouldIgnoreFile_intro _ _ (Path.basename filePath)).
    - apply elem_of_app. left. unfold builtinNames in Hin.
      apply list_elem_of_In, filter_In in Hin as [Hin _]. by apply list_elem_of_In.
    - apply patternMatches_name. intros Hemp. rewrite Hemp in Hin. vm_compute in Hin.
      repeat (apply elem_of_cons in Hin as [Hin|Hin]; [done|]). by apply elem_of_nil in Hin. }
  split; [done|]. split; [|split].
  - intros fs now remotePath_ s. unfold uploadFile.
    destruct (isSyncingOrDownloading s); [done|]. destruct (config s); [|done].
    destruct (negb _); [done|]. destruct (if Js.truthy remotePath_ then _ else _); [|done].
    unfold ignoredOnUpload. by rewrite Hign.
  - intros w. unfold FileWatcher.debounceUpload, FileWatcher.documentSaved,
      ignoredOnDebounce, ignoredOnSave. rewrite Hign. by destruct (negb _).
  - intros config_ localFolderPath stats mkdir remoteItem Hjoin. unfold syncDecision, ignoredOnSync.
    rewrite Hjoin, Hign. by destruct (_ || _).
Qed.

(** X13: a configured pattern [dir/], with [dir] a path of plain segments
    without star, ignores every path of the workspace below [dir], and [dir]
    itself: such a path is ignored at upload and at sync, and [uploadFile]
    leaves the manager as it is for it. *)
Theorem directory_pattern_covers_subtree (root dir below patterns : list string) :
  getWorkspaceRoot = Some (absolute root) →
  forallb isSegment root = true → forallb isSegment dir = true →
  forallb isSegment below = true → dir ≠ [] →
  Js.includes "*" (Path.unsplit dir) = false →
  (Path.unsplit dir ++ "/") ∈ patterns →
  let filePath := absolute (root ++ dir ++ below) in
  PathUtils.shouldIgnoreFile filePath (Some patterns) = true ∧
  (∀ cfg, ignore cfg = Some patterns →
     ignoredOnUpload cfg filePath = true ∧ ignoredOnSync (Some cfg) filePath = true ∧
     ∀ fs now remotePath_ s, config s = Some cfg →
       (uploadFile fs now filePath remotePath_ s).2 = s).
Proof.
  intros Hroot Hr%segments_forallb Hd%segments_forallb Hb%segments_forallb Hne Hstar Hin.
  cbn zeta.
  assert (PathUtils.shouldIgnoreFile (absolute (root ++ dir ++ below)) (Some patterns) = true)
    as Hign.
  { apply (shouldIgnoreFile_intro _ _ (Path.unsplit dir ++ "/")).
    { apply elem_of_app. by right. }
    rewrite Hroot. cbn [Js.truthy from_option id].
    assert ((absolute root =? "")%string = false) as -> by done. cbn [negb].
    rewrite relative_below by (try apply Forall_app; done).
    rewrite replaceChar_unsplit by (apply Forall_app; done).
    unfold PathUtils.patternMatches.
    assert ((Path.unsplit dir ++ "/" =? "")%string = false) as ->.
    { destruct (Path.unsplit dir); done. }
    destruct (_ || _); [done|].
    assert (Js.includes "*" (Path.unsplit dir ++ "/") = false) as ->.
    { revert Hstar. generalize (Path.unsplit dir). intros s. induction s as [|c s IH]; [done|].
      rewrite append_cons. cbn [Js.includes]. rewrite !prefix_cons.
      destruct (ascii_dec "*" c); [by rewrite prefix_nil|]. cbn [orb]. exact IH. }
    rewrite endsWith_app_slash. cbn [andb]. unfold Js.startsWith.
    destruct (decide (below = [])) as [->|Hbne].
    - rewrite app_nil_r. apply prefix_refl.
    - rewrite unsplit_app by done. rewrite !string_app_assoc.
      rewrite <- (string_app_assoc (Path.unsplit dir) "/"). apply prefix_app. }
  split; [done|]. intros cfg Hcfg. unfold ignoredOnUpload, ignoredOnSync. cbn. rewrite Hcfg.
  split; [done|]. split; [done|].
  intros fs now remotePath_ s Hc. unfold uploadFile.
  destruct (isSyncingOrDownloading s); [done|]. rewrite Hc.
  destruct (negb _); [done|]. destruct (if Js.truthy remotePath_ then _ else _); [|done].
  unfold ignoredOnUpload. by rewrite Hcfg, Hign.
Qed.

End IgnoredNames.

(** *** The built-in glob for log files, on a POSIX host *)

Lemma matchItems_star_cons a items c l :
  RegExpFragment.matchItems ((a, RegExpFragment.Star) :: items) (c :: l) =
    RegExpFragment.matchItems items (c :: l) ||
    (RegExpFragment.atomMatches a c &&
     RegExpFragment.matchItems ((a, RegExpFragment.Star) :: items) l).
Proof. reflexivity. Qed.

Lemma matchItems_star_skip a items pre s :
  forallb (RegExpFragment.atomMatches a) pre = true →
  RegExpFragment.matchItems items s = true →
  RegExpFragment.matchItems ((a, RegExpFragment.Star) :: items) (pre ++ s) = true.
Proof.
  intros Hpre Hs. induction pre as [|c pre IH].
  - cbn [app]. destruct s as [|c s]; [by cbn; rewrite Hs|]. by rewrite matchItems_star_cons, Hs.
  - cbn in Hpre. apply andb_true_iff in Hpre as [Hc Hpre].
    change ((c :: pre) ++ s)%list with (c :: (pre ++ s))%list.
    rewrite matchItems_star_cons, Hc, IH by done. apply orb_true_r.
Qed.

Lemma basename_no_slash filePath :
  forallb (λ c, negb (Path.isSlash c)) (list_ascii_of_string (Path.basename filePath)) = true.
Proof.
  unfold Path.basename. rewrite list_ascii_of_string_of_list_ascii, forallb_rev.
  generalize (Path.dropWhile Path.isSlash (rev (list_ascii_of_string filePath))).
  intros l. induction l as [|c l IH]; [done|]. cbn.
  destruct (negb (Path.isSlash c)) eqn:Hc; [|done]. cbn. by rewrite Hc.
Qed.

(** X14: on the POSIX host, whose regular expressions are those of
    [RegExpFragment], a path whose file name ends in [.log] is ignored under
    every pattern list; [uploadFile] leaves the manager as it is for it, and
    so do the watcher's debounce and save handlers for the watcher. *)
Theorem log_files_never_leave (root filePath stem : string) :
  Path.basename filePath = stem ++ ".log" →
  (∀ patterns, @PathUtils.shouldIgnoreFile (posixHost root) filePath patterns = true) ∧
  (∀ fs now remotePath_ s, (@uploadFile (posixHost root) fs now filePath remotePath_ s).2 = s) ∧
  (∀ w, @FileWatcher.debounceUpload (posixHost root) filePath w = w ∧
        @FileWatcher.documentSaved (posixHost root) filePath w = w).
Proof.
  intros Hname.
  assert (∀ patterns, @PathUtils.shouldIgnoreFile (posixHost root) filePath patterns = true) as Hign.
  { intros patterns. apply (@shouldIgnoreFile_intro (posixHost root) _ _ "*.log").
    { apply elem_of_app. left. unfold PathUtils.defaultIgnores. set_solver. }
    unfold PathUtils.patternMatches.
    change ("*.log" =? "")%string with false. cbv iota.
    destruct (_ || _); [done|].
    assert (Js.includes "*" "*.log" = true) as -> by done.
    assert (@regExp (posixHost root) ("^" ++ PathUtils.globToRegex "*.log" ++ "$") =
            Some (λ subject,
                  RegExpFragment.matchItems
                    [ (RegExpFragment.NotSlash, RegExpFragment.Star);
                      (RegExpFragment.Lit ".", RegExpFragment.One);
                      (RegExpFragment.Lit "l", RegExpFragment.One);
                      (RegExpFragment.Lit "o", RegExpFragment.One);
                      (RegExpFragment.Lit "g", RegExpFragment.One) ]
                    (list_ascii_of_string subject))) as -> by reflexivity.
    apply orb_true_iff. left. rewrite Hname, list_ascii_app.
    apply matchItems_star_skip; [|done].
    pose proof (basename_no_slash filePath) as Hns. rewrite Hname, list_ascii_app in Hns.
    rewrite forallb_app in Hns. apply andb_true_iff in Hns as [Hns _].
    exact Hns. }
  split; [done|]. split.
  - intros fs now remotePath_ s. unfold uploadFile.
    destruct (isSyncingOrDownloading s); [done|]. destruct (config s); [|done].
    destruct (negb _); [done|]. destruct (if Js.truthy remotePath_ then _ else _); [|done].
    unfold ignoredOnUpload. by rewrite Hign.
  - intros w. unfold FileWatcher.debounceUpload, FileWatcher.documentSaved,
      ignoredOnDebounce, ignoredOnSave. rewrite Hign. by destruct (negb _).
Qed.

End Segments.

(** X11 (witness) *)
Lemma remote_path_mirrors_workspace_witness :
  PathUtils.toRemotePath "/ws/src/a.ts" "/ws" "/public_html/" = "/public_html/src/a.ts" ∧
  Path.basename "/public_html/src/a.ts" = "a.ts" ∧
  PathUtils.getDirectoryPath "/public_html/src/a.ts" = "/public_html/src".
Proof.
  destruct (remote_path_mirrors_workspace ["ws"] ["src"] ["public_html"] "a.ts" "/public_html/")
    as (Htarget & _ & _ & Hdir); [reflexivity..|by right|].
  split; [exact Htarget|]. split; [reflexivity|]. rewrite Htarget in Hdir. exact Hdir.
Defined.

(** X12 (witness) *)
Lemma builtin_names_never_leave_witness :
  Path.basename "/ws/smartftp.json" ∈ builtinNames ∧
  (@uploadFile demoHost allFiles 5 "/ws/smartftp.json" None demoConnected).2 = demoConnected.
Proof.
  assert (Path.basename "/ws/smartftp.json" ∈ builtinNames) as Hname
    by (vm_compute; set_solver).
  split; [exact Hname|].
  destruct (@builtin_names_never_leave demoHost "/ws/smartftp.json" Hname) as (_ & Hupload & _).
  apply Hupload.
Defined.

(** X13 (witness) *)
Lemma directory_pattern_covers_subtree_witness :
  @PathUtils.shouldIgnoreFile demoHost "/ws/dist/js/app.js" (Some ["dist/"]) = true.
Proof.
  destruct (@directory_pattern_covers_subtree demoHost ["ws"] ["dist"] ["js"; "app.js"] ["dist/"])
    as (Hignored & _); [reflexivity..|done|reflexivity|set_solver|].
  exact Hignored.
Defined.

(** X14 (witness) *)
Lemma log_files_never_leave_witness :
  @PathUtils.shouldIgnoreFile (posixHost "/ws") "/ws/logs/debug.log" (Some []) = true.
Proof.
  destruct (log_files_never_leave "/ws" "/ws/logs/debug.log" "debug") as (Hignored & _);
    [reflexivity|].
  apply Hignored.
Defined.

(** ** Slashes in remote paths *)

Lemma includes_cons needle c s :
  Js.includes needle (String c s) = String.prefix needle (String c s) || Js.includes needle s.
Proof. reflexivity. Qed.

Lemma replaceSlashRuns_no_run afterSlash s :
  Js.includes "//" (Js.replaceSlashRuns afterSlash s) = false ∧
  (afterSlash = true → String.prefix "/" (Js.replaceSlashRuns afterSlash s) = false).
Proof.
  revert afterSlash. induction s as [|c s IH]; intros afterSlash; [done|].
  cbn [Js.replaceSlashRuns]. destruct (Ascii.eqb_spec c "/") as [->|Hc].
  - destruct afterSlash; [apply IH|]. split; [|done].
    rewrite includes_cons, prefix_cons. destruct (ascii_dec "/" "/"); [|done].
    destruct (IH true) as [-> ->]; done.
  - split.
    + rewrite includes_cons, prefix_cons. destruct (ascii_dec "/" c) as [<-|]; [done|].
      by destruct (IH false) as [-> _].
    + intros _. rewrite prefix_cons. by destruct (ascii_dec "/" c) as [<-|].
Qed.

Lemma replaceChar_no_backslash s : Js.includes "\" (Js.replaceChar "\" "/" s) = false.
Proof.
  induction s as [|c s IH]; [done|]. cbn [Js.replaceChar].
  destruct (Ascii.eqb_spec "\" c) as [<-|Hc].
  - change ("/" ++ Js.replaceChar "\" "/" s) with (String "/" (Js.replaceChar "\" "/" s)).
    by rewrite includes_cons, prefix_cons, IH.
  - rewrite includes_cons, prefix_cons, IH. by destruct (ascii_dec "\" c).
Qed.

Lemma replaceSlashRuns_no_backslash afterSlash s :
  Js.includes "\" s = false → Js.includes "\" (Js.replaceSlashRuns afterSlash s) = false.
Proof.
  revert afterSlash. induction s as [|c s IH]; intros afterSlash; [done|].
  rewrite includes_cons, prefix_cons. intros [Hc Hs]%orb_false_iff.
  cbn [Js.replaceSlashRuns]. destruct (Ascii.eqb_spec c "/") as [->|Hne]; [destruct afterSlash|].
  - by apply IH.
  - rewrite includes_cons, prefix_cons. destruct (ascii_dec "\" "/"); [done|]. by rewrite IH.
  - rewrite includes_cons, prefix_cons. destruct (ascii_dec "\" c) as [<-|].
    + by rewrite prefix_nil in Hc.
    + by rewrite IH.
Qed.

Lemma replaceSlashRuns_fixed afterSlash s :
  Js.includes "//" s = false → (afterSlash = true → String.prefix "/" s = false) →
  Js.replaceSlashRuns afterSlash s = s.
Proof.
  revert afterSlash. induction s as [|c s IH]; intros afterSlash; [done|].
  rewrite includes_cons, !prefix_cons. intros [Hc Hs]%orb_false_iff Hstart.
  cbn [Js.replaceSlashRuns]. destruct (Ascii.eqb_spec c "/") as [->|Hne].
  - destruct (ascii_dec "/" "/"); [|done]. destruct afterSlash.
    + specialize (Hstart eq_refl). by rewrite prefix_nil in Hstart.
    + by rewrite IH.
  - rewrite IH; [done|done|]. intros ?. done.
Qed.

Lemma replaceChar_fixed c by_ s : Js.includes (String c "") s = false → Js.replaceChar c by_ s = s.
Proof.
  induction s as [|d s IH]; [done|]. rewrite includes_cons, prefix_cons.
  intros [Hd Hs]%orb_false_iff. cbn [Js.replaceChar].
  destruct (Ascii.eqb_spec c d) as [->|Hne].
  - destruct (ascii_dec d d); [|done]. by rewrite prefix_nil in Hd.
  - by rewrite IH.
Qed.

(** X15: the result of [normalizeFtpPath] has no backslash and no two slashes
    in a row; normalising it again changes nothing, and a path that has
    neither is returned as it is. *)
Theorem normalizeFtpPath_normal_form (ftpPath : string) :
  Js.includes "\" (PathUtils.normalizeFtpPath ftpPath) = false ∧
  Js.includes "//" (PathUtils.normalizeFtpPath ftpPath) = false ∧
  PathUtils.normalizeFtpPath (PathUtils.normalizeFtpPath ftpPath) = PathUtils.normalizeFtpPath ftpPath ∧
  (Js.includes "\" ftpPath = false → Js.includes "//" ftpPath = false →
   PathUtils.normalizeFtpPath ftpPath = ftpPath).
Proof.
  assert (∀ p, Js.includes "\" p = false → Js.includes "//" p = false →
               PathUtils.normalizeFtpPath p = p) as Hfixed.
  { intros p Hb Hs. unfold PathUtils.normalizeFtpPath. rewrite replaceChar_fixed by done.
    by apply replaceSlashRuns_fixed. }
  assert (Js.includes "\" (PathUtils.normalizeFtpPath ftpPath) = false) as Hb.
  { apply replaceSlashRuns_no_backslash, replaceChar_no_backslash. }
  assert (Js.includes "//" (PathUtils.normalizeFtpPath ftpPath) = false) as Hs.
  { apply replaceSlashRuns_no_run. }
  split; [done|]. split; [done|]. split; [by apply Hfixed|apply Hfixed].
Qed.

(** ** The sync comparison, item by item *)

Section SyncItems.
Context `{Host}.





(** *** The local index *)

Lemma readLocalItems_snoc config_ localFolderPath files file :
  readLocalItems config_ localFolderPath (files ++ [file]) =
    let stats := readLocalItems config_ localFolderPath files in
    if ignoredOnSync config_ (Path.join localFolderPath (direntName file)) then stats
    else match direntStat file with
         | Some (mtime, sz) =>
             assignStats (direntName file) (statsOf localFolderPath file mtime sz) stats
         | None => stats
         end.
Proof. unfold readLocalItems. by rewrite fold_left_app. Qed.

Lemma storedStats_assign n l o name :
  storedStats name (assignStats n l o) = if decide (n = name) then Some l else storedStats name o.
Proof.
  unfold storedStats, assignStats.
  destruct (String.eqb_spec n "__proto__") as [->|Hn];
    destruct (String.eqb_spec name "__proto__") as [->|Hname]; cbn.
  - by rewrite decide_True.
  - by rewrite decide_False.
  - by rewrite decide_False.
  - destruct (decide (n = name)) as [->|Hne];
      [by rewrite lookup_insert_eq | by rewrite lookup_insert_ne].
Qed.

Lemma lookupStats_stored name o l : storedStats name o = Some l → lookupStats name o = VStats l.
Proof.
  unfold storedStats, lookupStats. destruct (name =? "__proto__")%string; by intros ->.
Qed.

Lemma lookupStats_plain_stored name o :
  plainName name → protoStats o = None →
  lookupStats name o = match storedStats name o with
                       | Some l => VStats l
                       | None => VUndefined
                       end.
Proof.
  intros [Hproto Hmethod] Hnone. rewrite (lookupStats_plain name o) by done.
  unfold storedStats. apply String.eqb_neq in Hproto. by rewrite Hproto.
Qed.

(** X17: under a name the local index of a folder has stored the stats of a
    listed entry of that name that is not ignored and could be read, and it
    answers with them when asked for the name; it has stored nothing under a
    name only if every listed entry of that name is ignored or could not be
    read.  For a name that [Object.prototype] does not have, in an index
    that has stored no entry [__proto__], nothing stored means that the
    index answers [undefined], and an unignored remote file of that name is
    downloaded as missing. *)
Theorem local_index_lists_what_was_read (config_ : option FTPConfig)
    (localFolderPath : string) (files : list Dirent) (name : string) :
  let stats := readLocalItems config_ localFolderPath files in
  (∀ l, storedStats name stats = Some l →
     lookupStats name stats = VStats l ∧
     ignoredOnSync config_ (Path.join localFolderPath name) = false ∧
     ∃ file mtime sz, file ∈ files ∧ direntName file = name ∧
                      direntStat file = Some (mtime, sz) ∧
                      l = statsOf localFolderPath file mtime sz) ∧
  (storedStats name stats = None →
     ∀ file, file ∈ files → direntName file = name →
       ignoredOnSync config_ (Path.join localFolderPath name) = true ∨ direntStat file = None) ∧
  (storedStats name stats = None → plainName name → protoStats stats = None →
     lookupStats name stats = VUndefined ∧
     ∀ mkdir remoteItem, itemName remoteItem = name → type remoteItem = File →
       name ≠ "." → name ≠ ".." →
       ignoredOnSync config_ (Path.join localFolderPath name) = false →
       syncDecision config_ localFolderPath stats mkdir remoteItem
         = DownloadFile "Local file missing").
Proof.
  cbn zeta.
  assert (∀ l, storedStats name (readLocalItems config_ localFolderPath files) = Some l →
     ignoredOnSync config_ (Path.join localFolderPath name) = false ∧
     ∃ file mtime sz, file ∈ files ∧ direntName file = name ∧
                      direntStat file = Some (mtime, sz) ∧
                      l = statsOf localFolderPath file mtime sz) as Hsound.
  { induction files as [|file files IH] using rev_ind; intros l.
    - unfold readLocalItems, storedStats. cbn.
      destruct (name =? "__proto__")%string; [done|by rewrite lookup_empty].
    - rewrite readLocalItems_snoc. cbn zeta.
      assert (∀ l, storedStats name (readLocalItems config_ localFolderPath files) = Some l →
                ignoredOnSync config_ (Path.join localFolderPath name) = false ∧
                ∃ file0 mtime sz, file0 ∈ (files ++ [file])%list ∧ direntName file0 = name ∧
                  direntStat file0 = Some (mtime, sz) ∧
                  l = statsOf localFolderPath file0 mtime sz) as IH'.
      { intros l0 Hl0. destruct (IH l0 Hl0) as (Hign & f & m & sz & Hin & ? & ? & ?).
        split; [done|]. exists f, m, sz. rewrite elem_of_app. auto. }
      destruct (ignoredOnSync config_ (Path.join localFolderPath (direntName file))) eqn:Hign;
        [apply IH'|].
      destruct (direntStat file) as [[mtime sz]|] eqn:Hst; [|apply IH'].
      rewrite storedStats_assign.
      destruct (decide (direntName file = name)) as [Heq|Hne]; [|apply IH'].
      intros [= <-]. rewrite <- Heq. split; [done|].
      exists file, mtime, sz. rewrite elem_of_app, list_elem_of_singleton. auto. }
  assert (storedStats name (readLocalItems config_ localFolderPath files) = None →
     ∀ file, file ∈ files → direntName file = name →
       ignoredOnSync config_ (Path.join localFolderPath name) = true ∨ direntStat file = None)
    as Hcomplete.
  { clear Hsound. induction files as [|file files IH] using rev_ind.
    - intros _ file Hin. by apply elem_of_nil in Hin.
    - rewrite readLocalItems_snoc. cbn zeta. intros Hnone f Hin Hname.
      destruct (ignoredOnSync config_ (Path.join localFolderPath (direntName file))) eqn:Hign.
      + apply elem_of_app in Hin as [Hin|Hin%list_elem_of_singleton];
          [exact (IH Hnone f Hin Hname)|].
        subst f. left. by rewrite <- Hname.
      + destruct (direntStat file) as [[mtime sz]|] eqn:Hst.
        * rewrite storedStats_assign in Hnone.
          destruct (decide (direntName file = name)) as [Heq|Hne]; [done|].
          apply elem_of_app in Hin as [Hin|Hin%list_elem_of_singleton];
            [exact (IH Hnone f Hin Hname)|].
          congruence.
        * apply elem_of_app in Hin as [Hin|Hin%list_elem_of_singleton];
            [exact (IH Hnone f Hin Hname)|].
          subst f. by right. }
  split; [intros l Hl; split; [by apply lookupStats_stored|by apply Hsound]|].
  split; [done|].
  intros Hnone Hplain Hproto.
  assert (lookupStats name (readLocalItems config_ localFolderPath files) = VUndefined)
    as Hlook by (by rewrite lookupStats_plain_stored, Hnone).
  split; [done|].
  intros mkdir remoteItem Hname Htype Hdot Hdotdot Hign. unfold syncDecision.
  rewrite Hname. destruct (String.eqb_spec name "."); [done|].
  destruct (String.eqb_spec name ".."); [done|]. cbn [orb].
  by rewrite Hign, Htype, Hlook.
Qed.

End SyncItems.

(** ** The status bar *)

Section StatusBar.
Variable toLocaleString : Z -> string.

Lemma updateStatusBar_idem s : (StatusManager.updateStatusBar toLocaleString) ((StatusManager.updateStatusBar toLocaleString) s) = (StatusManager.updateStatusBar toLocaleString) s.
Proof.
  unfold StatusManager.updateStatusBar.
  destruct (StatusManager.currentOperation s) eqn:Hop; cbn; rewrite ?Hop; cbn; try done.
  destruct (connected (StatusManager.status s)) eqn:Hc; cbn; rewrite ?Hop, ?Hc; cbn; [done|].
  destruct (connecting (StatusManager.status s)) eqn:Hg; cbn; rewrite ?Hop, ?Hc, ?Hg; done.
Qed.

Lemma receive_rendered s r : rendered toLocaleString s → rendered toLocaleString ((StatusManager.receive toLocaleString) s r).
Proof.
  unfold rendered. intros Hr.
  destruct r; cbn [StatusManager.receive]; try apply updateStatusBar_idem.
  unfold StatusManager.updateConnectionStatus. cbn.
  destruct (StatusManager.currentOperation s) eqn:Hop; cbn [StatusManager.isNoOperation];
    try apply updateStatusBar_idem.
  all: rewrite <- Hr at 2; unfold StatusManager.updateStatusBar; cbn; rewrite Hop; done.
Qed.

Lemma replay_snoc rs r : (StatusManager.replay toLocaleString) (rs ++ [r]) = (StatusManager.receive toLocaleString) ((StatusManager.replay toLocaleString) rs) r.
Proof. unfold StatusManager.replay. by rewrite fold_left_app. Qed.

Lemma initial_rendered : rendered toLocaleString (StatusManager.initial toLocaleString).
Proof. apply updateStatusBar_idem. Qed.

Lemma replay_rendered rs : rendered toLocaleString (StatusManager.replay toLocaleString rs).
Proof.
  induction rs as [|r rs IH] using rev_ind; [apply initial_rendered|].
  rewrite replay_snoc. by apply receive_rendered.
Qed.

Lemma rendered_cases s :
  rendered toLocaleString s →
  let bar := StatusManager.statusBarItem s in
  (StatusManager.currentOperation s ≠ StatusManager.NoOperation →
     StatusManager.text bar = StatusManager.operationText s ∧
     StatusManager.command bar = None) ∧
  (StatusManager.currentOperation s = StatusManager.NoOperation →
     (connected (StatusManager.status s) = true →
        StatusManager.text bar = "$(check) Smart FTP: Connected" ∧
        StatusManager.command bar = Some "smartftp.disconnect") ∧
     (connected (StatusManager.status s) = false → connecting (StatusManager.status s) = true →
        StatusManager.text bar = "$(sync~spin) Smart FTP: Connecting..." ∧
        StatusManager.command bar = None) ∧
     (connected (StatusManager.status s) = false → connecting (StatusManager.status s) = false →
        StatusManager.text bar = "$(x) Smart FTP: Disconnected" ∧
        StatusManager.command bar = Some "smartftp.connect")).
Proof.
  unfold rendered. intros Hr. cbn zeta.
  pose proof (f_equal StatusManager.statusBarItem Hr) as Hbar. rewrite <- Hbar. clear Hr Hbar.
  unfold StatusManager.updateStatusBar. split.
  - intros Hop. by destruct (StatusManager.currentOperation s).
  - intros ->. cbn [StatusManager.isNoOperation negb].
    split; [by intros ->|]. split; by intros -> ->.
Qed.

(** X18: after any sequence of calls from the manager, the status bar is the
    one that [updateStatusBar] would draw: during an operation it shows the
    text of the operation and has no command; otherwise it shows Connected
    with the disconnect command, Connecting without command, or Disconnected
    with the connect command, by the status held. *)
Theorem status_bar_shows_the_state (rs : list Report) :
  let s := (StatusManager.replay toLocaleString) rs in
  let bar := StatusManager.statusBarItem s in
  (StatusManager.updateStatusBar toLocaleString) s = s ∧
  (StatusManager.currentOperation s ≠ StatusManager.NoOperation →
     StatusManager.text bar = StatusManager.operationText s ∧
     StatusManager.command bar = None) ∧
  (StatusManager.currentOperation s = StatusManager.NoOperation →
     (connected (StatusManager.status s) = true →
        StatusManager.text bar = "$(check) Smart FTP: Connected" ∧
        StatusManager.command bar = Some "smartftp.disconnect") ∧
     (connected (StatusManager.status s) = false → connecting (StatusManager.status s) = true →
        StatusManager.text bar = "$(sync~spin) Smart FTP: Connecting..." ∧
        StatusManager.command bar = None) ∧
     (connected (StatusManager.status s) = false → connecting (StatusManager.status s) = false →
        StatusManager.text bar = "$(x) Smart FTP: Disconnected" ∧
        StatusManager.command bar = Some "smartftp.connect")).
Proof.
  cbn zeta. split; [apply replay_rendered|].
  apply rendered_cases, replay_rendered.
Qed.

End StatusBar.

Section StatusBarFollows.
Context `{Host}.
Variable toLocaleString : Z -> string.

Lemma receive_status s r :
  StatusManager.status (StatusManager.receive toLocaleString s r) =
    match r with
    | UpdateConnectionStatus st => st
    | _ => StatusManager.status s
    end.
Proof.
  assert (∀ s0, StatusManager.status (StatusManager.updateStatusBar toLocaleString s0) =
                StatusManager.status s0) as Hu.
  { intros s0. unfold StatusManager.updateStatusBar.
    destruct (negb _); [done|]. destruct (connected _); [done|]. by destruct (connecting _). }
  destruct r; cbn [StatusManager.receive];
    unfold StatusManager.showUploadProgress, StatusManager.showUploadSuccess,
      StatusManager.showUploadError, StatusManager.showSyncProgress,
      StatusManager.showSyncSuccess, StatusManager.showSyncError,
      StatusManager.showDownloadProgress, StatusManager.showDownloadSuccess,
      StatusManager.showDownloadError, StatusManager.operationEnded;
    rewrite ?Hu; try done.
  unfold StatusManager.updateConnectionStatus. cbn.
  destruct (StatusManager.isNoOperation _); [by rewrite Hu|done].
Qed.

Lemma replay_status rs :
  StatusManager.status (StatusManager.replay toLocaleString rs) = lastReportedStatus rs.
Proof.
  induction rs as [|r rs IH] using rev_ind; [done|].
  rewrite replay_snoc, receive_status. unfold lastReportedStatus. rewrite fold_left_app. cbn.
  destruct r; try done; exact IH.
Qed.

Lemma lastReportedStatus_snoc rs r :
  lastReportedStatus (rs ++ [r]) =
    match r with
    | UpdateConnectionStatus st => st
    | _ => lastReportedStatus rs
    end.
Proof. unfold lastReportedStatus. by rewrite fold_left_app. Qed.

Lemma statusReported_same s s' :
  connectionStatus s' = connectionStatus s → reports s' = reports s →
  statusReported s → statusReported s'.
Proof. unfold statusReported. by intros -> ->. Qed.

Lemma statusReported_update st s :
  sameConnection st (connectionStatus s) → statusReported (report (UpdateConnectionStatus st) s).
Proof.
  intros Hsame. unfold statusReported. cbn -[lastReportedStatus].
  by rewrite lastReportedStatus_snoc.
Qed.

Lemma statusReported_report r s :
  (∀ st, r ≠ UpdateConnectionStatus st) → statusReported s → statusReported (report r s).
Proof.
  intros Hr Hs. unfold statusReported. cbn -[lastReportedStatus]. rewrite lastReportedStatus_snoc.
  destruct r; try done. by destruct (Hr status).
Qed.

Lemma sameConnection_refl st : sameConnection st st.
Proof. done. Qed.

Lemma statusReported_scheduleReconnect s : statusReported s → statusReported (scheduleReconnect s).
Proof.
  destruct (scheduleReconnect_frame s) as (_ & _ & Hst & _ & _ & _ & _ & Hr).
  by apply statusReported_same.
Qed.

Lemma statusReported_handleFTPError e ctx s :
  statusReported s → statusReported (handleFTPError e ctx s).
Proof.
  intros Hs. unfold handleFTPError.
  destruct (isConnectionLossCode e); [|destruct (isNetworkLossMessage _); [|done]];
    apply statusReported_scheduleReconnect, statusReported_update; done.
Qed.

Lemma statusReported_connectFailed e s : statusReported (connectFailed e s).2.
Proof.
  unfold connectFailed. cbn [snd]. apply statusReported_scheduleReconnect.
  unfold statusReported. cbn -[lastReportedStatus]. by rewrite lastReportedStatus_snoc.
Qed.

Lemma statusReported_connectStart s : statusReported s → statusReported (connectStart s).2.
Proof.
  intros Hs. unfold connectStart. destruct (config s); [|done].
  destruct (connecting _); [done|]. destruct (isConnected s); [done|]. cbn [snd].
  unfold statusReported. cbn -[lastReportedStatus]. by rewrite lastReportedStatus_snoc.
Qed.

Lemma statusReported_drainFinish ok s : statusReported s → statusReported (drainFinish ok s).2.
Proof.
  intros Hs. unfold drainFinish. cbn. destruct (uploadQueue s); [|done].
  by apply statusReported_report.
Qed.

Lemma statusReported_drainLoop ok s : statusReported s → statusReported (drainLoop ok s).2.
Proof.
  intros Hs. unfold drainLoop. destruct (uploadQueue s) as [|task rest].
  - by apply statusReported_drainFinish.
  - destruct (isConnected s); cbn [negb].
    + destruct (skipsEnsureDir _ _); cbn [snd];
        unfold statusReported; cbn -[lastReportedStatus]; by rewrite lastReportedStatus_snoc.
    + cbn [snd]. by apply statusReported_connectStart.
Qed.

Lemma statusReported_processUploadQueue s :
  statusReported s → statusReported (processUploadQueue s).2.
Proof.
  intros Hs. unfold processUploadQueue. destruct (_ || _); [done|].
  destruct (isConnected s); cbn [negb snd]; [|by apply statusReported_connectStart].
  by apply statusReported_drainLoop.
Qed.

Lemma statusReported_uploadFailed task ok e s :
  statusReported s → statusReported (uploadFailed task ok e s).2.
Proof.
  intros Hs. unfold uploadFailed. set (ctx := "Upload attempt " ++ _).
  pose proof (statusReported_handleFTPError e ctx s Hs) as Hs1.
  destruct (_ && _); [done|].
  set (s2 := report _ _).
  assert (statusReported s2) as Hs2 by by apply statusReported_report.
  destruct (clientClosed s2); [by apply statusReported_drainFinish|by apply statusReported_drainLoop].
Qed.

Lemma statusReported_disconnect s : statusReported s → statusReported (disconnect s).
Proof.
  intros Hs. unfold disconnect.
  assert (statusReported (set_client None (cancelReconnectTimer s))) as Hs1.
  { apply (statusReported_same s); [| |done]; unfold cancelReconnectTimer;
      by destruct (reconnectTimer s). }
  destruct (_ || _); [|done].
  unfold statusReported. cbn -[lastReportedStatus]. by rewrite lastReportedStatus_snoc.
Qed.

Lemma step_statusReported ev s s' :
  statusReported s → step ev s = Some s' → statusReported s'.
Proof.
  intros Hs Hstep. destruct ev; cbn in Hstep.
  - simplify_eq. unfold setConfig. destruct c; [done|]. by apply statusReported_disconnect.
  - simplify_eq. by apply statusReported_connectStart.
  - simplify_eq. destruct (connectAccessSettled_cases o s) as [-> | [e ->]];
      [done|apply statusReported_connectFailed].
  - simplify_eq. unfold connectListSettled. destruct o; [|apply statusReported_connectFailed].
    destruct (config s); [|apply statusReported_connectFailed].
    cbn [snd]. apply statusReported_processUploadQueue.
    unfold statusReported. cbn -[lastReportedStatus]. by rewrite lastReportedStatus_snoc.
  - simplify_eq. by apply statusReported_disconnect.
  - simplify_eq. unfold socketChanged. by destruct (client s).
  - simplify_eq. unfold uploadFile.
    destruct (isSyncingOrDownloading s); [done|]. destruct (config s) as [cfg|]; [|done].
    destruct (negb _); [done|]. destruct (if Js.truthy remotePath_ then _ else _); [|done].
    destruct (ignoredOnUpload cfg localPath_); [done|].
    destruct (negb _); cbn [snd];
      [by apply statusReported_connectStart|by apply statusReported_processUploadQueue].
  - destruct (drain s) as [|task ok|task ok|ok]; simplify_eq.
    unfold ensureDirSettled. destruct o.
    + destruct (isConnected s); cbn [negb]; [done|by apply statusReported_uploadFailed].
    + by apply statusReported_uploadFailed, statusReported_handleFTPError.
  - destruct (drain s) as [|task ok|task ok|ok]; simplify_eq.
    unfold uploadSettled. destruct (uploadFrom fs task server).
    + apply statusReported_drainLoop. by apply statusReported_report.
    + by apply statusReported_uploadFailed.
  - destruct (drain s) as [|task ok|task ok|ok]; simplify_eq.
    unfold retryDelayElapsed.
    destruct (clientClosed s); [by apply statusReported_drainFinish|by apply statusReported_drainLoop].
  - unfold reconnectTimerFired in Hstep. case_bool_decide; simplify_eq.
    destruct (_ && _); [|done]. by apply statusReported_connectStart.
  - simplify_eq. destruct (isConnected s); [done|]. cbn [snd].
    apply statusReported_connectStart. unfold connectionLost. by apply statusReported_update.
  - simplify_eq. by apply statusReported_handleFTPError.
  - simplify_eq. unfold exclusiveEnter. destruct live; cbn [negb].
    + destruct (config s); [|apply statusReported_report; [by destruct op|done]].
      apply statusReported_report; [by destruct op|done].
    + apply statusReported_report; [by destruct op|done].
  - simplify_eq. unfold exclusiveLeave.
    apply statusReported_report; [done|].
    apply (statusReported_same
             match result, op with
             | Resolved, SyncServerToLocal =>
                 report (ShowSyncSuccess ("Synced " ++ Path.basename localFolderPath)) s
             | Resolved, DownloadRemotePath =>
                 report (ShowDownloadSuccess ("Downloaded " ++ Path.basename localFolderPath)) s
             | Rejected e, SyncServerToLocal =>
                 report (showExclusiveError op localFolderPath (message e)) s
             | Rejected e, DownloadRemotePath =>
                 report (showExclusiveError op localFolderPath (message e))
                        (handleFTPError e ("download remote path " ++ remoteFolderPath) s)
             end); [done..|].
    destruct result, op; apply statusReported_report; try done.
    by apply statusReported_handleFTPError.
Qed.

Lemma run_statusReported evs s s' :
  statusReported s → run evs s = Some s' → statusReported s'.
Proof.
  revert s. induction evs as [|ev evs IH]; intros s Hs Hrun; cbn in Hrun; [by simplify_eq|].
  destruct (step ev s) as [s1|] eqn:Hstep; [|done].
  eapply IH; [|done]. by eapply step_statusReported.
Qed.

(** X19: in every reachable state, the connection status that the status
    manager holds after the manager's reports agrees with the manager's own in
    [connected], [connecting], [lastConnected] and [host]; outside an
    operation the bar shows Connected exactly when the manager's status is
    connected, and offers the connect command exactly when it is neither
    connected nor connecting. *)
Theorem status_bar_follows_the_manager (evs : list Event) (s : FTPManager) :
  run evs initial = Some s →
  let bar := StatusManager.replay toLocaleString (reports s) in
  connected (StatusManager.status bar) = connected (connectionStatus s) ∧
  connecting (StatusManager.status bar) = connecting (connectionStatus s) ∧
  lastConnected (StatusManager.status bar) = lastConnected (connectionStatus s) ∧
  statusHost (StatusManager.status bar) = statusHost (connectionStatus s) ∧
  (StatusManager.currentOperation bar = StatusManager.NoOperation →
     (StatusManager.text (StatusManager.statusBarItem bar) = "$(check) Smart FTP: Connected" ↔
      connected (connectionStatus s) = true) ∧
     (StatusManager.command (StatusManager.statusBarItem bar) = Some "smartftp.connect" ↔
      connected (connectionStatus s) = false ∧ connecting (connectionStatus s) = false)).
Proof.
  intros Hrun. cbn zeta.
  assert (statusReported initial) as Hinit by done.
  pose proof (run_statusReported evs initial s Hinit Hrun) as (Hn & Hg & Hl & Hh).
  rewrite <- !replay_status in Hn, Hg, Hl, Hh.
  split; [done|]. split; [done|]. split; [done|]. split; [done|].
  intros Hop. destruct (rendered_cases toLocaleString _ (replay_rendered toLocaleString (reports s)))
    as (_ & Hbar).
  destruct (Hbar Hop) as (Hc & Hcg & Hd). rewrite <- Hn, <- Hg.
  destruct (connected (StatusManager.status _)) eqn:Hcon.
  - destruct (Hc eq_refl) as [-> ->]. split; [done|]. split; [done|]. by intros [? _].
  - destruct (connecting (StatusManager.status _)) eqn:Hcing.
    + destruct (Hcg eq_refl eq_refl) as [-> ->]. split; [done|]. split; [done|]. by intros [_ ?].
    + destruct (Hd eq_refl eq_refl) as [-> ->]. done.
Qed.

End StatusBarFollows.

(** X19 (witness) *)
Lemma status_bar_follows_the_manager_witness :
  StatusManager.text
    (StatusManager.statusBarItem (StatusManager.replay pretty (reports demoConnected)))
    = "$(check) Smart FTP: Connected".
Proof.
  destruct (@status_bar_follows_the_manager demoHost pretty demoConnectEvents demoConnected)
    as (_ & _ & _ & _ & Hbar); [vm_compute; reflexivity|].
  apply Hbar; reflexivity.
Defined.

(** ** A save, from the watcher to the manager *)

Section SaveUploads.
Context `{Host}.



End SaveUploads.


(** Without [uploadOnSave] no save listener is registered: a save of the
    file is no event of the watcher, and the timeout stays armed. *)
Example save_without_uploadOnSave_is_no_event :
  ∃ w, @FileWatcher.run demoHost demoWatchEventsNoSave FileWatcher.initial = Some w ∧
       FileWatcher.uploadDebounce w !! "/ws/src/a.ts" = Some O ∧
       FileWatcher.timeouts w = [(O, "/ws/src/a.ts")] ∧
       FileWatcher.saveWatcher w = false ∧
       @FileWatcher.step demoHost (FileWatcher.Saved "/ws/src/a.ts") w = None.
Proof. eexists. split; [vm_compute; reflexivity|]. repeat split. Qed.


(** ** A change of the configuration *)

Section ConfigurationChange.
Context `{Host}.

Lemma setConfig_watching c w :
  watcherInvariant w →
  let w' := FileWatcher.setConfig c w in
  FileWatcher.config w' = c ∧ FileWatcher.timeouts w' = [] ∧ FileWatcher.uploadDebounce w' = ∅ ∧
  (c = None → FileWatcher.isWatching w' = false ∧ FileWatcher.fileWatcher w' = None ∧
              FileWatcher.saveWatcher w' = false).
Proof.
  intros Hinv. cbn zeta. unfold FileWatcher.setConfig, FileWatcher.restart.
  assert (watcherInvariant (FileWatcher.set_config c w)) as Hinv' by done.
  destruct (stop_quiet _ Hinv') as (Ht & Hm & Hf & Hs & Hw & Hc & _).
  cbn [FileWatcher.config FileWatcher.set_config] in Hc.
  destruct c as [cfg|].
  - rewrite Hc. rewrite start_config, Hc.
    destruct (start_frame (FileWatcher.stop (FileWatcher.set_config (Some cfg) w))) as [-> _].
    split; [done|]. split; [done|]. split; [|done].
    destruct (start_cases (FileWatcher.stop (FileWatcher.set_config (Some cfg) w)))
      as [-> | (cfg' & _ & _ & ->)]; [done|].
    unfold FileWatcher.startSaveWatcher, FileWatcher.startFileSystemWatcher.
    destruct (negb (uploadOnSave cfg')); destruct (_ && _); done.
  - rewrite Hc. done.
Qed.

(** X20: the listener of configuration changes gives the manager and the
    watcher the new configuration, keeps the pending uploads and leaves no
    debounce timeout.  A removal leaves the manager without client,
    connection, attempt or armed timer and the watcher stopped.  A
    configuration for which the watcher starts, given while connected, keeps
    the client and the status; given while not connected, it leaves an
    attempt in progress.  A configuration without [watcher], in a workspace,
    makes the watcher throw: the watcher is stopped with no listener
    registered, and the manager keeps its client and its status, so that no
    attempt is started. *)
Theorem configuration_change_keeps_the_queue (evs : list Event) (evsW : list FileWatcher.Event)
    (x : Extension.State) (c : option Extension.LoadedConfig) :
  run evs initial = Some (Extension.ftpManager x) →
  FileWatcher.run evsW FileWatcher.initial = Some (Extension.fileWatcher x) →
  let x' := Extension.configChanged c x in
  let m := Extension.ftpManager x in
  let m' := Extension.ftpManager x' in
  let w' := Extension.fileWatcher x' in
  config m' = Extension.settings <$> c ∧
  FileWatcher.config w' = Extension.settings <$> c ∧
  pending m' = pending m ∧
  FileWatcher.timeouts w' = [] ∧
  (c = None →
     client m' = None ∧ isConnected m' = false ∧ connecting (connectionStatus m') = false ∧
     timeouts m' = [] ∧ FileWatcher.isWatching w' = false) ∧
  (c ≠ None → Extension.fileWatcherThrows c = false → isConnected m = true →
     client m' = client m ∧ connectionStatus m' = connectionStatus m) ∧
  (c ≠ None → Extension.fileWatcherThrows c = false → isConnected m = false →
     connecting (connectionStatus m') = true) ∧
  (Extension.fileWatcherThrows c = true →
     c ≠ None ∧
     client m' = client m ∧ connectionStatus m' = connectionStatus m ∧
     FileWatcher.isWatching w' = false ∧ FileWatcher.fileWatcher w' = None ∧
     FileWatcher.saveWatcher w' = false).
Proof.
  intros Hrun HrunW. cbn zeta.
  pose proof (run_watcherInvariant evsW _ _ initial_watcherInvariant HrunW) as HinvW.
  destruct (setConfig_watching (Extension.settings <$> c) _ HinvW) as (Hwc & Hwt & _ & Hwnone).
  destruct (reachable_invariant evs _ Hrun) as (_ & Hone & _).
  set (m := Extension.ftpManager x) in *.
  unfold Extension.configChanged. fold m.
  destruct (Extension.fileWatcherThrows c) eqn:Hthrows.
  { destruct c as [loaded|]; [|done]. cbn [fmap option_fmap option_map].
    cbn [Extension.ftpManager Extension.fileWatcher].
    assert (watcherInvariant (FileWatcher.set_config (Some (Extension.settings loaded))
                                (Extension.fileWatcher x))) as HinvW' by done.
    destruct (stop_quiet _ HinvW') as (Ht & _ & Hf & Hs & Hw & Hc & _).
    unfold setConfig.
    split; [done|]. split; [by rewrite Hc|]. split; [by apply pending_same|].
    split; [done|]. split; [done|]. split; [done|]. split; [done|].
    intros _. by repeat split. }
  destruct c as [loaded|]; cbn [fmap option_fmap option_map] in *;
    cbn [Extension.ftpManager Extension.fileWatcher].
  - set (cfg := Extension.settings loaded) in *. unfold setConfig. split.
    { destruct (negb _); [by rewrite connectStart_config|done]. }
    split; [done|]. split.
    { destruct (negb _); [by rewrite pending_connectStart|done]. }
    split; [done|]. split; [done|].
    assert (isConnected (set_config (Some cfg) m) = isConnected m) as -> by done.
    split; [|split; [|done]].
    + intros _ _ ->. done.
    + intros _ _ Hdown. rewrite Hdown. cbn [negb]. unfold connectStart. cbn.
      destruct (connecting (connectionStatus m)) eqn:Hg; [done|].
      assert (isConnected (set_config (Some cfg) m) = isConnected m) as -> by done.
      by rewrite Hdown.
  - unfold setConfig.
    assert (oneReconnectTimer (set_config None m)) as Hone' by done.
    set (m1 := disconnect (set_config None m)).
    destruct (disconnect_sessionless (set_config None m)) as (Hcl & Hn & Hg). fold m1 in Hcl, Hn, Hg.
    destruct (disconnect_frame (set_config None m)) as (Hq & Hd & Hc & _). fold m1 in Hq, Hd, Hc.
    assert (reconnectTimer m1 = None ∧ timeouts m1 = []) as [Ht Hts].
    { subst m1. unfold disconnect, cancelReconnectTimer.
      unfold oneReconnectTimer, heldTimeouts in Hone'. cbn in Hone'. cbn.
      destruct (reconnectTimer m) as [handle|] eqn:Ht; cbn; destruct (_ || _); cbn;
        rewrite ?Ht, ?Hone'; cbn; try done; by destruct (decide (handle ≠ handle)). }
    assert (disconnect m1 = m1) as ->.
    { unfold disconnect at 1. unfold cancelReconnectTimer. rewrite Ht. cbn. rewrite Hn, Hg. cbn.
      destruct m1; cbn in *. by subst. }
    split; [done|]. split; [done|]. split; [by apply pending_same|]. split; [done|].
    split; [|done]. intros _. split; [done|]. split; [unfold isConnected; by rewrite Hn|].
    split; [done|]. split; [done|]. by destruct (Hwnone eq_refl) as (? & _).
Qed.

End ConfigurationChange.

(** X20 (witness): the configuration is removed while an upload runs; then
    a configuration without [watcher] arrives while the manager is
    connected. *)
Lemma configuration_change_keeps_the_queue_witness :
  pending (Extension.ftpManager (@Extension.configChanged demoHost None demoSession))
    = pending demoUploading ∧
  client (Extension.ftpManager (@Extension.configChanged demoHost None demoSession)) = None ∧
  FileWatcher.timeouts (Extension.fileWatcher (@Extension.configChanged demoHost None demoSession))
    = [] ∧
  @Extension.fileWatcherThrows demoHost (Some demoWithoutWatcher) = true ∧
  FileWatcher.isWatching
    (Extension.fileWatcher (@Extension.configChanged demoHost (Some demoWithoutWatcher) demoSession))
    = false.
Proof.
  destruct (@configuration_change_keeps_the_queue demoHost demoUploadingEvents demoWatchEvents
              demoSession None) as (_ & _ & Hpending & Htimeouts & Hnone & _);
    [vm_compute; reflexivity..|].
  destruct (Hnone eq_refl) as (Hclient & _).
  destruct (@configuration_change_keeps_the_queue demoHost demoUploadingEvents demoWatchEvents
              demoSession (Some demoWithoutWatcher)) as (_ & _ & _ & _ & _ & _ & _ & Hthrows);
    [vm_compute; reflexivity..|].
  destruct (Hthrows eq_refl) as (_ & _ & _ & Hwatching & _).
  by repeat split.
Defined.

(** ** The configuration file *)

Lemma getField_required_cases fields :
  forallb (ConfigManager.fieldPresent fields) ConfigManager.required = true ↔
  (∀ field, field ∈ ["host"; "protocol"; "port"; "username"; "remotePath"] →
     ∃ value, ConfigManager.getField field fields = Some value ∧
              value ≠ ConfigManager.JString "") ∧
  is_Some (ConfigManager.getField "password" fields).
Proof.
  assert (∀ field, field ≠ "password" →
            ConfigManager.fieldPresent fields field = true ↔
            ∃ value, ConfigManager.getField field fields = Some value ∧
                     value ≠ ConfigManager.JString "") as Hother.
  { intros field Hne. unfold ConfigManager.fieldPresent.
    destruct (ConfigManager.getField field fields) as [value|].
    - destruct value as [|b|q|str|items|fs]; try (split; [intros _; by eexists|done]).
      destruct str as [|c str].
      + destruct (String.eqb_spec field "password"); [done|].
        split; [done|]. by intros (value & [= <-] & ?).
      + split; [intros _; by eexists|done].
    - split; [done|]. by intros (value & ? & _). }
  assert (ConfigManager.fieldPresent fields "password" = true ↔
          is_Some (ConfigManager.getField "password" fields)) as Hpw.
  { unfold ConfigManager.fieldPresent.
    destruct (ConfigManager.getField "password" fields) as [value|].
    - split; [by eexists|]. intros _. destruct value as [|b|q|str|items|fs]; try done.
      by destruct str.
    - split; [done|]. by intros [? ?]. }
  unfold ConfigManager.required. cbn [forallb]. rewrite !andb_true_iff, Hpw, !Hother by done.
  split.
  - intros (Hh & Hp & Hport & Hu & Hpass & Hr & _). split; [|done].
    intros field Hin. repeat (apply elem_of_cons in Hin as [->|Hin]; [done|]).
    by apply elem_of_nil in Hin.
  - intros [Hall Hpass]. repeat split; try done; apply Hall; rewrite !elem_of_cons; tauto.
Qed.

(** X21: [validateConfig] accepts a parsed value exactly when it is an object
    in which [host], [protocol], [port], [username] and [remotePath] are
    present and not the empty string, [password] is present, [protocol] is the
    string [ftp] or [sftp], and [port] is a number that is an integer from 1
    to 65535. *)
Theorem validateConfig_accepts_exactly (config : ConfigManager.Json) :
  ConfigManager.validateConfig config = ConfigManager.Accepted ↔
  ∃ fields, config = ConfigManager.JObject fields ∧
    (∀ field, field ∈ ["host"; "protocol"; "port"; "username"; "remotePath"] →
       ∃ value, ConfigManager.getField field fields = Some value ∧
                value ≠ ConfigManager.JString "") ∧
    is_Some (ConfigManager.getField "password" fields) ∧
    (ConfigManager.getField "protocol" fields = Some (ConfigManager.JString "ftp") ∨
     ConfigManager.getField "protocol" fields = Some (ConfigManager.JString "sftp")) ∧
    ∃ (q : Q) (port : Z),
      ConfigManager.getField "port" fields = Some (ConfigManager.JNumber q) ∧
      (q == inject_Z port)%Q ∧ 1 ≤ port ≤ 65535.
Proof.
  assert (∀ fields, ConfigManager.protocolOk fields = true ↔
            ConfigManager.getField "protocol" fields = Some (ConfigManager.JString "ftp") ∨
            ConfigManager.getField "protocol" fields = Some (ConfigManager.JString "sftp"))
    as Hprotocol.
  { intros fields. unfold ConfigManager.protocolOk.
    destruct (ConfigManager.getField "protocol" fields) as [[|b|q|p|items|fs]|];
      try (split; [done|by intros [|]]).
    rewrite orb_true_iff, !String.eqb_eq.
    split; [intros [->| ->]; auto|intros [[= ->]|[= ->]]; auto]. }
  assert (∀ fields, ConfigManager.portOk fields = true ↔
            ∃ (q : Q) (port : Z),
              ConfigManager.getField "port" fields = Some (ConfigManager.JNumber q) ∧
              (q == inject_Z port)%Q ∧ 1 ≤ port ≤ 65535) as Hport.
  { intros fields. unfold ConfigManager.portOk.
    destruct (ConfigManager.getField "port" fields) as [[|b|q|p|items|fs]|];
      try (split; [done|by intros (? & ? & ? & _)]).
    unfold ConfigManager.isInteger. rewrite !andb_true_iff, negb_true_iff.
    split.
    - intros [[Hint%Qeq_bool_iff Hpos] Hmax%Qle_bool_iff].
      exists q, (Qfloor q). split; [done|]. split; [done|].
      assert (¬ (q <= 0)%Q) as Hpos'.
      { intros Hle%Qle_bool_iff. congruence. }
      rewrite Hint in Hpos', Hmax.
      change 0%Q with (inject_Z 0) in Hpos'. change 65535%Q with (inject_Z 65535) in Hmax.
      rewrite <- Zle_Qle in Hpos', Hmax. lia.
    - intros (q' & port & [= <-] & Heq & Hrange).
      assert (Qfloor q = port) as Hfloor.
      { rewrite Heq. apply Qfloor_Z. }
      split; [split|].
      + apply Qeq_bool_iff. by rewrite Hfloor.
      + destruct (Qle_bool q 0) eqn:Hle; [|done]. apply Qle_bool_iff in Hle.
        rewrite Heq in Hle. change 0%Q with (inject_Z 0) in Hle. rewrite <- Zle_Qle in Hle. lia.
      + apply Qle_bool_iff. rewrite Heq. change 65535%Q with (inject_Z 65535).
        rewrite <- Zle_Qle. lia. }
  split.
  - unfold ConfigManager.validateConfig. destruct config as [|b|q|s|items|fields]; try done.
    destruct (forallb _ _ && _ && _) eqn:Hok; [|done]. intros _.
    apply andb_true_iff in Hok as [Hok Hp]. apply andb_true_iff in Hok as [Hreq Hproto].
    apply getField_required_cases in Hreq as [Hall Hpass].
    exists fields. split; [done|]. split; [done|]. split; [done|].
    split; [by apply Hprotocol|by apply Hport].
  - intros (fields & -> & Hall & Hpass & Hproto & Hp). unfold ConfigManager.validateConfig.
    apply Hprotocol in Hproto. apply Hport in Hp.
    assert (forallb (ConfigManager.fieldPresent fields) ConfigManager.required = true) as ->
      by by apply getField_required_cases.
    by rewrite Hproto, Hp.
Qed.

Section ConfigFile.
Context `{Host}.
Variable stringify : ConfigManager.Json -> string.

Lemma notificationsDiffer_snoc before fired v :
  notificationsDiffer stringify before (fired ++ [v]) ↔
  notificationsDiffer stringify before fired ∧
  match v with
  | Some parsed =>
      stringify (default ConfigManager.JNull (default before (last fired))) ≠ stringify parsed
  | None => default before (last fired) ≠ None
  end.
Proof.
  revert before. induction fired as [|w fired IH]; intros before.
  - cbn. tauto.
  - cbn [app notificationsDiffer]. rewrite IH.
    assert (default w (last fired) = default before (last (w :: fired))) as ->.
    { rewrite last_cons. by destruct (last fired). }
    tauto.
Qed.

Lemma notified_fire v s :
  notified stringify s →
  match v with
  | Some parsed =>
      stringify (default ConfigManager.JNull (ConfigManager.config s)) ≠ stringify parsed
  | None => ConfigManager.config s ≠ None
  end →
  notified stringify (ConfigManager.fire v (ConfigManager.set_config v s)).
Proof.
  intros [Hlast Hdiff] Hv. unfold notified. cbn. split.
  - change (None :: ConfigManager.fired s ++ [v])%list
      with ((None :: ConfigManager.fired s) ++ [v])%list.
    by rewrite last_snoc.
  - apply notificationsDiffer_snoc. split; [done|].
    assert (default None (last (ConfigManager.fired s)) = ConfigManager.config s) as ->; [|done].
    destruct (ConfigManager.fired s) as [|w fired]; [by injection Hlast|].
    rewrite last_cons_cons in Hlast. by rewrite Hlast.
Qed.

Lemma notified_same s t :
  ConfigManager.config t = ConfigManager.config s →
  ConfigManager.fired t = ConfigManager.fired s →
  notified stringify s → notified stringify t.
Proof. unfold notified. by intros -> ->. Qed.

Lemma heldIsValid_same s t :
  ConfigManager.config t = ConfigManager.config s → heldIsValid s → heldIsValid t.
Proof. unfold heldIsValid. by intros ->. Qed.

Lemma dropConfig_notified s :
  notified stringify s → notified stringify (ConfigManager.dropConfig s).
Proof.
  intros Hn. unfold ConfigManager.dropConfig.
  destruct (ConfigManager.config s) eqn:Hc; [|done].
  apply (notified_fire None); [done|]. by rewrite Hc.
Qed.

Lemma dropConfig_config s : ConfigManager.config (ConfigManager.dropConfig s) = None.
Proof. unfold ConfigManager.dropConfig. by destruct (ConfigManager.config s) eqn:Hc. Qed.

Lemma dropConfig_timers s :
  ConfigManager.timeouts (ConfigManager.dropConfig s) = ConfigManager.timeouts s ∧
  ConfigManager.configReloadDebounceTimer (ConfigManager.dropConfig s) =
    ConfigManager.configReloadDebounceTimer s ∧
  ConfigManager.configWatcher (ConfigManager.dropConfig s) = ConfigManager.configWatcher s ∧
  ConfigManager.nextTimeout (ConfigManager.dropConfig s) = ConfigManager.nextTimeout s.
Proof. unfold ConfigManager.dropConfig. by destruct (ConfigManager.config s). Qed.

Lemma loadConfig_notified file s :
  notified stringify s → notified stringify (ConfigManager.loadConfig stringify file s).2.
Proof.
  intros Hn. unfold ConfigManager.loadConfig.
  destruct (negb (Js.truthy getWorkspaceRoot)); [done|].
  set (s1 := ConfigManager.set_configPath _ s).
  assert (notified stringify s1) as Hn1 by by apply (notified_same s).
  destruct file as [| |parsed]; cbn [snd]; try by apply dropConfig_notified.
  destruct (ConfigManager.validateConfig parsed); try by apply dropConfig_notified.
  destruct (stringify _ =? stringify parsed)%string eqn:Heq; cbn [negb snd]; [done|].
  apply (notified_fire (Some parsed)); [done|]. by apply String.eqb_neq.
Qed.

Lemma loadConfig_heldIsValid file s :
  heldIsValid s → heldIsValid (ConfigManager.loadConfig stringify file s).2.
Proof.
  intros Hv. unfold ConfigManager.loadConfig.
  destruct (negb (Js.truthy getWorkspaceRoot)); [done|].
  assert (∀ t, heldIsValid (ConfigManager.dropConfig t)) as Hdrop.
  { intros t parsed. by rewrite dropConfig_config. }
  destruct file as [| |parsed]; cbn [snd]; try apply Hdrop.
  destruct (ConfigManager.validateConfig parsed) eqn:Hok; try apply Hdrop.
  destruct (negb _); cbn [snd]; [|done].
  intros parsed'. cbn. by intros [= <-].
Qed.

Lemma loadConfig_timers file s :
  ConfigManager.timeouts (ConfigManager.loadConfig stringify file s).2 =
    ConfigManager.timeouts s ∧
  ConfigManager.configReloadDebounceTimer (ConfigManager.loadConfig stringify file s).2 =
    ConfigManager.configReloadDebounceTimer s ∧
  ConfigManager.configWatcher (ConfigManager.loadConfig stringify file s).2 =
    ConfigManager.configWatcher s ∧
  ConfigManager.nextTimeout (ConfigManager.loadConfig stringify file s).2 =
    ConfigManager.nextTimeout s.
Proof.
  unfold ConfigManager.loadConfig.
  destruct (negb (Js.truthy getWorkspaceRoot)); [done|].
  destruct file as [| |parsed]; cbn [snd]; try exact (dropConfig_timers _).
  destruct (ConfigManager.validateConfig parsed); try exact (dropConfig_timers _).
  by destruct (negb _).
Qed.

Lemma unchanged_appends_nothing {A} (l news : list A) : l = (l ++ news)%list → news = [].
Proof.
  intros Hnews. rewrite <- (app_nil_r l) in Hnews at 1. by apply app_inv_head in Hnews.
Qed.

(** What a load does to the configuration and to the notifications depends
    on the configuration held and on nothing else of the state. *)
Lemma loadConfig_observed file s t :
  ConfigManager.config t = ConfigManager.config s →
  ConfigManager.config (ConfigManager.loadConfig stringify file t).2 =
    ConfigManager.config (ConfigManager.loadConfig stringify file s).2 ∧
  ∀ news, ConfigManager.fired (ConfigManager.loadConfig stringify file s).2 =
            (ConfigManager.fired s ++ news)%list →
          ConfigManager.fired (ConfigManager.loadConfig stringify file t).2 =
            (ConfigManager.fired t ++ news)%list.
Proof.
  intros Hc. unfold ConfigManager.loadConfig.
  destruct (negb (Js.truthy getWorkspaceRoot)).
  { split; [done|]. intros news ->%unchanged_appends_nothing. by rewrite app_nil_r. }
  assert (∀ p q, ConfigManager.config q = ConfigManager.config p →
            ConfigManager.config (ConfigManager.dropConfig q) =
              ConfigManager.config (ConfigManager.dropConfig p) ∧
            ∀ news, ConfigManager.fired (ConfigManager.dropConfig p) =
                      (ConfigManager.fired p ++ news)%list →
                    ConfigManager.fired (ConfigManager.dropConfig q) =
                      (ConfigManager.fired q ++ news)%list) as Hdrop.
  { intros p q Hpq. split; [by rewrite !dropConfig_config|].
    unfold ConfigManager.dropConfig. rewrite Hpq.
    destruct (ConfigManager.config p); cbn.
    - by intros news ->%app_inv_head.
    - intros news ->%unchanged_appends_nothing. by rewrite app_nil_r. }
  destruct file as [| |parsed]; cbn [snd];
    try exact (Hdrop (ConfigManager.set_configPath _ s) (ConfigManager.set_configPath _ t) Hc).
  destruct (ConfigManager.validateConfig parsed);
    try exact (Hdrop (ConfigManager.set_configPath _ s) (ConfigManager.set_configPath _ t) Hc).
  cbn [ConfigManager.config ConfigManager.set_configPath]. rewrite Hc.
  destruct (negb _); cbn.
  - split; [done|]. by intros news ->%app_inv_head.
  - split; [done|]. intros news ->%unchanged_appends_nothing. by rewrite app_nil_r.
Qed.

Lemma clearReloadTimer_oneReloadTimer s :
  oneReloadTimer s → ConfigManager.timeouts (ConfigManager.clearReloadTimer s) = [].
Proof.
  unfold oneReloadTimer, ConfigManager.clearReloadTimer.
  destruct (ConfigManager.configReloadDebounceTimer s) as [handle|]; [|done].
  intros Ht. cbn. rewrite Ht. cbn. by destruct (decide (handle ≠ handle)).
Qed.

Lemma clearReloadTimer_frame s :
  ConfigManager.config (ConfigManager.clearReloadTimer s) = ConfigManager.config s ∧
  ConfigManager.fired (ConfigManager.clearReloadTimer s) = ConfigManager.fired s ∧
  ConfigManager.configWatcher (ConfigManager.clearReloadTimer s) = ConfigManager.configWatcher s.
Proof.
  unfold ConfigManager.clearReloadTimer.
  by destruct (ConfigManager.configReloadDebounceTimer s).
Qed.

Lemma step_configInvariant ev s s' :
  ConfigManager.step stringify ev s = Some s' → configInvariant stringify s → configInvariant stringify s'.
Proof.
  intros Hstep (Hv & Hn & Ht).
  destruct (clearReloadTimer_frame s) as (Hcc & Hcf & _).
  pose proof (clearReloadTimer_oneReloadTimer s Ht) as Hclear.
  destruct ev as [file|file| |file| |handle file]; cbn in Hstep.
  - injection Hstep as <-. unfold ConfigManager.initialize.
    destruct (loadConfig_timers file s) as (Hts & Htm & _).
    pose proof (loadConfig_notified file s Hn) as Hn'.
    pose proof (loadConfig_heldIsValid file s Hv) as Hv'.
    unfold ConfigManager.setupConfigWatcher.
    destruct (negb _); (split; [|split]);
      try (by eapply heldIsValid_same; [|exact Hv']);
      try (by eapply notified_same; [| |exact Hn']);
      unfold oneReloadTimer; cbn; by rewrite Hts, Htm.
  - injection Hstep as <-.
    destruct (loadConfig_timers file s) as (Hts & Htm & _).
    split; [by apply loadConfig_heldIsValid|]. split; [by apply loadConfig_notified|].
    unfold oneReloadTimer. by rewrite Hts, Htm.
  - destruct (ConfigManager.configWatcher s); [|done]. injection Hstep as <-.
    unfold ConfigManager.fileChanged. split; [|split].
    + eapply heldIsValid_same; [|exact Hv]. done.
    + eapply notified_same; [| |exact Hn]; done.
    + unfold oneReloadTimer. cbn. by rewrite Hclear.
  - destruct (ConfigManager.configWatcher s); [|done]. injection Hstep as <-.
    unfold ConfigManager.fileCreated.
    set (s1 := ConfigManager.set_timer None (ConfigManager.clearReloadTimer s)).
    destruct (loadConfig_timers file s1) as (Hts & Htm & _).
    split; [|split].
    + apply loadConfig_heldIsValid. eapply heldIsValid_same; [|exact Hv]. done.
    + apply loadConfig_notified. eapply notified_same; [| |exact Hn]; done.
    + unfold oneReloadTimer. rewrite Hts, Htm. exact Hclear.
  - destruct (ConfigManager.configWatcher s); [|done]. injection Hstep as <-.
    unfold ConfigManager.fileDeleted.
    set (s1 := ConfigManager.set_timer None (ConfigManager.clearReloadTimer s)).
    destruct (dropConfig_timers s1) as (Hts & Htm & _).
    split; [|split].
    + intros parsed. by rewrite dropConfig_config.
    + apply dropConfig_notified. eapply notified_same; [| |exact Hn]; done.
    + unfold oneReloadTimer. rewrite Hts, Htm. exact Hclear.
  - case_bool_decide as Hin; [|done]. injection Hstep as <-.
    unfold ConfigManager.reloadElapsed.
    set (s1 := ConfigManager.clearTimeout handle s).
    destruct (loadConfig_timers file s1) as (Hts & Htm & _).
    split; [|split].
    + eapply heldIsValid_same; [|apply (loadConfig_heldIsValid file s1)]; [done|].
      eapply heldIsValid_same; [|exact Hv]. done.
    + eapply notified_same; [| |apply (loadConfig_notified file s1)]; [done|done|].
      eapply notified_same; [| |exact Hn]; done.
    + unfold oneReloadTimer. cbn. rewrite Hts. cbn.
      unfold oneReloadTimer in Ht.
      destruct (ConfigManager.configReloadDebounceTimer s) as [held|];
        rewrite Ht in Hin |- *; [|by apply elem_of_nil in Hin].
      apply list_elem_of_singleton in Hin as ->. cbn.
      by destruct (decide (held ≠ held)).
Qed.

Lemma run_configInvariant evs s s' :
  ConfigManager.run stringify evs s = Some s' → configInvariant stringify s → configInvariant stringify s'.
Proof.
  revert s. induction evs as [|ev evs IH]; intros s; cbn.
  - by intros [= <-].
  - destruct (ConfigManager.step stringify ev s) as [s1|] eqn:Hstep; [|done].
    intros Hrun Hinv. apply (IH s1 Hrun). by eapply step_configInvariant.
Qed.

Lemma initial_configInvariant : configInvariant stringify ConfigManager.initial.
Proof. by repeat split. Qed.

(** X22: in every reachable state of the configuration manager, the
    configuration held has passed [validateConfig]; the last notification of
    [onConfigChanged] is the configuration held, and none is held while no
    notification has been made; and no notification repeats the state before
    it: a removal is notified only when a configuration was held, a
    configuration only when its serialisation differs from that of the one
    held. *)
Theorem listeners_hear_every_change_once evs s :
  ConfigManager.run stringify evs ConfigManager.initial = Some s →
  (∀ parsed, ConfigManager.config s = Some parsed →
     ConfigManager.validateConfig parsed = ConfigManager.Accepted) ∧
  last (None :: ConfigManager.fired s) = Some (ConfigManager.config s) ∧
  notificationsDiffer stringify None (ConfigManager.fired s).
Proof.
  intros Hrun.
  destruct (run_configInvariant evs _ _ Hrun initial_configInvariant) as (Hv & [Hl Hd] & _).
  done.
Qed.

Lemma fileChanged_burst n s :
  oneReloadTimer s → ConfigManager.configWatcher s = true →
  ∃ s', ConfigManager.run stringify (replicate (S n) ConfigManager.FileChanged) s = Some s' ∧
        ConfigManager.timeouts s' = [(ConfigManager.nextTimeout s + n)%nat] ∧
        ConfigManager.config s' = ConfigManager.config s ∧
        ConfigManager.fired s' = ConfigManager.fired s ∧
        oneReloadTimer s'.
Proof.
  revert s. induction n as [|n IH]; intros s Ht Hw.
  - exists (ConfigManager.fileChanged s). cbn. rewrite Hw.
    destruct (clearReloadTimer_frame s) as (Hcc & Hcf & _).
    pose proof (clearReloadTimer_oneReloadTimer s Ht) as Hclear.
    assert (ConfigManager.nextTimeout (ConfigManager.clearReloadTimer s) =
            ConfigManager.nextTimeout s) as Hnext.
    { unfold ConfigManager.clearReloadTimer.
      by destruct (ConfigManager.configReloadDebounceTimer s). }
    unfold ConfigManager.fileChanged, oneReloadTimer. cbn.
    rewrite Hclear, Hnext, Nat.add_0_r. done.
  - change (replicate (S (S n)) ConfigManager.FileChanged)
      with (ConfigManager.FileChanged :: replicate (S n) ConfigManager.FileChanged).
    cbn [ConfigManager.run ConfigManager.step]. rewrite Hw.
    destruct (clearReloadTimer_frame s) as (Hcc & Hcf & Hcw).
    pose proof (clearReloadTimer_oneReloadTimer s Ht) as Hclear.
    assert (ConfigManager.nextTimeout (ConfigManager.clearReloadTimer s) =
            ConfigManager.nextTimeout s) as Hnext.
    { unfold ConfigManager.clearReloadTimer.
      by destruct (ConfigManager.configReloadDebounceTimer s). }
    destruct (IH (ConfigManager.fileChanged s)) as (s' & Hrun & Hts & Hc & Hf & Ht').
    { unfold ConfigManager.fileChanged, oneReloadTimer. cbn. by rewrite Hclear. }
    { unfold ConfigManager.fileChanged. cbn. by rewrite Hcw. }
    exists s'. split; [exact Hrun|]. split.
    { rewrite Hts. unfold ConfigManager.fileChanged. cbn. rewrite Hnext. f_equal. lia. }
    split; [by rewrite Hc|]. split; [by rewrite Hf|done].
Qed.

(** X23: in a reachable state whose watcher is registered, the reload timeouts
    armed are exactly the one held; any number of consecutive change events
    leave the configuration and the notifications as they are and exactly one
    timeout armed; when it fires no timeout is left, and the configuration and
    the notifications are those of one load of the file in the state before
    the events. *)
Theorem config_reload_is_debounced evs s n file :
  ConfigManager.run stringify evs ConfigManager.initial = Some s →
  ConfigManager.configWatcher s = true →
  ConfigManager.timeouts s =
    match ConfigManager.configReloadDebounceTimer s with
    | Some handle => [handle]
    | None => []
    end ∧
  ∃ s' handle s'',
    ConfigManager.run stringify (replicate (S n) ConfigManager.FileChanged) s = Some s' ∧
    ConfigManager.timeouts s' = [handle] ∧
    ConfigManager.config s' = ConfigManager.config s ∧
    ConfigManager.fired s' = ConfigManager.fired s ∧
    ConfigManager.step stringify (ConfigManager.ReloadElapsed handle file) s' = Some s'' ∧
    ConfigManager.timeouts s'' = [] ∧
    ConfigManager.configReloadDebounceTimer s'' = None ∧
    ConfigManager.config s'' =
      ConfigManager.config (ConfigManager.loadConfig stringify file s).2 ∧
    ConfigManager.fired s'' =
      ConfigManager.fired (ConfigManager.loadConfig stringify file s).2.
Proof.
  intros Hrun Hw.
  destruct (run_configInvariant evs _ _ Hrun initial_configInvariant) as (_ & _ & Ht).
  split; [exact Ht|].
  destruct (fileChanged_burst n s Ht Hw) as (s' & Hburst & Hts & Hc & Hf & Ht').
  exists s', (ConfigManager.nextTimeout s + n)%nat.
  eexists. split; [exact Hburst|]. split; [exact Hts|]. split; [exact Hc|].
  split; [exact Hf|].
  cbn [ConfigManager.step]. rewrite Hts.
  rewrite bool_decide_eq_true_2 by by apply list_elem_of_singleton.
  split; [reflexivity|].
  set (s1 := ConfigManager.clearTimeout _ s').
  destruct (loadConfig_timers file s1) as (Hlt & _).
  assert (ConfigManager.config s1 = ConfigManager.config s) as Hc1 by (by rewrite <- Hc).
  destruct (loadConfig_observed file s s1 Hc1) as [Hlc Hlf].
  unfold ConfigManager.reloadElapsed. cbn.
  split.
  { rewrite Hlt. unfold s1. cbn. rewrite Hts. cbn.
    by destruct (decide (_ ≠ _)). }
  split; [done|]. split; [exact Hlc|].
  assert (∃ news, ConfigManager.fired (ConfigManager.loadConfig stringify file s).2 =
                    (ConfigManager.fired s ++ news)%list) as [news Hnews].
  { unfold ConfigManager.loadConfig.
    destruct (negb (Js.truthy getWorkspaceRoot)); [exists []; by rewrite app_nil_r|].
    assert (∀ p, ∃ news, ConfigManager.fired (ConfigManager.dropConfig p) =
                           (ConfigManager.fired p ++ news)%list) as Hdrop.
    { intros p. unfold ConfigManager.dropConfig.
      destruct (ConfigManager.config p); [by exists [None]|exists []; by rewrite app_nil_r]. }
    destruct file as [| |parsed]; cbn [snd];
      try exact (Hdrop (ConfigManager.set_configPath _ s)).
    destruct (ConfigManager.validateConfig parsed);
      try exact (Hdrop (ConfigManager.set_configPath _ s)).
    destruct (negb _); cbn; [by eexists|exists []; by rewrite app_nil_r]. }
  rewrite (Hlf news Hnews), Hnews. unfold s1. cbn. by rewrite Hf.
Qed.

End ConfigFile.

(** X22 (witness) *)
Lemma listeners_hear_every_change_once_witness :
  ConfigManager.validateConfig demoJson = ConfigManager.Accepted ∧
  last (None :: ConfigManager.fired demoConfigLoaded) = Some (Some demoJson).
Proof.
  destruct (@listeners_hear_every_change_once demoHost demoStringify
              [ConfigManager.Initialize (ConfigManager.Content demoJson)] demoConfigLoaded)
    as (Hvalid & Hlast & _); [vm_compute; reflexivity|].
  split; [by apply Hvalid|exact Hlast].
Defined.

(** X23 (witness) *)
Lemma config_reload_is_debounced_witness :
  ∃ s' handle s'',
    @ConfigManager.run demoHost demoStringify (replicate 3 ConfigManager.FileChanged)
      demoConfigLoaded = Some s' ∧
    ConfigManager.timeouts s' = [handle] ∧
    ConfigManager.fired s' = [Some demoJson] ∧
    @ConfigManager.step demoHost demoStringify
      (ConfigManager.ReloadElapsed handle (ConfigManager.Content demoJsonEdited)) s' = Some s'' ∧
    ConfigManager.timeouts s'' = [] ∧
    ConfigManager.fired s'' = [Some demoJson; Some demoJsonEdited].
Proof.
  destruct (@config_reload_is_debounced demoHost demoStringify
              [ConfigManager.Initialize (ConfigManager.Content demoJson)] demoConfigLoaded
              2%nat (ConfigManager.Content demoJsonEdited))
    as (_ & s' & handle & s'' & Hrun & Hts & _ & Hf & Hstep & Hts' & _ & _ & Hf');
    [vm_compute; reflexivity..|].
  exists s', handle, s''. repeat split; done.
Defined.
